(** * Quest Tracker service worker (src/sw.js): a shallow embedding

    The worker is modelled function by function.  JavaScript values are an
    inductive type, the IndexedDB database and the Cache storage are finite
    maps, and every [async] function of the source is a computation in a
    state-and-exception monad over the worker's world.

    Limits of the model: numbers are integers (and [NaN]), a string is a
    sequence of code units below 256 (Latin-1 text), and an event is handled to its end before the next one starts,
    so the interleaving of two handlers at their [await]s is not covered.
    What the platform decides (the clock, the network, URL and JSON parsing)
    is a parameter, the [Host]. *)

From Stdlib Require Import ZArith Ascii String List Lia.
From Stdlib Require OrderedTypeEx.
From stdpp Require Import base option list gmap strings.

#[local] Set Warnings "-register-all".
Local Open Scope string_scope.
Local Open Scope Z_scope.

(** ** JavaScript values *)

Module JS.

(** Numbers are the integers and [NaN] (infinities and fractions are outside
    the model).  An object is the list of its own properties in insertion
    order. *)
Inductive value : Type :=
| VUndefined
| VNull
| VBool (b : bool)
| VNum (n : Z)
| VNaN
| VStr (s : string)
| VArr (elems : list value)
| VObj (props : list (string * value)).

Inductive error : Type :=
| ReferenceError (msg : string)
| TypeError (msg : string)
| SyntaxError (msg : string)
| DataError
| ConstraintError
| NotFoundError
| VersionError
| NetworkError
| Unmodelled (what : string).

(** [ToBoolean]. *)
Definition truthy (v : value) : bool :=
  match v with
  | VUndefined | VNull | VNaN => false
  | VBool b => b
  | VNum n => negb (n =? 0)
  | VStr s => negb (String.eqb s "")
  | VArr _ | VObj _ => true
  end.

(** [a || b]. *)
Definition or_else (a b : value) : value := if truthy a then a else b.

Definition is_undefined (v : value) : bool :=
  match v with VUndefined => true | _ => false end.

(** [v === 'lit']. *)
Definition strict_eq_str (v : value) (lit : string) : bool :=
  match v with VStr s => String.eqb s lit | _ => false end.

Definition isArray (v : value) : bool :=
  match v with VArr _ => true | _ => false end.

Fixpoint assoc (k : string) (props : list (string * value)) : option value :=
  match props with
  | [] => None
  | (k', v) :: rest => if String.eqb k k' then Some v else assoc k rest
  end.

(** [o.k = v] on an object: an existing property keeps its position, a new
    one goes last. *)
Fixpoint assoc_set (k : string) (v : value) (props : list (string * value))
  : list (string * value) :=
  match props with
  | [] => [(k, v)]
  | (k', v') :: rest =>
      if String.eqb k k' then (k, v) :: rest else (k', v') :: assoc_set k v rest
  end.

(** [v.k]: reading a property of [undefined] or [null] throws; a primitive or
    an array has none of the properties the worker reads. *)
Definition get (v : value) (k : string) : error + value :=
  match v with
  | VUndefined | VNull => inl (TypeError ("Cannot read properties: " +:+ k))
  | VObj props => inr (default VUndefined (assoc k props))
  | _ => inr VUndefined
  end.

(** [v.k = x] in sloppy mode: silently ignored on a primitive. *)
Definition set (v : value) (k : string) (x : value) : error + value :=
  match v with
  | VUndefined | VNull => inl (TypeError ("Cannot set properties: " +:+ k))
  | VObj props => inr (VObj (assoc_set k x props))
  | _ => inr v
  end.

End JS.
Import JS.

(** ** Strings: the [String.prototype] functions the worker calls *)

Module Str.

Definition is_digit (c : ascii) : bool :=
  let n := nat_of_ascii c in (48 <=? n)%nat && (n <=? 57)%nat.

(** White space and line terminators ([\s], [trim()] and the white space
    [parseInt] skips) among the code units below 256: tab, line feed,
    vertical tab, form feed, carriage return, space and no-break space. *)
Definition is_space (c : ascii) : bool :=
  let n := nat_of_ascii c in
  ((9 <=? n)%nat && (n <=? 13)%nat) || (n =? 32)%nat || (n =? 160)%nat.

Definition lower (c : ascii) : ascii :=
  let n := nat_of_ascii c in
  if (65 <=? n)%nat && (n <=? 90)%nat then ascii_of_nat (n + 32) else c.

(** [s.split(sep)] for a one-character separator: never empty. *)
Fixpoint split (sep : ascii) (s : string) : list string :=
  match s with
  | EmptyString => [EmptyString]
  | String c rest =>
      if Ascii.eqb c sep then EmptyString :: split sep rest
      else match split sep rest with
           | [] => [String c EmptyString]
           | hd :: tl => String c hd :: tl
           end
  end.

(** [hay.includes(needle)]. *)
Fixpoint includes (needle hay : string) : bool :=
  String.prefix needle hay ||
  match hay with
  | EmptyString => false
  | String _ rest => includes needle rest
  end.

Fixpoint trimStart (s : string) : string :=
  match s with
  | String c rest => if is_space c then trimStart rest else s
  | EmptyString => EmptyString
  end.

Fixpoint trimEnd (s : string) : string :=
  match s with
  | EmptyString => EmptyString
  | String c rest =>
      match trimEnd rest with
      | EmptyString => if is_space c then EmptyString else String c EmptyString
      | rest' => String c rest'
      end
  end.

Definition trim (s : string) : string := trimEnd (trimStart s).

Definition digit_value (radix : Z) (c : ascii) : option Z :=
  let n := Z.of_nat (nat_of_ascii (lower c)) in
  let d := if (48 <=? n) && (n <=? 57) then Some (n - 48)
           else if (97 <=? n) && (n <=? 122) then Some (n - 87)
           else None in
  match d with
  | Some d => if d <? radix then Some d else None
  | None => None
  end.

(** The longest prefix of radix digits, read as a number. *)
Fixpoint digits_prefix (radix : Z) (acc : option Z) (s : string) : option Z :=
  match s with
  | EmptyString => acc
  | String c rest =>
      match digit_value radix c with
      | Some d => digits_prefix radix (Some (radix * default 0 acc + d)) rest
      | None => acc
      end
  end.

(** The Number value of an integer: the nearest double, a tie going to the
    even significand.  (From 2^1024 - 2^970 on the code has [Infinity], which
    the model's numbers do not cover.) *)
Definition to_double (n : Z) : Z :=
  let a := Z.abs n in
  let e := Z.log2 a in
  if e <? 53 then n
  else
    let ulp := 2 ^ (e - 52) in
    let q := a / ulp in
    let r := a mod ulp in
    let q' := if 2 * r <? ulp then q
              else if ulp <? 2 * r then q + 1
              else if Z.even q then q else q + 1 in
    Z.sgn n * (q' * ulp).

(** [parseInt(s)] without a radix argument; [None] is [NaN]. *)
Definition parseInt (s : string) : option Z :=
  let s := trimStart s in
  let '(sign, s) :=
    match s with
    | String "-" rest => (-1, rest)
    | String "+" rest => (1, rest)
    | _ => (1, s)
    end in
  let '(radix, s) :=
    match s with
    | String "0" (String x rest) =>
        if Ascii.eqb (lower x) "x" then (16, rest) else (10, s)
    | _ => (10, s)
    end in
  (fun n => sign * to_double n) <$> digits_prefix radix None s.

(** *** The pattern [/(\d{1,5})\s*steps?/gi] *)

(** [steps?] case-insensitively at the head of [s]: the matched text. *)
Definition match_steps (s : string) : option string :=
  match s with
  | String c1 (String c2 (String c3 (String c4 rest))) =>
      if String.eqb (String (lower c1) (String (lower c2)
                    (String (lower c3) (String (lower c4) EmptyString)))) "step"
      then match rest with
           | String c5 _ =>
               if Ascii.eqb (lower c5) "s"
               then Some (String c1 (String c2 (String c3 (String c4 (String c5 EmptyString)))))
               else Some (String c1 (String c2 (String c3 (String c4 EmptyString))))
           | EmptyString => Some (String c1 (String c2 (String c3 (String c4 EmptyString))))
           end
      else None
  | _ => None
  end.

(** [\s*steps?]: greedy on the white space, backtracking to fewer. *)
Fixpoint match_ws_steps (s : string) : option string :=
  match s with
  | String c rest =>
      if is_space c
      then match match_ws_steps rest with
           | Some m => Some (String c m)
           | None => match_steps s
           end
      else match_steps s
  | EmptyString => None
  end.

(** [\d{1,k}\s*steps?]: greedy on the digits, backtracking to fewer. *)
Fixpoint match_digits (k : nat) (s : string) : option string :=
  match k with
  | O => None
  | S k' =>
      match s with
      | String c rest =>
          if is_digit c
          then match match_digits k' rest with
               | Some m => Some (String c m)
               | None => String c <$> match_ws_steps rest
               end
          else None
      | EmptyString => None
      end
  end.

(** [text.match(re)] with the global flag: every match, left to right, the
    search resuming where the previous match ended; [skip] counts the
    characters of the current match still to pass. *)
Fixpoint match_all (skip : nat) (s : string) : list string :=
  match s with
  | EmptyString => []
  | String _ rest =>
      match skip with
      | S n => match_all n rest
      | O =>
          match match_digits 5 s with
          | Some m => m :: match_all (Nat.pred (String.length m)) rest
          | None => match_all O rest
          end
      end
  end.

(** [m.match(/\d+/)[0]]: the first maximal run of digits ([None]: the match
    is [null] and the index throws). *)
Fixpoint digit_run (s : string) : string :=
  match s with
  | String c rest => if is_digit c then String c (digit_run rest) else EmptyString
  | EmptyString => EmptyString
  end.

Fixpoint first_digits (s : string) : option string :=
  match s with
  | EmptyString => None
  | String c rest => if is_digit c then Some (digit_run s) else first_digits rest
  end.

End Str.

(** ** The clock *)

(** [Date.now()] and [new Date().toISOString()] as the host reports them. *)
Record Clock := { Date_now : Z; toISOString : string }.

(** [new Date().toISOString().split('T')[0]]: the UTC calendar date. *)
Definition today (clk : Clock) : string :=
  match Str.split "T" (toISOString clk) with
  | d :: _ => d
  | [] => EmptyString
  end.

(** ** Text normalisation: [parseHealthDataText] *)

Definition steps_entry (date : value) (steps : Z) : value :=
  VObj [("date", date); ("steps", VNum steps); ("type", VStr "steps")].

(** The [forEach] callback of the delimited branch: the entries pushed for
    one line. *)
Definition csv_line (index : nat) (line : string) : list value :=
  match index with
  | O => []                                   (* Skip header *)
  | _ =>
      let parts := Str.split "," line in
      if (2 <=? length parts)%nat
      then [steps_entry
              (VStr (Str.trim (nth 0 parts "")))
              (default 0 (Str.parseInt (Str.trim (nth 1 parts ""))))]
      else []
  end.

Definition parseHealthDataText (clk : Clock) (text : string) : list value :=
  let lines := Str.split "010" text in
  if Str.includes "," text
  then concat (imap csv_line lines)
  else
    omap (fun m =>
            digits ← Str.first_digits m;
            steps ← Str.parseInt digits;
            Some (steps_entry (VStr (today clk)) steps))
         (Str.match_all 0 text).

(** ** IndexedDB *)

Module IDB.

(** Keys are numbers and strings (date, binary and array keys are outside the
    model); every number sorts before every string. *)
Inductive key : Type := KNum (n : Z) | KStr (s : string).

Definition key_of (v : value) : option key :=
  match v with
  | VNum n => Some (KNum n)
  | VStr s => Some (KStr s)
  | _ => None
  end.

Definition key_value (k : key) : value :=
  match k with KNum n => VNum n | KStr s => VStr s end.

Definition key_compare (a b : key) : comparison :=
  match a, b with
  | KNum x, KNum y => x ?= y
  | KNum _, KStr _ => Lt
  | KStr _, KNum _ => Gt
  | KStr x, KStr y => String.compare x y
  end.

Definition key_leb (a b : key) : bool :=
  match key_compare a b with Gt => false | _ => true end.

Record Index := { index_name : string; index_keyPath : string; index_unique : bool }.

(** An object store: its records are kept in ascending key order, the order
    in which [getAll] reports them. *)
Record ObjectStore := {
  keyPath : string;
  autoIncrement : bool;
  indexes : list Index;
  keyGenerator : Z;
  records : list (key * value)
}.

Record Database := { version : Z; objectStores : gmap string ObjectStore }.

(** The database before it was ever opened. *)
Definition absent : Database := {| version := 0; objectStores := ∅ |}.

Definition createObjectStore (kp : string) (auto : bool) : ObjectStore :=
  {| keyPath := kp; autoIncrement := auto; indexes := [];
     keyGenerator := 1; records := [] |}.

Definition createIndex (name kp : string) (unique : bool) (st : ObjectStore)
  : ObjectStore :=
  {| keyPath := keyPath st; autoIncrement := autoIncrement st;
     indexes := indexes st ++ [{| index_name := name; index_keyPath := kp;
                                  index_unique := unique |}];
     keyGenerator := keyGenerator st; records := records st |}.

Fixpoint find_record (k : key) (rs : list (key * value)) : option value :=
  match rs with
  | [] => None
  | (k', v) :: rest =>
      match key_compare k k' with
      | Eq => Some v
      | _ => find_record k rest
      end
  end.

Fixpoint put_record (k : key) (v : value) (rs : list (key * value))
  : list (key * value) :=
  match rs with
  | [] => [(k, v)]
  | (k', v') :: rest =>
      match key_compare k k' with
      | Lt => (k, v) :: rs
      | Eq => (k, v) :: rest
      | Gt => (k', v') :: put_record k v rest
      end
  end.

(** The value of the key path in a record to be stored: [inr None] when the
    property is missing, [DataError] when it holds no valid key. *)
Definition extract_key (kp : string) (v : value) : error + option key :=
  match v with
  | VObj props =>
      match assoc kp props with
      | None | Some VUndefined => inr None
      | Some x => match key_of x with
                  | Some k => inr (Some k)
                  | None => inl DataError
                  end
      end
  | _ => inr None
  end.

(** Injecting a generated key: only an object or an array can take it (the
    named property an array would get is not represented). *)
Definition inject_key (kp : string) (k : key) (v : value) : error + value :=
  match v with
  | VObj props => inr (VObj (assoc_set kp (key_value k) props))
  | VArr _ => inr v
  | _ => inl DataError
  end.

Definition with_records (st : ObjectStore) (gen : Z) (rs : list (key * value))
  : ObjectStore :=
  {| keyPath := keyPath st; autoIncrement := autoIncrement st;
     indexes := indexes st; keyGenerator := gen; records := rs |}.

(** The largest number a key generator hands out: 2^53. *)
Definition MAX_KEY : Z := 9007199254740992.

(** The key generator after a record was stored under an explicit key: a
    numeric key, capped at 2^53, moves the generator past it. *)
Definition bump (st : ObjectStore) (k : key) : Z :=
  match k with
  | KNum n => if autoIncrement st && (keyGenerator st <=? Z.min n MAX_KEY)
              then Z.min n MAX_KEY + 1 else keyGenerator st
  | KStr _ => keyGenerator st
  end.

(** [store.add(v)] ([overwrite = false]) and [store.put(v)]
    ([overwrite = true]) on a store with an in-line key.  A key generator
    that has passed 2^53 generates no key: the request fails with a
    [ConstraintError]. *)
Definition store_record (overwrite : bool) (v : value) (st : ObjectStore)
  : error + (key * ObjectStore) :=
  match extract_key (keyPath st) v with
  | inl e => inl e
  | inr (Some k) =>
      if negb overwrite && bool_decide (is_Some (find_record k (records st)))
      then inl ConstraintError
      else inr (k, with_records st (bump st k) (put_record k v (records st)))
  | inr None =>
      if autoIncrement st
      then
        let k := KNum (keyGenerator st) in
        match inject_key (keyPath st) k v with
        | inl e => inl e
        | inr v' =>
            if MAX_KEY <? keyGenerator st then inl ConstraintError
            else if negb overwrite && bool_decide (is_Some (find_record k (records st)))
            then inl ConstraintError
            else inr (k, with_records st (keyGenerator st + 1)
                                      (put_record k v' (records st)))
        end
      else inl DataError
  end.

(** [store.getAll()]. *)
Definition getAll (st : ObjectStore) : list value := (records st).*2.

(** [IDBKeyRange.bound(lower, upper)]. *)
Definition bound (lower upper : value) : error + (key * key) :=
  match key_of lower, key_of upper with
  | Some lo, Some hi => if key_leb lo hi then inr (lo, hi) else inl DataError
  | _, _ => inl DataError
  end.

Definition index_key (kp : string) (v : value) : option key :=
  match v with
  | VObj props => assoc kp props ≫= key_of
  | _ => None
  end.

Fixpoint insert_by_index (ik : key) (v : value)
  (sorted : list (key * value)) : list (key * value) :=
  match sorted with
  | [] => [(ik, v)]
  | (ik', v') :: rest =>
      if key_leb ik' ik then (ik', v') :: insert_by_index ik v rest
      else (ik, v) :: sorted
  end.

(** [index.getAll(range)]: the records whose index key lies in the range, by
    index key and then by primary key. *)
Definition index_getAll (kp : string) (range : key * key) (st : ObjectStore)
  : list value :=
  (foldl (fun acc kv =>
            match index_key kp kv.2 with
            | Some ik =>
                if key_leb range.1 ik && key_leb ik range.2
                then insert_by_index ik kv.2 acc else acc
            | None => acc
            end) [] (records st)).*2.

End IDB.

(** ** Requests, responses and the worker's world *)

(** A response body is plain text or [JSON.stringify v]. *)
Inductive Payload : Type := Text (s : string) | Json (v : value).

Record Response := {
  status : Z;
  headers : list (string * string);
  body : Payload
}.

Inductive FormEntry : Type := Field (s : string) | File (contents : string).

Inductive RequestBody : Type :=
| Raw (text : string)
| Form (entries : list (string * FormEntry)).

Record Request := {
  method : string;
  url : string;
  requestBody : RequestBody
}.

(** The parts of [new URL(href)] the worker reads. *)
Record URL := {
  pathname : string;
  searchParams : list (string * string)
}.

(** What the host decides: the time, the outcome of a live fetch (a
    rejection is [inl]), the URL parser and [JSON.parse]. *)
Record Host := {
  clock : Clock;
  fetch : Request → error + Response;
  new_URL : string → URL;
  JSON_parse : string → error + value
}.

Record World := {
  database : IDB.Database;
  caches : gmap string (gmap string Response);
  clients : list nat;
  posted : list (nat * value);        (* client.postMessage, oldest first *)
  replies : list value;               (* event.ports[0].postMessage *)
  syncs : list value;                 (* registration.sync.register *)
  timers : list (value * value)       (* setTimeout: delay, notification *)
}.

Definition set_database (d : IDB.Database) (w : World) : World :=
  {| database := d; caches := caches w; clients := clients w;
     posted := posted w; replies := replies w; syncs := syncs w;
     timers := timers w |}.

Definition set_caches (c : gmap string (gmap string Response)) (w : World) : World :=
  {| database := database w; caches := c; clients := clients w;
     posted := posted w; replies := replies w; syncs := syncs w;
     timers := timers w |}.

Definition set_clients (c : list nat) (w : World) : World :=
  {| database := database w; caches := caches w; clients := c;
     posted := posted w; replies := replies w; syncs := syncs w;
     timers := timers w |}.

Definition set_posted (p : list (nat * value)) (w : World) : World :=
  {| database := database w; caches := caches w; clients := clients w;
     posted := p; replies := replies w; syncs := syncs w;
     timers := timers w |}.

Definition set_replies (r : list value) (w : World) : World :=
  {| database := database w; caches := caches w; clients := clients w;
     posted := posted w; replies := r; syncs := syncs w;
     timers := timers w |}.

Definition set_syncs (s : list value) (w : World) : World :=
  {| database := database w; caches := caches w; clients := clients w;
     posted := posted w; replies := replies w; syncs := s;
     timers := timers w |}.

Definition set_timers (t : list (value * value)) (w : World) : World :=
  {| database := database w; caches := caches w; clients := clients w;
     posted := posted w; replies := replies w; syncs := syncs w;
     timers := t |}.

(** ** The monad of the worker's functions

    An [async] function reads the host, changes the world and either returns
    or throws (a rejected promise); [await] is sequencing, so a handler runs
    to completion before the next event is served. *)

Definition M (A : Type) : Type := Host → World → (error + A) * World.

#[global] Instance M_ret : MRet M := λ A a _ w, (inr a, w).

#[global] Instance M_bind : MBind M := λ A B f m h w,
  match m h w with
  | (inr a, w') => f a h w'
  | (inl e, w') => (inl e, w')
  end.

#[global] Instance M_fmap : FMap M := λ A B f m h w,
  match m h w with
  | (inr a, w') => (inr (f a), w')
  | (inl e, w') => (inl e, w')
  end.

Definition throw {A} (e : error) : M A := λ _ w, (inl e, w).

Definition lift {A} (r : error + A) : M A := λ _ w, (r, w).

Definition ask : M Host := λ h w, (inr h, w).

Definition gets {A} (f : World → A) : M A := λ _ w, (inr (f w), w).

Definition modify (f : World → World) : M unit := λ _ w, (inr (), f w).

(** [try { body } catch (error) { handler }]: every JavaScript error is
    caught; a step outside the model is not an error of the program and
    passes through. *)
Definition try_catch {A} (body : M A) (handler : error → M A) : M A := λ h w,
  match body h w with
  | (inl (Unmodelled what), w') => (inl (Unmodelled what), w')
  | (inl e, w') => handler e h w'
  | (inr a, w') => (inr a, w')
  end.

(** A promise nobody awaits: its rejection is reported by the host and lost. *)
Definition detached {A} (m : M A) : M unit :=
  try_catch (m ;; mret ()) (λ _, mret ()).

(** [for (const x of xs) { ... }] where the body may change [x]: the elements
    after the loop. *)
Fixpoint for_of {A} (xs : list A) (f : A → M A) : M (list A) :=
  match xs with
  | [] => mret []
  | x :: rest => x' ← f x; rest' ← for_of rest f; mret (x' :: rest')
  end.

Definition run {A} (m : M A) (h : Host) (w : World) : World := (m h w).2.

Definition result {A} (m : M A) (h : Host) (w : World) : error + A := (m h w).1.

(** [self.clients.matchAll()] and [client.postMessage(msg)] for each client. *)
Definition broadcast (msg : value) : M unit :=
  modify (λ w, set_posted (posted w ++ ((λ c, (c, msg)) <$> clients w)) w).

(** ** The worker: constants *)

Definition CACHE_NAME : string := "quest-tracker-v3".
Definition DATA_CACHE_NAME : string := "quest-data-v2".
Definition HEALTH_CACHE_NAME : string := "health-data-v1".

Definition FILES_TO_CACHE : list string :=
  [ "./"; "./index.html"; "./manifest.json";
    "https://cdn.tailwindcss.com/3.4.17";
    "https://sdk.scdn.co/spotify-player.js" ].

Definition DB_NAME : string := "QuestTrackerHealthDB".
Definition DB_VERSION : Z := 1.

Module STORES.

Definition STEPS : string := "steps".
Definition HEALTH_DATA : string := "healthData".
Definition QUESTS : string := "quests".
Definition HABITS : string := "habits".
Definition ACHIEVEMENTS : string := "achievements".

(** [Object.values(STORES)]. *)
Definition values : list string :=
  [STEPS; HEALTH_DATA; QUESTS; HABITS; ACHIEVEMENTS].

Definition object : value :=
  VObj [("STEPS", VStr STEPS); ("HEALTH_DATA", VStr HEALTH_DATA);
        ("QUESTS", VStr QUESTS); ("HABITS", VStr HABITS);
        ("ACHIEVEMENTS", VStr ACHIEVEMENTS)].

End STORES.

(** The [const] bindings at the top level of the script, where a function
    body looks up an identifier that is none of its parameters and locals
    (the functions themselves are not values of the model). *)
Definition moduleScope : list (string * value) :=
  [ ("CACHE_NAME", VStr CACHE_NAME);
    ("DATA_CACHE_NAME", VStr DATA_CACHE_NAME);
    ("HEALTH_CACHE_NAME", VStr HEALTH_CACHE_NAME);
    ("FILES_TO_CACHE", VArr (VStr <$> FILES_TO_CACHE));
    ("DB_NAME", VStr DB_NAME);
    ("DB_VERSION", VNum DB_VERSION);
    ("STORES", STORES.object) ].

Definition resolve (scope : list (string * value)) (name : string) : error + value :=
  match assoc name scope with
  | Some v => inr v
  | None => inl (ReferenceError (name +:+ " is not defined"))
  end.

(** ** The persistent store *)

(** The callback of [Object.values(STORES).forEach] in [onupgradeneeded]. *)
Definition upgrade_store (stores : gmap string IDB.ObjectStore) (storeName : string)
  : gmap string IDB.ObjectStore :=
  if bool_decide (is_Some (stores !! storeName)) then stores
  else
    let store := IDB.createObjectStore "id" true in
    let store :=
      if String.eqb storeName STORES.STEPS then
        IDB.createIndex "timestamp" "timestamp" false
          (IDB.createIndex "date" "date" false store)
      else if String.eqb storeName STORES.HEALTH_DATA then
        IDB.createIndex "date" "date" false
          (IDB.createIndex "type" "type" false store)
      else if String.eqb storeName STORES.QUESTS then
        IDB.createIndex "status" "status" false
          (IDB.createIndex "category" "category" false store)
      else store in
    <[storeName := store]> stores.

Definition onupgradeneeded (stores : gmap string IDB.ObjectStore)
  : gmap string IDB.ObjectStore :=
  foldl upgrade_store stores STORES.values.

(** [indexedDB.open(DB_NAME, DB_VERSION)]: an older (or absent) database is
    upgraded, a newer one refuses to open. *)
Definition open (d : IDB.Database) : error + IDB.Database :=
  if IDB.version d <? DB_VERSION then
    inr {| IDB.version := DB_VERSION;
           IDB.objectStores := onupgradeneeded (IDB.objectStores d) |}
  else if DB_VERSION <? IDB.version d then inl VersionError
  else inr d.

(** [initDB()]: the connection it resolves to is the world's database. *)
Definition initDB : M unit := λ _ w,
  match open (database w) with
  | inr d => (inr (), set_database d w)
  | inl e => (inl e, w)
  end.

(** [db.transaction([storeName], mode).objectStore(storeName)]. *)
Definition objectStore (storeName : string) : M IDB.ObjectStore := λ _ w,
  match IDB.objectStores (database w) !! storeName with
  | Some st => (inr st, w)
  | None => (inl NotFoundError, w)
  end.

(** The transaction commits the store it changed. *)
Definition commit (storeName : string) (st : IDB.ObjectStore) : M unit :=
  modify (λ w, set_database
    {| IDB.version := IDB.version (database w);
       IDB.objectStores := <[storeName := st]> (IDB.objectStores (database w)) |} w).

Definition Date_dot_now : M value := λ h w, (inr (VNum (Date_now (clock h))), w).

(** [saveToStore(storeName, data)]: the key the request resolves to, and the
    caller's [data] object as the call leaves it. *)
Definition saveToStore (storeName : string) (data : value) : M (value * value) :=
  initDB ;;
  store ← objectStore storeName;
  timestamp ← lift (get data "timestamp");
  data ← (if negb (truthy timestamp)
          then now ← Date_dot_now; lift (set data "timestamp" now)
          else mret data);
  '(k, store') ← lift (IDB.store_record false data store);
  commit storeName store' ;;
  mret (IDB.key_value k, data).

Definition updateInStore (storeName : string) (data : value) : M (value * value) :=
  initDB ;;
  store ← objectStore storeName;
  now ← Date_dot_now;
  data ← lift (set data "updatedAt" now);
  '(k, store') ← lift (IDB.store_record true data store);
  commit storeName store' ;;
  mret (IDB.key_value k, data).

Definition getFromStore (storeName : string) (id : value) : M value :=
  initDB ;;
  store ← objectStore storeName;
  match IDB.key_of id with
  | Some k => mret (default VUndefined (IDB.find_record k (IDB.records store)))
  | None => throw DataError
  end.

Definition getAllFromStore (storeName : string) : M (list value) :=
  initDB ;;
  store ← objectStore storeName;
  mret (IDB.getAll store).

(** [getStepsByDateRange(startDate, endDate)], its free identifiers looked up
    in [scope].  The transaction is over [[STORES.STEPS]]; the store it then
    asks for is whatever [storeName] denotes. *)
Definition getStepsByDateRange_in (scope : list (string * value))
    (startDate endDate : value) : M (list value) :=
  initDB ;;
  _ ← objectStore STORES.STEPS;
  storeName ← lift (resolve (("startDate", startDate) :: ("endDate", endDate) :: scope)
                            "storeName");
  store ← match storeName with
          | VStr name => if String.eqb name STORES.STEPS then objectStore name
                         else throw NotFoundError
          | _ => throw (Unmodelled "objectStore of a non-string")
          end;
  index ← match filter (λ i, IDB.index_name i = "date") (IDB.indexes store) with
          | i :: _ => mret i
          | [] => throw NotFoundError
          end;
  range ← lift (IDB.bound startDate endDate);
  mret (IDB.index_getAll (IDB.index_keyPath index) range store).

Definition getStepsByDateRange : value → value → M (list value) :=
  getStepsByDateRange_in moduleScope.

(** ** Arithmetic on values *)

(** [ToNumber] on the primitives the model's numbers cover. *)
Definition ToNumber (v : value) : error + value :=
  match v with
  | VNum n => inr (VNum n)
  | VNaN | VUndefined => inr VNaN
  | VNull => inr (VNum 0)
  | VBool b => inr (VNum (if b then 1 else 0))
  | VStr _ | VArr _ | VObj _ => inl (Unmodelled "ToNumber of a string or an object")
  end.

Definition arith (f : Z → Z → value) (a b : value) : error + value :=
  match ToNumber a, ToNumber b with
  | inl e, _ | _, inl e => inl e
  | inr (VNum x), inr (VNum y) => inr (f x y)
  | inr _, inr _ => inr VNaN
  end.

(** [a + b] (a string operand means concatenation, which is not modelled). *)
Definition add (a b : value) : error + value := arith (λ x y, VNum (x + y)) a b.

(** [Math.min(a, b)]. *)
Definition Math_min (a b : value) : error + value := arith (λ x y, VNum (Z.min x y)) a b.

(** [a >= b], false when an operand is [NaN]. *)
Definition ge (a b : value) : error + value :=
  match arith (λ x y, VBool (y <=? x)) a b with
  | inr VNaN => inr (VBool false)
  | r => r
  end.

(** [entries.reduce((sum, entry) => sum + entry.steps, 0)]. *)
Fixpoint sum_steps (sum : value) (entries : list value) : error + value :=
  match entries with
  | [] => inr sum
  | entry :: rest =>
      match get entry "steps" with
      | inl e => inl e
      | inr steps =>
          match add sum steps with
          | inl e => inl e
          | inr sum' => sum_steps sum' rest
          end
      end
  end.

(** ** Quest reconciliation: [updateQuestProgress] *)

(** The inner [if] of the loop body: the quest as it leaves it, and the
    [updated] flag. *)
Definition applyStepTarget (totalStepsToday quest : value) : error + (bool * value) :=
  match get quest "target" with
  | inl e => inl e
  | inr target =>
      let cond := if truthy target then get target "steps" else inr target in
      match cond with
      | inl e => inl e
      | inr c =>
          if truthy c then
            match Math_min totalStepsToday c with
            | inl e => inl e
            | inr progress =>
                match set quest "progress" progress with
                | inl e => inl e
                | inr quest1 =>
                    match ge progress c with
                    | inl e => inl e
                    | inr completed =>
                        match set quest1 "completed" completed with
                        | inl e => inl e
                        | inr quest2 => inr (true, quest2)
                        end
                    end
                end
            end
          else inr (false, quest)
      end
  end.

(** The filter in front of it: [category === 'fitness' || type === 'steps']. *)
Definition isStepQuest (quest : value) : error + bool :=
  match get quest "category", get quest "type" with
  | inr category, inr type =>
      inr (strict_eq_str category "fitness" || strict_eq_str type "steps")
  | inl e, _ | _, inl e => inl e
  end.

(** One turn of [for (const quest of quests)]. *)
Definition reconcileQuest (totalStepsToday quest : value) : M value :=
  selected ← lift (isStepQuest quest);
  if selected : bool then
    '(updated, quest) ← lift (applyStepTarget totalStepsToday quest);
    if updated : bool then
      '(_, quest) ← updateInStore STORES.QUESTS quest;
      mret quest
    else mret quest
  else mret quest.

Definition QUEST_PROGRESS_UPDATED (totalStepsToday : value) (quests : list value) : value :=
  VObj [("type", VStr "QUEST_PROGRESS_UPDATED");
        ("data", VObj [("totalStepsToday", totalStepsToday);
                       ("updatedQuests",
                        VArr (List.filter
                                (λ q, match get q "category" with
                                      | inr c => strict_eq_str c "fitness"
                                      | inl _ => false
                                      end) quests))])].

Definition updateQuestProgress_in (scope : list (string * value)) : M unit :=
  try_catch
    (quests ← getAllFromStore STORES.QUESTS;
     h ← ask;
     let today := VStr (today (clock h)) in
     todaySteps ← getStepsByDateRange_in scope today today;
     totalStepsToday ← lift (sum_steps (VNum 0) todaySteps);
     quests ← for_of quests (reconcileQuest totalStepsToday);
     broadcast (QUEST_PROGRESS_UPDATED totalStepsToday quests))
    (λ _, mret ()).

Definition updateQuestProgress : M unit := updateQuestProgress_in moduleScope.

(** The script with the range query's [storeName] bound to the steps store. *)
Definition repairedScope : list (string * value) :=
  ("storeName", VStr STORES.STEPS) :: moduleScope.

(** ** Ingestion: [processHealthData] *)

(** [item.type === 'steps' || item.steps !== undefined]. *)
Definition isStepsItem (item : value) : error + bool :=
  match get item "type", get item "steps" with
  | inr type, inr steps => inr (strict_eq_str type "steps" || negb (is_undefined steps))
  | inl e, _ | _, inl e => inl e
  end.

(** The object literal handed to [saveToStore(STORES.STEPS, ...)]. *)
Definition stepsRecord (clk : Clock) (item : value) : error + value :=
  match get item "date", get item "steps", get item "value",
        get item "source", get item "metadata" with
  | inr date, inr steps, inr val, inr source, inr metadata =>
      inr (VObj [("date", or_else date (VStr (today clk)));
                 ("steps", or_else (or_else steps val) (VNum 0));
                 ("source", or_else source (VStr "shared"));
                 ("metadata", or_else metadata (VObj []))])
  | inl e, _, _, _, _ | _, inl e, _, _, _ | _, _, inl e, _, _
  | _, _, _, inl e, _ | _, _, _, _, inl e => inl e
  end.

(** One turn of [for (const item of healthData)]: the item as the turn
    leaves it. *)
Definition processItem (item : value) : M value :=
  steps ← lift (isStepsItem item);
  if steps : bool then
    h ← ask;
    record ← lift (stepsRecord (clock h) item);
    saveToStore STORES.STEPS record ;;
    mret item
  else
    '(_, item) ← saveToStore STORES.HEALTH_DATA item;
    mret item.

(** [processHealthData(healthData)]: the payload as an array, its elements as
    the loop leaves them. *)
Definition processHealthData (healthData : value) : M (list value) :=
  let healthData := match healthData with
                    | VArr items => items
                    | _ => [healthData]
                    end in
  items ← for_of healthData processItem;
  updateQuestProgress ;;
  mret items.

(** ** The share target: [handleSharedData] *)

(** [formData.get(name)]: the first entry of that name, or [null]. *)
Fixpoint formData_get (name : string) (entries : list (string * FormEntry))
  : option FormEntry :=
  match entries with
  | [] => None
  | (n, e) :: rest => if String.eqb n name then Some e else formData_get name rest
  end.

Definition formData (request : Request) : M (list (string * FormEntry)) :=
  match requestBody request with
  | Form entries => mret entries
  | Raw _ => throw (TypeError "Failed to parse body as FormData")
  end.

(** [try { JSON.parse(s) } catch (e) { parseHealthDataText(s) }]. *)
Definition parseShared (s : string) : M value :=
  h ← ask;
  match JSON_parse h s with
  | inr v => mret v
  | inl _ => mret (VArr (parseHealthDataText (clock h) s))
  end.

(** The [else if (text)] branch; [healthData] stays [null] without a text. *)
Definition fromText (text : option FormEntry) : M value :=
  match text with
  | Some (Field t) => if negb (String.eqb t "") then parseShared t else mret VNull
  | Some (File _) => throw (TypeError "text.split is not a function")
  | None => mret VNull
  end.

Definition HEALTH_DATA_RECEIVED (healthData : value) : value :=
  VObj [("type", VStr "HEALTH_DATA_RECEIVED"); ("data", healthData)].

Definition redirect (location : string) (code : Z) : Response :=
  {| status := code; headers := [("Location", location)]; body := Text "" |}.

Definition handleSharedData (request : Request) : M Response :=
  try_catch
    (form ← formData request;
     let text := formData_get "text" form in
     let healthDataFile := formData_get "healthData" form in
     healthData ←
       match healthDataFile with
       | Some (File fileText) => parseShared fileText
       | Some (Field s) =>
           if negb (String.eqb s "")
           then throw (TypeError "healthDataFile.text is not a function")
           else fromText text
       | None => fromText text
       end;
     (if truthy healthData then
        items ← processHealthData healthData;
        broadcast (HEALTH_DATA_RECEIVED
                     (match healthData with
                      | VArr _ => VArr items
                      | _ => default healthData (head items)
                      end))
      else mret ()) ;;
     mret (redirect "/" 302))
    (λ _, mret {| status := 500; headers := []; body := Text "Error processing health data" |}).

(** ** The health API: [handleHealthAPI] *)

Definition json_response (v : value) : Response :=
  {| status := 200; headers := [("Content-Type", "application/json")]; body := Json v |}.

Fixpoint searchParams_get (name : string) (params : list (string * string)) : option string :=
  match params with
  | [] => None
  | (n, v) :: rest => if String.eqb n name then Some v else searchParams_get name rest
  end.

(** [request.json()]. *)
Definition json (request : Request) : M value :=
  h ← ask;
  match requestBody request with
  | Raw text => lift (JSON_parse h text)
  | Form _ => throw (SyntaxError "Unexpected token in JSON")
  end.

Definition message (e : error) : value :=
  match e with
  | ReferenceError msg | TypeError msg | SyntaxError msg | Unmodelled msg => VStr msg
  | DataError => VStr "DataError"
  | ConstraintError => VStr "ConstraintError"
  | NotFoundError => VStr "NotFoundError"
  | VersionError => VStr "VersionError"
  | NetworkError => VStr "Failed to fetch"
  end.

Definition not_found : Response :=
  {| status := 404; headers := []; body := Text "Not Found" |}.

Definition nonempty (o : option string) : bool :=
  match o with Some s => negb (String.eqb s "") | None => false end.

Definition handleHealthAPI (request : Request) : M Response :=
  h ← ask;
  let u := new_URL h (url request) in
  try_catch
    (if String.eqb (method request) "GET" then
       if Str.includes "/steps" (pathname u) then
         let startDate := searchParams_get "startDate" (searchParams u) in
         let endDate := searchParams_get "endDate" (searchParams u) in
         stepsData ←
           (if nonempty startDate && nonempty endDate
            then getStepsByDateRange (VStr (default "" startDate)) (VStr (default "" endDate))
            else getAllFromStore STORES.STEPS);
         mret (json_response (VArr stepsData))
       else if Str.includes "/health" (pathname u) then
         healthData ← getAllFromStore STORES.HEALTH_DATA;
         mret (json_response (VArr healthData))
       else mret not_found
     else if String.eqb (method request) "POST" then
       data ← json request;
       if Str.includes "/steps" (pathname u) then
         saveToStore STORES.STEPS data ;;
         mret (json_response (VObj [("success", VBool true)]))
       else if Str.includes "/health" (pathname u) then
         saveToStore STORES.HEALTH_DATA data ;;
         mret (json_response (VObj [("success", VBool true)]))
       else mret not_found
     else mret not_found)
    (λ error,
       mret {| status := 500; headers := [("Content-Type", "application/json")];
               body := Json (VObj [("error", message error)]) |}).

(** ** The Cache storage *)

(** [caches.open(name)] creates the cache when there is none. *)
Definition caches_open (name : string) : M unit :=
  modify (λ w, match caches w !! name with
               | Some _ => w
               | None => set_caches (<[name := ∅]> (caches w)) w
               end).

(** [cache.put(url, response)] on the cache called [name]: the entry is filed
    under a [GET] request for [url]. *)
Definition cache_put (name url : string) (response : Response) : M unit :=
  modify (λ w, set_caches
    (<[name := <[url := response]> (default ∅ (caches w !! name))]> (caches w)) w).

(** [cache.match(request)] without options: the Cache interface answers a
    request whose method is not [GET] with no match at all (the method is
    only disregarded under [ignoreMethod: true]); a [GET] request is matched
    by its URL ([Vary] headers and URL fragments are not modelled). *)
Definition cache_match (name : string) (request : Request) : M (option Response) :=
  gets (λ w, if String.eqb (method request) "GET"
             then default ∅ (caches w !! name) !! url request
             else None).

Definition caches_delete (key : string) : M unit :=
  modify (λ w, set_caches (delete key (caches w)) w).

(** [Promise.all(xs.map(f))]. *)
Fixpoint Promise_all_map {A} (xs : list A) (f : A → M unit) : M unit :=
  match xs with
  | [] => mret ()
  | x :: rest => f x ;; Promise_all_map rest f
  end.

(** ** Lifecycle: the [activate] handler *)

Definition isCurrentCache (key : string) : bool :=
  String.eqb key CACHE_NAME || String.eqb key DATA_CACHE_NAME
  || String.eqb key HEALTH_CACHE_NAME.

Definition onActivate : M unit :=
  keyList ← gets (λ w, elements (dom (caches w)));
  Promise_all_map keyList
    (λ key, if negb (isCurrentCache key) then caches_delete key else mret ()).

(** ** The router: the [fetch] handler *)

(** What [event.respondWith] settles to ([None] is [undefined]). *)
Definition onFetch (request : Request) : M (option Response) :=
  h ← ask;
  let u := new_URL h (url request) in
  if String.eqb (pathname u) "/share-data" && String.eqb (method request) "POST"
  then Some <$> handleSharedData request
  else if Str.includes "/api/health" (pathname u)
          || Str.includes "/api/steps" (pathname u)
  then Some <$> handleHealthAPI request
  else if Str.includes "/api/" (url request)
  then
    caches_open DATA_CACHE_NAME ;;
    match fetch h request with
    | inr response =>
        (if status response =? 200
         then cache_put DATA_CACHE_NAME (url request) response
         else mret ()) ;;
        mret (Some response)
    | inl _ => cache_match DATA_CACHE_NAME request
    end
  else
    caches_open CACHE_NAME ;;
    response ← cache_match CACHE_NAME request;
    match response with
    | Some r => mret (Some r)
    | None => Some <$> lift (fetch h request)
    end.

(** ** Deferred work and control messages *)

Definition BACKGROUND_SYNC_COMPLETE (type : string) : value :=
  VObj [("type", VStr "BACKGROUND_SYNC_COMPLETE");
        ("data", VObj [("type", VStr type); ("success", VBool true)])].

Definition syncQuests : M unit :=
  try_catch (updateQuestProgress ;; broadcast (BACKGROUND_SYNC_COMPLETE "quests"))
            (λ _, mret ()).

Definition syncHabits : M unit :=
  try_catch (broadcast (BACKGROUND_SYNC_COMPLETE "habits")) (λ _, mret ()).

Definition syncHealthData : M unit :=
  try_catch (updateQuestProgress ;; broadcast (BACKGROUND_SYNC_COMPLETE "health"))
            (λ _, mret ()).

Definition checkDailyQuests : M unit :=
  try_catch
    (updateQuestProgress ;;
     now ← Date_dot_now;
     broadcast (VObj [("type", VStr "DAILY_QUEST_CHECK");
                      ("data", VObj [("timestamp", now)])]))
    (λ _, mret ()).

(** The [sync] handler. *)
Definition onSync (tag : string) : M unit :=
  if String.eqb tag "background-sync-quests" then syncQuests
  else if String.eqb tag "background-sync-habits" then syncHabits
  else if String.eqb tag "background-sync-health" then syncHealthData
  else if String.eqb tag "update-quest-progress" then updateQuestProgress
  else mret ().

(** The [periodicsync] handler. *)
Definition onPeriodicSync (tag : string) : M unit :=
  if String.eqb tag "daily-quest-check" then checkDailyQuests
  else if String.eqb tag "health-data-sync" then syncHealthData
  else mret ().

(** [scheduleNotification(notificationData)]: the timer it sets. *)
Definition scheduleNotification (notificationData : value) : M unit :=
  delay ← lift (get notificationData "delay");
  modify (λ w, set_timers (timers w ++ [(or_else delay (VNum 1000), notificationData)]) w).

(** The [message] handler on [event.data]; none of the promises it starts is
    awaited.  ([SKIP_WAITING] only concerns the worker's own lifecycle.) *)
Definition onMessage (data : value) : M unit :=
  detached
    (type ← (if truthy data then lift (get data "type") else mret data);
     if truthy type then
       payload ← lift (get data "data");
       if strict_eq_str type "SKIP_WAITING" then mret ()
       else if strict_eq_str type "SAVE_STEPS_DATA" then
         saveToStore STORES.STEPS payload ;; updateQuestProgress
       else if strict_eq_str type "SAVE_HEALTH_DATA" then
         saveToStore STORES.HEALTH_DATA payload ;; mret ()
       else if strict_eq_str type "SAVE_QUEST_DATA" then
         saveToStore STORES.QUESTS payload ;; mret ()
       else if strict_eq_str type "GET_STEPS_DATA" then
         data ← getAllFromStore STORES.STEPS;
         modify (λ w, set_replies (replies w ++ [VObj [("data", VArr data)]]) w)
       else if strict_eq_str type "GET_QUEST_DATA" then
         data ← getAllFromStore STORES.QUESTS;
         modify (λ w, set_replies (replies w ++ [VObj [("data", VArr data)]]) w)
       else if strict_eq_str type "SYNC_REQUEST" then
         tag ← lift (get data "tag");
         modify (λ w, set_syncs (syncs w ++ [tag]) w)
       else if strict_eq_str type "SCHEDULE_NOTIFICATION" then
         notification ← lift (get data "notification");
         scheduleNotification notification
       else if strict_eq_str type "UPDATE_QUEST_PROGRESS" then updateQuestProgress
       else mret ()
     else mret ()).

(** ** Events and reachable worlds *)

(** The events that reach the store (the [install], [push] and notification
    handlers write no record). *)
Inductive event : Type :=
| Fetch (request : Request)
| Message (data : value)
| Sync (tag : string)
| PeriodicSync (tag : string)
| Activate.

Definition handle (e : event) : M unit :=
  match e with
  | Fetch request => detached (onFetch request)
  | Message data => onMessage data
  | Sync tag => detached (onSync tag)
  | PeriodicSync tag => detached (onPeriodicSync tag)
  | Activate => detached onActivate
  end.

(** The world of a freshly registered worker. *)
Definition initial : World :=
  {| database := IDB.absent; caches := ∅; clients := []; posted := [];
     replies := []; syncs := []; timers := [] |}.

(** The worlds the worker gets to: application windows come under its
    control, and events are handled one after the other, each under the host
    of its moment. *)
Inductive reachable : World → Prop :=
| reachable_initial : reachable initial
| reachable_client w c :
    reachable w → reachable (set_clients (clients w ++ [c]) w)
| reachable_step w h e : reachable w → reachable (run (handle e) h w).

(** The records of a collection ([[]] while the store does not exist). *)
Definition collection (storeName : string) (w : World) : list value :=
  match IDB.objectStores (database w) !! storeName with
  | Some st => IDB.getAll st
  | None => []
  end.

(** * Specification vocabulary *)

(** The world once the database connection is open. *)
Definition opened (w : World) : World :=
  match open (database w) with
  | inr d => set_database d w
  | inl _ => w
  end.

(** [quest.target.steps] when it is a number. *)
Definition stepTarget (quest : value) : option Z :=
  match get quest "target" with
  | inr target => match get target "steps" with
                  | inr (VNum n) => Some n
                  | _ => None
                  end
  | inl _ => None
  end.

(** The bound of the data model on a quest with a numeric step target:
    [progress] is a number not above it, and [completed] is [true] exactly
    when [progress] reaches it.  A quest without such a target passes. *)
Definition withinTarget (quest : value) : bool :=
  match stepTarget quest with
  | Some n =>
      match get quest "progress", get quest "completed" with
      | inr (VNum p), inr c =>
          (p <=? n) && Bool.eqb (match c with VBool true => true | _ => false end) (n <=? p)
      | _, _ => false
      end
  | None => true
  end.

Definition emptyStore (ixs : list (string * string)) : IDB.ObjectStore :=
  {| IDB.keyPath := "id"; IDB.autoIncrement := true;
     IDB.indexes := (λ i, {| IDB.index_name := i.1; IDB.index_keyPath := i.2;
                             IDB.index_unique := false |}) <$> ixs;
     IDB.keyGenerator := 1; IDB.records := [] |}.

(** The caches after the handler went through [keys]. *)
Definition evict (c : gmap string (gmap string Response)) (keys : list string)
  : gmap string (gmap string Response) :=
  foldl (λ c key, if isCurrentCache key then c else delete key c) c keys.

(** The copy the data cache holds for a URL. *)
Definition storedCopy (url : string) (w : World) : option Response :=
  caches w !! DATA_CACHE_NAME ≫= λ cache, cache !! url.

(** A store ready to take a new record: keyed by a generated [id], with a
    key generator that has not passed 2^53 and whose next key no record has
    yet. *)
Definition fresh (st : IDB.ObjectStore) : Prop :=
  IDB.keyPath st = "id"
  ∧ IDB.autoIncrement st = true
  ∧ IDB.keyGenerator st ≤ IDB.MAX_KEY
  ∧ IDB.find_record (IDB.KNum (IDB.keyGenerator st)) (IDB.records st) = None.

(** The [timestamp] an insert adds to a record that has none. *)
Definition stamped (now : Z) (props : list (string * value)) : list (string * value) :=
  if truthy (default VUndefined (assoc "timestamp" props)) then props
  else assoc_set "timestamp" (VNum now) props.

(** The store with one more record, under the key it generates. *)
Definition appended (st : IDB.ObjectStore) (props : list (string * value))
  : IDB.ObjectStore :=
  IDB.with_records st (IDB.keyGenerator st + 1)
    (IDB.put_record (IDB.KNum (IDB.keyGenerator st))
       (VObj (assoc_set "id" (VNum (IDB.keyGenerator st)) props))
       (IDB.records st)).

(** Today's local calendar date, in the spec's words, for a host whose
    [getTimezoneOffset()] is [timezoneOffset] minutes: [civil] is the
    Gregorian date of a day count from 1970-01-01, [calendarDate] writes it
    as [YYYY-MM-DD] (for the years 0 to 9999). *)
Definition civil (days : Z) : Z * Z * Z :=
  let z := days + 719468 in
  let era := z / 146097 in
  let doe := z - era * 146097 in
  let yoe := (doe - doe / 1460 + doe / 36524 - doe / 146096) / 365 in
  let doy := doe - (365 * yoe + yoe / 4 - yoe / 100) in
  let mp := (5 * doy + 2) / 153 in
  let d := doy - (153 * mp + 2) / 5 + 1 in
  let m := if mp <? 10 then mp + 3 else mp - 9 in
  (yoe + era * 400 + (if m <=? 2 then 1 else 0), m, d).

Definition decimal (n : Z) : ascii := ascii_of_nat (48 + Z.to_nat (n mod 10)).

Definition calendarDate (ms : Z) : string :=
  let '(y, m, d) := civil (ms / 86400000) in
  String (decimal (y / 1000)) (String (decimal (y / 100)) (String (decimal (y / 10))
    (String (decimal y) (String "-" (String (decimal (m / 10)) (String (decimal m)
      (String "-" (String (decimal (d / 10)) (String (decimal d) EmptyString))))))))).

Definition localDate (timezoneOffset : Z) (clk : Clock) : string :=
  calendarDate (Date_now clk - timezoneOffset * 60000).

(** [m] takes every world to one that [R] relates it to. *)
Definition moves {A} (R : World → World → Prop) (m : M A) : Prop :=
  ∀ h w, R w (m h w).2.

(** Every record of [d] is still in [d'], under the same key of the same
    store. *)
Definition kept (d d' : IDB.Database) : Prop :=
  ∀ name st k v,
    IDB.objectStores d !! name = Some st →
    IDB.find_record k (IDB.records st) = Some v →
    ∃ st', IDB.objectStores d' !! name = Some st'
           ∧ IDB.find_record k (IDB.records st') = Some v.

Definition keeps (w w' : World) : Prop := kept (database w) (database w').

(** Strictly ascending keys, looking at neighbours. *)
Definition before (k : IDB.key) (rs : list (IDB.key * value)) : Prop :=
  match rs with
  | [] => True
  | (k', _) :: _ => IDB.key_compare k k' = Lt
  end.

Fixpoint ascending (rs : list (IDB.key * value)) : Prop :=
  match rs with
  | [] => True
  | (k, _) :: rest => before k rest ∧ ascending rest
  end.

(** A record of a store whose key generator stands at [gen]: a numeric key,
    capped at 2^53, is below the generator, and an object carries its key in
    [id]. *)
Definition record_ok (gen : Z) (kv : IDB.key * value) : Prop :=
  match kv.1 with IDB.KNum n => Z.min n IDB.MAX_KEY < gen | IDB.KStr _ => True end
  ∧ match kv.2 with
    | VObj props => assoc "id" props = Some (IDB.key_value kv.1)
    | _ => True
    end.

Definition store_ok (st : IDB.ObjectStore) : Prop :=
  IDB.keyPath st = "id"
  ∧ IDB.autoIncrement st = true
  ∧ ascending (IDB.records st)
  ∧ Forall (record_ok (IDB.keyGenerator st)) (IDB.records st).

(** The stores the first open creates. *)
Definition schema : gmap string IDB.ObjectStore := onupgradeneeded ∅.

(** A database is never opened, or it is at the current version with the
    stores of the schema, each with its indexes and well formed. *)
Definition db_ok (d : IDB.Database) : Prop :=
  d = IDB.absent
  ∨ (IDB.version d = DB_VERSION
     ∧ ∀ name,
         match IDB.objectStores d !! name, schema !! name with
         | Some st, Some st0 => IDB.indexes st = IDB.indexes st0 ∧ store_ok st
         | None, None => True
         | _, _ => False
         end).

Definition stays_ok (w w' : World) : Prop :=
  db_ok (database w) → db_ok (database w').

(** The key the store of a collection generates next (1 while the database
    was never opened). *)
Definition nextKey (name : string) (w : World) : Z :=
  match IDB.objectStores (database w) !! name with
  | Some st => IDB.keyGenerator st
  | None => 1
  end.

(** Values [store.add] can take: objects and arrays. *)
Definition isObject (v : value) : bool :=
  match v with VObj _ | VArr _ => true | _ => false end.

(** The collection a [GET] of the health API reads: Steps when the path
    contains [/steps], HealthData otherwise. *)
Definition readCollection (path : string) : string :=
  if Str.includes "/steps" path then STORES.STEPS else STORES.HEALTH_DATA.

(** The record a delimited line yields: its first field, trimmed, as the
    date, and its second field, trimmed and read as an integer, as the steps
    (0 when it does not start with a number). *)
Definition csvRecord (line : string) : value :=
  let parts := Str.split "," line in
  steps_entry (VStr (Str.trim (nth 0 parts "")))
              (default 0 (Str.parseInt (Str.trim (nth 1 parts "")))).

Definition hasComma (line : string) : bool := Str.includes "," line.

Fixpoint noDigit (s : string) : bool :=
  match s with
  | EmptyString => true
  | String c rest => negb (Str.is_digit c) && noDigit rest
  end.

(** The size of the integers that the code's numbers, doubles, hold exactly:
    2^53 - 1. *)
Definition MAX_SAFE_INTEGER : Z := 9007199254740991.

(** A record whose step count, if it has one, is such a safe integer. *)
Definition safeSteps (record : value) : bool :=
  match record with
  | VObj props =>
      match assoc "steps" props with
      | Some (VNum n) => Z.abs n <=? MAX_SAFE_INTEGER
      | _ => true
      end
  | _ => true
  end.

(** The copy the cache called [name] holds for a URL. *)
Definition storedIn (name url : string) (w : World) : option Response :=
  caches w !! name ≫= λ cache, cache !! url.

(** What a background-sync tag reports as its [type]. *)
Definition syncType (tag : string) : option string :=
  if String.eqb tag "background-sync-quests" then Some "quests"
  else if String.eqb tag "background-sync-habits" then Some "habits"
  else if String.eqb tag "background-sync-health" then Some "health"
  else None.

(** The message types the worker acts on. *)
Definition messageTypes : list string :=
  [ "SKIP_WAITING"; "SAVE_STEPS_DATA"; "SAVE_HEALTH_DATA"; "SAVE_QUEST_DATA";
    "GET_STEPS_DATA"; "GET_QUEST_DATA"; "SYNC_REQUEST"; "SCHEDULE_NOTIFICATION";
    "UPDATE_QUEST_PROGRESS" ].

(** [event.data.type], [undefined] on anything that is not an object. *)
Definition messageType (data : value) : value :=
  match data with
  | VObj props => default VUndefined (assoc "type" props)
  | _ => VUndefined
  end.

(** [quest.target && quest.target.steps] is truthy. *)
Definition hasStepTarget (props : list (string * value)) : bool :=
  match default VUndefined (assoc "target" props) with
  | VObj target => truthy (default VUndefined (assoc "steps" target))
  | _ => false
  end.

(** An object that brings no [id] of its own. *)
Definition isNewObject (item : value) : bool :=
  match item with
  | VObj props => match assoc "id" props with None => true | Some _ => false end
  | _ => false
  end.

(** The elements [processHealthData] files under Steps. *)
Definition stepsShaped (item : value) : bool :=
  match isStepsItem item with inr b => b | inl _ => false end.

(** The collection an element of a payload goes to. *)
Definition collectionOf (item : value) : string :=
  if stepsShaped item then STORES.STEPS else STORES.HEALTH_DATA.

(** The elements of a list that go to the collection [name]. *)
Definition countFor (name : string) (items : list value) : Z :=
  Z.of_nat (length (List.filter (λ item, String.eqb (collectionOf item) name) items)).

(** The collection a save message writes to. *)
Definition saveTarget (type : string) : option string :=
  if String.eqb type "SAVE_STEPS_DATA" then Some STORES.STEPS
  else if String.eqb type "SAVE_HEALTH_DATA" then Some STORES.HEALTH_DATA
  else if String.eqb type "SAVE_QUEST_DATA" then Some STORES.QUESTS
  else None.

(** What a periodic sync tells every client. *)
Definition periodicMessage (h : Host) (tag : string) : option value :=
  if String.eqb tag "daily-quest-check"
  then Some (VObj [("type", VStr "DAILY_QUEST_CHECK");
                   ("data", VObj [("timestamp", VNum (Date_now (clock h)))])])
  else if String.eqb tag "health-data-sync"
  then Some (BACKGROUND_SYNC_COMPLETE "health")
  else None.

(** * Sample host, requests and worlds *)

Definition sampleClock : Clock :=
  {| Date_now := 1704103200000; toISOString := "2024-01-01T10:00:00.000Z" |}.

Fixpoint afterScheme (href : string) : string :=
  match href with
  | String ":" (String "/" (String "/" rest)) => rest
  | String _ rest => afterScheme rest
  | EmptyString => EmptyString
  end.

Fixpoint fromSlash (s : string) : string :=
  match s with
  | String "/" _ => s
  | String _ rest => fromSlash rest
  | EmptyString => "/"
  end.

Fixpoint upToQuery (s : string) : string :=
  match s with
  | String c rest =>
      if Ascii.eqb c "?" || Ascii.eqb c "#" then EmptyString
      else String c (upToQuery rest)
  | EmptyString => EmptyString
  end.

(** A host that is offline, whose [JSON.parse] rejects every text, and whose
    URLs are absolute and carry no query. *)
Definition sampleHost : Host :=
  {| clock := sampleClock;
     fetch := λ _, inl NetworkError;
     new_URL := λ href, {| pathname := upToQuery (fromSlash (afterScheme href));
                           searchParams := [] |};
     JSON_parse := λ _, inl (SyntaxError "Unexpected token") |}.

Definition SAVE_QUEST_DATA (quest : value) : event :=
  Message (VObj [("type", VStr "SAVE_QUEST_DATA"); ("data", quest)]).

Definition SAVE_STEPS_DATA (entry : value) : event :=
  Message (VObj [("type", VStr "SAVE_STEPS_DATA"); ("data", entry)]).

Definition walkQuest (target progress : Z) : value :=
  VObj [("category", VStr "fitness"); ("target", VObj [("steps", VNum target)]);
        ("progress", VNum progress); ("completed", VBool false)].

(** One fitness quest of 100 steps, and 150 steps recorded today. *)
Definition walkedWorld : World :=
  run (handle (SAVE_STEPS_DATA (VObj [("date", VStr "2024-01-01"); ("steps", VNum 150)])))
      sampleHost
      (run (handle (SAVE_QUEST_DATA (walkQuest 100 0))) sampleHost initial).

Definition questWorld : World :=
  run (handle (SAVE_QUEST_DATA (walkQuest 100 0))) sampleHost initial.

Definition storedWalkQuest : list (string * value) :=
  [("category", VStr "fitness"); ("target", VObj [("steps", VNum 100)]);
   ("progress", VNum 0); ("completed", VBool false);
   ("timestamp", VNum 1704103200000); ("id", VNum 1)].

Definition csvSample : string :=
  "2024-01-01,500" +:+ String "010" "2024-01-02,750".

Definition malformedPost : Request :=
  {| method := "POST"; url := "https://quest.example/api/steps";
     requestBody := Raw "{steps:" |}.

Definition emptyShare : Request :=
  {| method := "POST"; url := "https://quest.example/share-data";
     requestBody := Form [("title", Field "Morning walk")] |}.

Definition apiRequest (method : string) : Request :=
  {| method := method; url := "https://quest.example/api/quests"; requestBody := Raw "" |}.

Definition okResponse : Response :=
  {| status := 200; headers := [("Content-Type", "application/json")];
     body := Json (VArr []) |}.

(** The world after a live [GET] of the sample URL was answered with 200. *)
Definition cachedWorld : World :=
  run (onFetch (apiRequest "GET"))
      {| clock := sampleClock; fetch := λ _, inr okResponse;
         new_URL := new_URL sampleHost; JSON_parse := JSON_parse sampleHost |}
      initial.

(** Half past eleven in the evening, UTC, on 2024-01-01. *)
Definition eveningClock : Clock :=
  {| Date_now := 1704151800000; toISOString := "2024-01-01T23:30:00.000Z" |}.

Definition eveningHost : Host :=
  {| clock := eveningClock; fetch := fetch sampleHost; new_URL := new_URL sampleHost;
     JSON_parse := JSON_parse sampleHost |}.

Definition typedItem : list (string * value) :=
  [("type", VStr "steps"); ("value", VNum 4200)].

(** A host like the sample one whose [JSON.parse] yields a day's entry. *)
Definition jsonHost : Host :=
  {| clock := sampleClock; fetch := fetch sampleHost; new_URL := new_URL sampleHost;
     JSON_parse := λ _, inr (VObj [("date", VStr "2024-01-01"); ("steps", VNum 800)]) |}.

(** A host like the sample one whose URLs carry a date range. *)
Definition rangeHost : Host :=
  {| clock := sampleClock; fetch := fetch sampleHost;
     new_URL := λ href, {| pathname := pathname (new_URL sampleHost href);
                           searchParams := [("startDate", "2024-01-01");
                                            ("endDate", "2024-01-31")] |};
     JSON_parse := JSON_parse sampleHost |}.

Definition stepsRequest (method : string) : Request :=
  {| method := method; url := "https://quest.example/api/steps";
     requestBody := Raw "{}" |}.

Definition shellRequest : Request :=
  {| method := "GET"; url := "https://quest.example/index.html";
     requestBody := Raw "" |}.

Definition chatShare : Request :=
  {| method := "POST"; url := "https://quest.example/share-data";
     requestBody := Form [("text", Field "went for a walk")] |}.

Definition questsStore : IDB.ObjectStore :=
  {| IDB.keyPath := "id"; IDB.autoIncrement := true;
     IDB.indexes := [ {| IDB.index_name := "category"; IDB.index_keyPath := "category";
                         IDB.index_unique := false |};
                      {| IDB.index_name := "status"; IDB.index_keyPath := "status";
                         IDB.index_unique := false |} ];
     IDB.keyGenerator := 2;
     IDB.records := [(IDB.KNum 1, VObj storedWalkQuest)] |}.

Definition csvShare : Request :=
  {| method := "POST"; url := "https://quest.example/share-data";
     requestBody := Form [("text", Field csvSample)] |}.

(** The world after a save of a step entry that brings the [id] 2^53. *)
Definition exhaustedWorld : World :=
  run (handle (SAVE_STEPS_DATA (VObj [("id", VNum 9007199254740992);
                                      ("steps", VNum 1)])))
      sampleHost initial.

(** * Properties *)

(** Unfolding the monad's operations in a goal. *)
Ltac munfold :=
  unfold run, result, detached, try_catch, mbind, M_bind, mret, M_ret,
    lift, throw, ask, gets, modify.

(** ** The persistent store *)

Section Store.

Lemma open_idempotent d d' : open d = inr d' → open d' = inr d'.
Proof.
  unfold open. intros H.
  destruct (IDB.version d <? DB_VERSION) eqn:Hlt.
  - injection H as <-. reflexivity.
  - destruct (DB_VERSION <? IDB.version d) eqn:Hgt; [discriminate |].
    injection H as <-. rewrite Hlt, Hgt. reflexivity.
Qed.

Lemma open_error d e : open d = inl e → e = VersionError.
Proof.
  unfold open. repeat case_match; congruence.
Qed.

Lemma opened_idempotent w : opened (opened w) = opened w.
Proof.
  unfold opened. destruct (open (database w)) as [e | d] eqn:Hopen.
  - rewrite Hopen. reflexivity.
  - simpl. rewrite (open_idempotent _ _ Hopen). reflexivity.
Qed.

Lemma initDB_spec h w :
  initDB h w = match open (database w) with
               | inr d => (inr (), set_database d w)
               | inl e => (inl e, w)
               end.
Proof. reflexivity. Qed.

(** The identifier [storeName] is bound nowhere the range query can see. *)
Lemma storeName_unbound startDate endDate :
  resolve (("startDate", startDate) :: ("endDate", endDate) :: moduleScope) "storeName"
  = inl (ReferenceError "storeName is not defined").
Proof. reflexivity. Qed.

(** So the query never returns: it fails while opening the database or its
    transaction, or else with the [ReferenceError]. *)
Lemma getStepsByDateRange_throws h w startDate endDate :
  ∃ e, getStepsByDateRange_in moduleScope startDate endDate h w = (inl e, opened w)
       ∧ ∀ what, e ≠ Unmodelled what.
Proof.
  unfold getStepsByDateRange_in, opened. munfold.
  rewrite initDB_spec.
  destruct (open (database w)) as [e | d] eqn:Hopen.
  - apply open_error in Hopen as ->. eexists; split; [reflexivity | discriminate].
  - unfold objectStore; simpl.
    destruct (IDB.objectStores d !! STORES.STEPS);
      eexists; (split; [reflexivity | discriminate]).
Qed.

(** A run of the reconciliation opens the database and does nothing else:
    the range query throws before any quest is looked at, and the [catch]
    swallows the error. *)
Lemma updateQuestProgress_noop h w : updateQuestProgress h w = (inr (), opened w).
Proof.
  unfold updateQuestProgress, updateQuestProgress_in, getAllFromStore.
  munfold. rewrite initDB_spec. unfold opened.
  destruct (open (database w)) as [e | d] eqn:Hopen.
  - apply open_error in Hopen as ->. reflexivity.
  - unfold objectStore at 1; simpl.
    destruct (IDB.objectStores d !! STORES.QUESTS); [| reflexivity].
    destruct (getStepsByDateRange_throws h (set_database d w)
                (VStr (today (clock h))) (VStr (today (clock h))))
      as (e & -> & He).
    unfold opened; simpl. rewrite (open_idempotent _ _ Hopen).
    destruct e; try reflexivity. by destruct (He what).
Qed.

End Store.

(** ** Reconciliation *)

(** C6: two runs of [updateQuestProgress] in succession, whatever the host
    says at each, leave every quest (so its [progress] and [completed]) as
    one run does: the second run returns and changes nothing in the Quests
    collection, nor anywhere else in the world. *)
Theorem C6_reconciliation_idempotent h1 h2 w :
  let w1 := run updateQuestProgress h1 w in
  let w2 := run updateQuestProgress h2 w1 in
  result updateQuestProgress h2 w1 = inr ()
  ∧ collection STORES.QUESTS w2 = collection STORES.QUESTS w1
  ∧ w2 = w1.
Proof.
  unfold run, result. rewrite !updateQuestProgress_noop. simpl.
  rewrite opened_idempotent. done.
Qed.

(** *** Objects as property lists *)

Lemma assoc_set_eq k v l : assoc k (assoc_set k v l) = Some v.
Proof.
  induction l as [| [k' v'] l IH]; simpl.
  - by rewrite String.eqb_refl.
  - destruct (String.eqb k k') eqn:E; simpl.
    + by rewrite String.eqb_refl.
    + by rewrite E.
Qed.

Lemma assoc_set_ne k k' v l : k ≠ k' → assoc k (assoc_set k' v l) = assoc k l.
Proof.
  intros Hne. induction l as [| [k'' v''] l IH]; simpl.
  - by apply String.eqb_neq in Hne as ->.
  - destruct (String.eqb k' k'') eqn:E; simpl.
    + apply String.eqb_eq in E as <-. by apply String.eqb_neq in Hne as ->.
    + by rewrite IH.
Qed.

Lemma assoc_set_id k v l : assoc k l = Some v → assoc_set k v l = l.
Proof.
  induction l as [| [k' v'] l IH]; simpl; [done |].
  destruct (String.eqb k k') eqn:E.
  - apply String.eqb_eq in E as ->. congruence.
  - intros H. by rewrite IH.
Qed.

(** *** The update of one quest *)

Lemma applyStepTarget_numeric total props tprops n :
  assoc "target" props = Some (VObj tprops) →
  assoc "steps" tprops = Some (VNum n) →
  n ≠ 0 →
  applyStepTarget (VNum total) (VObj props)
  = inr (true, VObj (assoc_set "completed" (VBool (n <=? Z.min total n))
                       (assoc_set "progress" (VNum (Z.min total n)) props))).
Proof.
  intros Ht Hs Hn. unfold applyStepTarget; simpl. rewrite Ht; simpl. rewrite Hs; simpl.
  by apply Z.eqb_neq in Hn as ->.
Qed.

(** X20. Applying the update again, with the same total, changes nothing more. *)
Lemma applyStepTarget_idempotent total props tprops n quest' :
  assoc "target" props = Some (VObj tprops) →
  assoc "steps" tprops = Some (VNum n) →
  n ≠ 0 →
  applyStepTarget (VNum total) (VObj props) = inr (true, quest') →
  applyStepTarget (VNum total) quest' = inr (true, quest').
Proof.
  intros Ht Hs Hn. rewrite (applyStepTarget_numeric _ _ _ _ Ht Hs Hn).
  intros [= <-].
  erewrite applyStepTarget_numeric; [| | exact Hs | exact Hn].
  - rewrite (assoc_set_id "progress").
    + by rewrite (assoc_set_id "completed") by apply assoc_set_eq.
    + rewrite assoc_set_ne by done. apply assoc_set_eq.
  - by rewrite !assoc_set_ne.
Qed.

Lemma stepTarget_numeric props tprops n :
  assoc "target" props = Some (VObj tprops) →
  assoc "steps" tprops = Some (VNum n) →
  stepTarget (VObj props) = Some n.
Proof. intros Ht Hs. unfold stepTarget; simpl. rewrite Ht; simpl. by rewrite Hs. Qed.

Lemma stepTarget_set k v props :
  k ≠ "target" → stepTarget (VObj (assoc_set k v props)) = stepTarget (VObj props).
Proof. intros Hk. unfold stepTarget; simpl. by rewrite assoc_set_ne. Qed.

Lemma withinTarget_numeric quest n p c :
  stepTarget quest = Some n →
  get quest "progress" = inr (VNum p) →
  get quest "completed" = inr (VBool c) →
  withinTarget quest = (p <=? n) && Bool.eqb c (n <=? p).
Proof. intros Ht Hp Hc. unfold withinTarget. rewrite Ht, Hp, Hc. by destruct c. Qed.

(** *** Records of an object store *)

Lemma key_compare_refl k : IDB.key_compare k k = Eq.
Proof.
  destruct k as [n | s]; simpl; [apply Z.compare_refl |].
  pose proof (String.compare_antisym s s) as H.
  destruct (String.compare s s); done.
Qed.

Lemma key_of_value k : IDB.key_of (IDB.key_value k) = Some k.
Proof. by destruct k. Qed.

Lemma find_put_record k v rs : IDB.find_record k (IDB.put_record k v rs) = Some v.
Proof.
  induction rs as [| [k' v'] rs IH]; simpl.
  - by rewrite key_compare_refl.
  - destruct (IDB.key_compare k k') eqn:E; simpl.
    + by rewrite key_compare_refl.
    + by rewrite key_compare_refl.
    + by rewrite E.
Qed.

(** [updateInStore] on an object that carries its key: the record under that
    key is replaced by the object, stamped with [updatedAt]. *)
Lemma updateInStore_object h w d st storeName props k :
  open (database w) = inr d →
  IDB.objectStores d !! storeName = Some st →
  assoc (IDB.keyPath st) props = Some (IDB.key_value k) →
  IDB.keyPath st ≠ "updatedAt" →
  let data := VObj (assoc_set "updatedAt" (VNum (Date_now (clock h))) props) in
  updateInStore storeName (VObj props) h w
  = (inr (IDB.key_value k, data),
     set_database
       {| IDB.version := IDB.version d;
          IDB.objectStores :=
            <[storeName := IDB.with_records st (IDB.bump st k)
                             (IDB.put_record k data (IDB.records st))]>
              (IDB.objectStores d) |} w).
Proof.
  intros Hopen Hst Hid Hkp. unfold updateInStore, objectStore, commit, Date_dot_now.
  munfold. rewrite initDB_spec, Hopen. simpl. rewrite Hst. simpl.
  unfold IDB.store_record, IDB.extract_key.
  rewrite assoc_set_ne, Hid by done.
  rewrite key_of_value. by destruct k.
Qed.

Lemma leb_min_r n total : (n <=? Z.min total n) = (n <=? total).
Proof. destruct (Z.leb_spec n total), (Z.leb_spec n (Z.min total n)); lia. Qed.

Lemma walkedWorld_reachable : reachable walkedWorld.
Proof. repeat constructor. Qed.

(** C1, at a world the worker reaches: with a fitness quest of 100 steps and
    150 steps recorded today, a run of [updateQuestProgress] leaves the quest
    at progress 0 and not completed, where the reconciliation described would
    store progress 100 and completed. *)
Theorem C1_reconciliation_leaves_quest_stale :
  let w' := run updateQuestProgress sampleHost walkedWorld in
  (IDB.index_getAll "date" (IDB.KStr "2024-01-01", IDB.KStr "2024-01-01")
     <$> IDB.objectStores (database w') !! STORES.STEPS)
  = Some [VObj [("date", VStr "2024-01-01"); ("steps", VNum 150);
                ("timestamp", VNum 1704103200000); ("id", VNum 1)]]
  ∧ collection STORES.QUESTS w'
    = [VObj [("category", VStr "fitness"); ("target", VObj [("steps", VNum 100)]);
             ("progress", VNum 0); ("completed", VBool false);
             ("timestamp", VNum 1704103200000); ("id", VNum 1)]]
  ∧ w' = walkedWorld.
Proof. vm_compute. done. Qed.

(** With [storeName] bound to the steps store the same run stores what the
    reconciliation describes. *)
Example repaired_reconciliation :
  collection STORES.QUESTS (run (updateQuestProgress_in repairedScope) sampleHost walkedWorld)
  = [VObj [("category", VStr "fitness"); ("target", VObj [("steps", VNum 100)]);
           ("progress", VNum 100); ("completed", VBool true);
           ("timestamp", VNum 1704103200000); ("id", VNum 1);
           ("updatedAt", VNum 1704103200000)]].
Proof. vm_compute. done. Qed.

(** C4, as stated, fails: a quest saved by a [SAVE_QUEST_DATA] message is
    stored as sent, here with progress 50 over a target of 10 steps and not
    completed. *)
Lemma C4_saved_quest_over_target :
  let w := run (handle (SAVE_QUEST_DATA (walkQuest 10 50))) sampleHost initial in
  reachable w
  ∧ ∃ quest, quest ∈ collection STORES.QUESTS w
             ∧ stepTarget quest = Some 10
             ∧ get quest "progress" = inr (VNum 50)
             ∧ get quest "completed" = inr (VBool false)
             ∧ withinTarget quest = false.
Proof.
  split; [repeat constructor |].
  eexists. split; [vm_compute; apply list_elem_of_here |]. by vm_compute.
Qed.

(** C4, amended: one turn of the reconciliation loop on a quest that passes
    the filter and has a non-zero numeric [target.steps], for a step total
    [total]: the quest is persisted under its key with
    [progress = min(total, target.steps)], which is at most the target, and
    [completed = (progress >= target.steps)]; with the total at or above the
    target, progress equals the target and the quest is completed. *)
Theorem C4_update_within_target h w d st props tprops k n total :
  open (database w) = inr d →
  IDB.objectStores d !! STORES.QUESTS = Some st →
  IDB.keyPath st = "id" →
  assoc "id" props = Some (IDB.key_value k) →
  isStepQuest (VObj props) = inr true →
  assoc "target" props = Some (VObj tprops) →
  assoc "steps" tprops = Some (VNum n) →
  n ≠ 0 →
  let w' := run (reconcileQuest (VNum total) (VObj props)) h w in
  ∃ quest',
    result (reconcileQuest (VNum total) (VObj props)) h w = inr quest'
    ∧ (IDB.objectStores (database w') !! STORES.QUESTS
         ≫= λ st', IDB.find_record k (IDB.records st')) = Some quest'
    ∧ get quest' "progress" = inr (VNum (Z.min total n))
    ∧ get quest' "completed" = inr (VBool (n <=? total))
    ∧ withinTarget quest' = true
    ∧ (n ≤ total → get quest' "progress" = inr (VNum n)
                   ∧ get quest' "completed" = inr (VBool true)).
Proof.
  intros Hopen Hst Hkp Hid Hsel Ht Hs Hn w'.
  pose proof (applyStepTarget_numeric total _ _ _ Ht Hs Hn) as Happly.
  set (props2 := assoc_set "completed" (VBool (n <=? Z.min total n))
                   (assoc_set "progress" (VNum (Z.min total n)) props)) in *.
  assert (Hid2 : assoc (IDB.keyPath st) props2 = Some (IDB.key_value k)).
  { rewrite Hkp. unfold props2. by rewrite !assoc_set_ne. }
  assert (Hkp2 : IDB.keyPath st ≠ "updatedAt") by by rewrite Hkp.
  pose proof (updateInStore_object h w d st STORES.QUESTS props2 k
                Hopen Hst Hid2 Hkp2) as Hupd.
  simpl in Hupd.
  assert (Hrun : reconcileQuest (VNum total) (VObj props) h w
                 = (inr (VObj (assoc_set "updatedAt" (VNum (Date_now (clock h))) props2)),
                    (updateInStore STORES.QUESTS (VObj props2) h w).2)).
  { unfold reconcileQuest. munfold. rewrite Hsel, Happly. simpl.
    by rewrite Hupd. }
  eexists. subst w'. unfold run, result. rewrite Hrun, Hupd. simpl.
  split; [reflexivity |].
  split. { rewrite lookup_insert_eq. simpl. apply find_put_record. }
  assert (Hp : get (VObj (assoc_set "updatedAt" (VNum (Date_now (clock h))) props2))
                   "progress" = inr (VNum (Z.min total n))).
  { unfold props2, get. rewrite !assoc_set_ne by done. by rewrite assoc_set_eq. }
  assert (Hc : get (VObj (assoc_set "updatedAt" (VNum (Date_now (clock h))) props2))
                   "completed" = inr (VBool (n <=? total))).
  { unfold props2, get. rewrite assoc_set_ne by done. rewrite assoc_set_eq.
    by rewrite leb_min_r. }
  rewrite Hp, Hc.
  split; [done |]. split; [done |]. split.
  - rewrite (withinTarget_numeric _ n (Z.min total n) (n <=? total)); [| | done | done].
    + rewrite leb_min_r. apply andb_true_iff. split; [apply Z.leb_le; lia |].
      by destruct (n <=? total).
    + unfold props2. rewrite !stepTarget_set by done.
      by apply stepTarget_numeric with tprops.
  - intros Hle. rewrite Z.min_r by lia.
    by apply Z.leb_le in Hle as ->.
Qed.

Lemma C4_update_within_target_witness :
  ∃ quest',
    result (reconcileQuest (VNum 150) (VObj storedWalkQuest)) sampleHost questWorld
    = inr quest'
    ∧ (IDB.objectStores
         (database (run (reconcileQuest (VNum 150) (VObj storedWalkQuest))
                        sampleHost questWorld)) !! STORES.QUESTS
         ≫= λ st', IDB.find_record (IDB.KNum 1) (IDB.records st')) = Some quest'
    ∧ get quest' "progress" = inr (VNum (Z.min 150 100))
    ∧ get quest' "completed" = inr (VBool (100 <=? 150))
    ∧ withinTarget quest' = true
    ∧ (100 ≤ 150 → get quest' "progress" = inr (VNum 100)
                   ∧ get quest' "completed" = inr (VBool true)).
Proof.
  apply (C4_update_within_target sampleHost questWorld (database questWorld)
           {| IDB.keyPath := "id"; IDB.autoIncrement := true;
              IDB.indexes := [ {| IDB.index_name := "category";
                                  IDB.index_keyPath := "category";
                                  IDB.index_unique := false |};
                               {| IDB.index_name := "status";
                                  IDB.index_keyPath := "status";
                                  IDB.index_unique := false |} ];
              IDB.keyGenerator := 2;
              IDB.records := [(IDB.KNum 1, VObj storedWalkQuest)] |}
           storedWalkQuest [("steps", VNum 100)] (IDB.KNum 1) 100 150).
  - vm_compute. reflexivity.
  - vm_compute. reflexivity.
  - reflexivity.
  - reflexivity.
  - reflexivity.
  - reflexivity.
  - reflexivity.
  - lia.
Defined.

(** ** The schema *)

(** C9, as stated, fails: the first open creates a fifth collection,
    [achievements], so the collections are not exactly the four named. *)
Lemma C9_fifth_collection :
  let d := database (run initDB sampleHost initial) in
  is_Some (IDB.objectStores d !! "achievements")
  ∧ dom (IDB.objectStores d) ≠ {[ "steps"; "healthData"; "quests"; "habits" ]}.
Proof.
  split; [vm_compute; eauto |].
  intros H.
  apply (f_equal (λ names : gset string, bool_decide ("achievements" ∈ names))) in H.
  vm_compute in H. discriminate.
Qed.

(** C9, amended: on first open the store creates exactly five collections,
    [steps], [healthData], [quests], [habits] and [achievements], each empty,
    keyed by the auto-incrementing [id], with the non-unique indexes [date] and
    [timestamp] on steps, [type] and [date] on healthData, [category] and
    [status] on quests, and none on habits and achievements. *)
Theorem C9_first_open_schema h :
  let d := database (run initDB h initial) in
  result initDB h initial = inr ()
  ∧ IDB.version d = 1
  ∧ dom (IDB.objectStores d)
    = {[ "steps"; "healthData"; "quests"; "habits"; "achievements" ]}
  ∧ IDB.objectStores d
    = list_to_map
        [ ("steps", emptyStore [("date", "date"); ("timestamp", "timestamp")]);
          ("healthData", emptyStore [("type", "type"); ("date", "date")]);
          ("quests", emptyStore [("category", "category"); ("status", "status")]);
          ("habits", emptyStore []);
          ("achievements", emptyStore []) ].
Proof.
  intros d. split; [reflexivity |]. split; [reflexivity |].
  assert (Hstores : IDB.objectStores d
    = list_to_map
        [ ("steps", emptyStore [("date", "date"); ("timestamp", "timestamp")]);
          ("healthData", emptyStore [("type", "type"); ("date", "date")]);
          ("quests", emptyStore [("category", "category"); ("status", "status")]);
          ("habits", emptyStore []);
          ("achievements", emptyStore []) ]).
  { vm_compute. reflexivity. }
  split; [| exact Hstores].
  rewrite Hstores. vm_compute. reflexivity.
Qed.

(** ** Cache generations: the [activate] handler *)

Section Activate.

Lemma isCurrentCache_spec name :
  isCurrentCache name = true
  ↔ name = CACHE_NAME ∨ name = DATA_CACHE_NAME ∨ name = HEALTH_CACHE_NAME.
Proof.
  unfold isCurrentCache. rewrite !orb_true_iff, !String.eqb_eq. tauto.
Qed.

Lemma Promise_all_map_evict keys h w :
  Promise_all_map keys
    (λ key, if negb (isCurrentCache key) then caches_delete key else mret ()) h w
  = (inr (), set_caches (evict (caches w) keys) w).
Proof.
  revert w. induction keys as [| key keys IH]; intros w.
  - by destruct w.
  - simpl. munfold. unfold caches_delete. munfold.
    destruct (isCurrentCache key); simpl; rewrite IH; [done |].
    reflexivity.
Qed.

Lemma evict_lookup c keys name :
  evict c keys !! name
  = if bool_decide (name ∈ keys) && negb (isCurrentCache name) then None
    else c !! name.
Proof.
  revert c. induction keys as [| key keys IH]; intros c; [done |].
  simpl. rewrite IH. destruct (decide (name = key)) as [-> | Hne].
  - rewrite (bool_decide_eq_true_2 (key ∈ key :: keys)) by left.
    destruct (isCurrentCache key); simpl.
    + by rewrite andb_false_r.
    + rewrite lookup_delete_eq. by destruct (bool_decide _).
  - rewrite (bool_decide_ext (name ∈ key :: keys) (name ∈ keys))
      by (rewrite elem_of_cons; intuition congruence).
    destruct (isCurrentCache key); [done |].
    by rewrite lookup_delete_ne.
Qed.

End Activate.

(** C8: the [activate] handler completes, and afterwards a cache whose name
    is none of the three current generation names (app shell, versioned API,
    health) is gone, while each of the three is as it was before. *)
Theorem C8_activate_evicts_old_generations h w name :
  result onActivate h w = inr ()
  ∧ caches (run onActivate h w) !! name
    = if decide (name = CACHE_NAME ∨ name = DATA_CACHE_NAME ∨ name = HEALTH_CACHE_NAME)
      then caches w !! name
      else None.
Proof.
  unfold onActivate, run, result. munfold. rewrite Promise_all_map_evict. simpl.
  split; [done |]. rewrite evict_lookup.
  destruct (decide _) as [Hcur | Hold].
  - apply isCurrentCache_spec in Hcur as ->. by rewrite andb_false_r.
  - assert (isCurrentCache name = false) as ->.
    { apply not_true_is_false. by rewrite isCurrentCache_spec. }
    rewrite andb_true_r. case_bool_decide as Hin; [done |].
    rewrite elem_of_elements, elem_of_dom in Hin.
    by apply eq_None_not_Some.
Qed.

(** ** Text normalisation *)

(** In delimited text the first line never yields a record: it is taken for
    the header. *)
Lemma parseHealthDataText_delimited clk text :
  Str.includes "," text = true →
  parseHealthDataText clk text
  = concat (csv_line 1 <$> tail (Str.split "010" text)).
Proof.
  intros Hcomma. unfold parseHealthDataText. rewrite Hcomma.
  destruct (Str.split "010" text) as [| header lines]; [done |].
  simpl. f_equal. rewrite <- imap_const. by apply imap_ext.
Qed.

(** C2, as stated, fails: the two lines do not yield the two records; the
    line dated 2024-01-01 is dropped and one record comes out. *)
Lemma C2_first_line_dropped :
  parseHealthDataText sampleClock csvSample
    ≠ [steps_entry (VStr "2024-01-01") 500; steps_entry (VStr "2024-01-02") 750]
  ∧ length (parseHealthDataText sampleClock csvSample) = 1%nat.
Proof. split; [by vm_compute | reflexivity]. Qed.

(** C2, amended: the text normalizer yields exactly one record for that text,
    with steps 750 dated 2024-01-02; its first line is skipped as the header. *)
Theorem C2_csv_sample_one_record clk :
  parseHealthDataText clk csvSample = [steps_entry (VStr "2024-01-02") 750].
Proof.
  rewrite parseHealthDataText_delimited by reflexivity.
  reflexivity.
Qed.

(** ** The router *)

Section Router.

Variables (h : Host) (w : World) (request : Request).

Lemma route_health :
  Str.includes "/api/health" (pathname (new_URL h (url request)))
  || Str.includes "/api/steps" (pathname (new_URL h (url request))) = true →
  (String.eqb (pathname (new_URL h (url request))) "/share-data"
   && String.eqb (method request) "POST") = false →
  onFetch request h w = (Some <$> handleHealthAPI request) h w.
Proof.
  intros Hhealth Hshare. unfold onFetch at 1. munfold. by rewrite Hshare, Hhealth.
Qed.

Lemma route_share :
  pathname (new_URL h (url request)) = "/share-data" →
  method request = "POST" →
  onFetch request h w = (Some <$> handleSharedData request) h w.
Proof.
  intros Hpath Hmethod. unfold onFetch at 1. munfold. by rewrite Hpath, Hmethod.
Qed.

Lemma route_generic :
  Str.includes "/api/" (url request) = true →
  (String.eqb (pathname (new_URL h (url request))) "/share-data"
   && String.eqb (method request) "POST") = false →
  Str.includes "/api/health" (pathname (new_URL h (url request))) = false →
  Str.includes "/api/steps" (pathname (new_URL h (url request))) = false →
  onFetch request h w
  = (caches_open DATA_CACHE_NAME ;;
     match fetch h request with
     | inr response =>
         (if status response =? 200
          then cache_put DATA_CACHE_NAME (url request) response
          else mret ()) ;;
         mret (Some response)
     | inl _ => cache_match DATA_CACHE_NAME request
     end) h w.
Proof.
  intros Hapi Hshare Hhealth Hsteps. unfold onFetch at 1. munfold.
  by rewrite Hshare, Hhealth, Hsteps, Hapi.
Qed.

End Router.

(** ** The health API *)

(** C5: a [POST] to [/api/steps] whose body is not JSON is answered, by the
    health API handler and so by the router, with status 500 and a JSON body
    carrying the parse error in its [error] field; nothing is inserted: the
    Steps collection, and the whole world, stay as they were. *)
Theorem C5_malformed_json_body h w request text msg :
  method request = "POST" →
  pathname (new_URL h (url request)) = "/api/steps" →
  requestBody request = Raw text →
  JSON_parse h text = inl (SyntaxError msg) →
  let response := {| status := 500;
                     headers := [("Content-Type", "application/json")];
                     body := Json (VObj [("error", VStr msg)]) |} in
  result (handleHealthAPI request) h w = inr response
  ∧ result (onFetch request) h w = inr (Some response)
  ∧ collection STORES.STEPS (run (handleHealthAPI request) h w)
    = collection STORES.STEPS w
  ∧ run (onFetch request) h w = w.
Proof.
  intros Hmethod Hpath Hbody Hparse response.
  assert (Hrun : handleHealthAPI request h w = (inr response, w)).
  { unfold handleHealthAPI, json. munfold. simpl.
    rewrite Hmethod. simpl. by rewrite Hbody, Hparse. }
  assert (Hfetch : onFetch request h w = (inr (Some response), w)).
  { rewrite route_health by by rewrite Hpath.
    unfold fmap, M_fmap. by rewrite Hrun. }
  unfold run, result. by rewrite Hrun, Hfetch.
Qed.

Lemma C5_malformed_json_body_witness :
  result (handleHealthAPI malformedPost) sampleHost initial
    = inr {| status := 500; headers := [("Content-Type", "application/json")];
             body := Json (VObj [("error", VStr "Unexpected token")]) |}
  ∧ result (onFetch malformedPost) sampleHost initial
    = inr (Some {| status := 500; headers := [("Content-Type", "application/json")];
                   body := Json (VObj [("error", VStr "Unexpected token")]) |})
  ∧ collection STORES.STEPS (run (handleHealthAPI malformedPost) sampleHost initial)
    = collection STORES.STEPS initial
  ∧ run (onFetch malformedPost) sampleHost initial = initial.
Proof.
  apply (C5_malformed_json_body sampleHost initial malformedPost "{steps:"
           "Unexpected token"); reflexivity.
Defined.

(** ** The share target *)

(** C10: a [POST] to the share path whose form has neither a [text] field nor
    a [healthData] file is answered with the 302 redirect to the application
    root; no record is inserted and no message is posted to any client: the
    world is left as it was. *)
Theorem C10_share_without_payload h w request entries :
  method request = "POST" →
  pathname (new_URL h (url request)) = "/share-data" →
  requestBody request = Form entries →
  formData_get "text" entries = None →
  formData_get "healthData" entries = None →
  let w' := run (onFetch request) h w in
  result (handleSharedData request) h w
    = inr {| status := 302; headers := [("Location", "/")]; body := Text "" |}
  ∧ result (onFetch request) h w
    = inr (Some {| status := 302; headers := [("Location", "/")]; body := Text "" |})
  ∧ database w' = database w
  ∧ posted w' = posted w
  ∧ w' = w.
Proof.
  intros Hmethod Hpath Hbody Htext Hfile w'.
  assert (Hrun : handleSharedData request h w = (inr (redirect "/" 302), w)).
  { unfold handleSharedData, formData, fromText. munfold.
    by rewrite Hbody, Htext, Hfile. }
  assert (Hfetch : onFetch request h w = (inr (Some (redirect "/" 302)), w)).
  { rewrite route_share by done. unfold fmap, M_fmap. by rewrite Hrun. }
  subst w'. unfold run, result. by rewrite Hrun, Hfetch.
Qed.

Lemma C10_share_without_payload_witness :
  result (handleSharedData emptyShare) sampleHost walkedWorld
    = inr {| status := 302; headers := [("Location", "/")]; body := Text "" |}
  ∧ result (onFetch emptyShare) sampleHost walkedWorld
    = inr (Some {| status := 302; headers := [("Location", "/")]; body := Text "" |})
  ∧ database (run (onFetch emptyShare) sampleHost walkedWorld) = database walkedWorld
  ∧ posted (run (onFetch emptyShare) sampleHost walkedWorld) = posted walkedWorld
  ∧ run (onFetch emptyShare) sampleHost walkedWorld = walkedWorld.
Proof.
  apply (C10_share_without_payload sampleHost walkedWorld emptyShare
           [("title", Field "Morning walk")]); reflexivity.
Defined.

(** ** Network first, cache fallback *)

(** C7, as stated, fails: with a copy stored for the URL and the network
    down, a [POST] to that URL gets no response at all, not the stored copy. *)
Lemma C7_post_gets_no_fallback :
  Str.includes "/api/" (url (apiRequest "POST")) = true
  ∧ pathname (new_URL sampleHost (url (apiRequest "POST"))) = "/api/quests"
  ∧ storedCopy (url (apiRequest "POST")) cachedWorld = Some okResponse
  ∧ fetch sampleHost (apiRequest "POST") = inl NetworkError
  ∧ result (onFetch (apiRequest "POST")) sampleHost cachedWorld = inr None.
Proof. by vm_compute. Qed.

Section NetworkFirst.

Variables (h : Host) (w : World) (request : Request).

(** The request is routed to the generic [/api/] branch. *)
Hypothesis Hapi : Str.includes "/api/" (url request) = true.
Hypothesis Hshare :
  (String.eqb (pathname (new_URL h (url request))) "/share-data"
   && String.eqb (method request) "POST") = false.
Hypothesis Hhealth :
  Str.includes "/api/health" (pathname (new_URL h (url request))) = false.
Hypothesis Hsteps :
  Str.includes "/api/steps" (pathname (new_URL h (url request))) = false.

Ltac network_first :=
  unfold run, result; rewrite route_generic by done;
  unfold caches_open, cache_put, cache_match, storedCopy; munfold.

Lemma live_response_returned response :
  fetch h request = inr response →
  result (onFetch request) h w = inr (Some response).
Proof.
  intros Hlive. network_first. rewrite Hlive.
  by destruct (caches w !! DATA_CACHE_NAME), (status response =? 200).
Qed.

Lemma live_ok_stored response :
  fetch h request = inr response →
  status response = 200 →
  storedCopy (url request) (run (onFetch request) h w) = Some response.
Proof.
  intros Hlive Hok. network_first. rewrite Hlive.
  apply Z.eqb_eq in Hok as ->.
  destruct (caches w !! DATA_CACHE_NAME); cbn [caches set_caches fst snd];
    rewrite lookup_insert_eq; cbn [mbind option_bind]; by rewrite lookup_insert_eq.
Qed.

Lemma live_other_not_stored response :
  fetch h request = inr response →
  status response ≠ 200 →
  storedCopy (url request) (run (onFetch request) h w) = storedCopy (url request) w.
Proof.
  intros Hlive Hother. network_first. rewrite Hlive.
  apply Z.eqb_neq in Hother as ->.
  destruct (caches w !! DATA_CACHE_NAME) as [cache |] eqn:Hcache;
    cbn [caches set_caches fst snd]; rewrite ?Hcache, ?lookup_insert_eq; [done |].
  cbn [mbind option_bind]. by rewrite lookup_empty.
Qed.

Lemma offline_fallback e :
  fetch h request = inl e →
  result (onFetch request) h w
  = inr (if String.eqb (method request) "GET" then storedCopy (url request) w
         else None).
Proof.
  intros Hdown. network_first. rewrite Hdown.
  destruct (caches w !! DATA_CACHE_NAME) as [cache |] eqn:Hcache;
    cbn [caches set_caches fst snd]; rewrite ?Hcache, ?lookup_insert_eq; [done |].
  cbn [default from_option id mbind option_bind]. by rewrite lookup_empty.
Qed.

Lemma offline_cache_kept e :
  fetch h request = inl e →
  storedCopy (url request) (run (onFetch request) h w) = storedCopy (url request) w.
Proof.
  intros Hdown. network_first. rewrite Hdown.
  destruct (caches w !! DATA_CACHE_NAME) as [cache |] eqn:Hcache;
    cbn [caches set_caches fst snd]; rewrite ?Hcache, ?lookup_insert_eq; [done |].
  cbn [mbind option_bind]. by rewrite lookup_empty.
Qed.

End NetworkFirst.

(** The copy a failed [GET] falls back to is the last one a 200 response left,
    whatever the method of the request that fetched it. *)
Lemma fallback_returns_last_stored h1 h2 w request request' response :
  Str.includes "/api/" (url request) = true →
  (String.eqb (pathname (new_URL h1 (url request))) "/share-data"
   && String.eqb (method request) "POST") = false →
  Str.includes "/api/health" (pathname (new_URL h1 (url request))) = false →
  Str.includes "/api/steps" (pathname (new_URL h1 (url request))) = false →
  fetch h1 request = inr response →
  status response = 200 →
  url request' = url request →
  method request' = "GET" →
  new_URL h2 = new_URL h1 →
  fetch h2 request' = inl NetworkError →
  result (onFetch request') h2 (run (onFetch request) h1 w) = inr (Some response).
Proof.
  intros Hapi Hshare Hhealth Hsteps Hlive Hok Hurl Hget Hparse Hdown.
  rewrite (offline_fallback h2 _ request') with (e := NetworkError);
    rewrite ?Hparse, ?Hurl, ?Hget; try done.
  - cbn [String.eqb Ascii.eqb Bool.eqb].
    by rewrite (live_ok_stored h1 w request Hapi Hshare Hhealth Hsteps response).
  - by rewrite andb_false_r.
Qed.

(** C7, amended: for a request whose URL contains [/api/] and that is neither
    a share-target nor a health/steps request: a live response is returned
    as it is, and with status 200 it becomes the copy stored under the request
    URL in the data cache (any other status leaves the stored copy alone);
    when the live fetch fails, a [GET] request gets the copy stored for its
    URL, or nothing if there is none, and a request of any other method gets
    nothing. *)
Theorem C7_network_first h w request :
  Str.includes "/api/" (url request) = true →
  (String.eqb (pathname (new_URL h (url request))) "/share-data"
   && String.eqb (method request) "POST") = false →
  Str.includes "/api/health" (pathname (new_URL h (url request))) = false →
  Str.includes "/api/steps" (pathname (new_URL h (url request))) = false →
  let w' := run (onFetch request) h w in
  match fetch h request with
  | inr response =>
      result (onFetch request) h w = inr (Some response)
      ∧ storedCopy (url request) w'
        = if status response =? 200 then Some response
          else storedCopy (url request) w
  | inl _ =>
      result (onFetch request) h w
        = inr (if String.eqb (method request) "GET"
               then storedCopy (url request) w else None)
      ∧ storedCopy (url request) w' = storedCopy (url request) w
  end.
Proof.
  intros Hapi Hshare Hhealth Hsteps w'. subst w'.
  destruct (fetch h request) as [e | response] eqn:Hfetch.
  - split.
    + by apply offline_fallback with e.
    + by apply offline_cache_kept with e.
  - split; [by apply live_response_returned |].
    destruct (status response =? 200) eqn:Hstatus.
    + apply live_ok_stored; [done.. |]. by apply Z.eqb_eq.
    + apply live_other_not_stored with response; [done.. |]. by apply Z.eqb_neq.
Qed.

Lemma C7_network_first_witness :
  result (onFetch (apiRequest "GET")) sampleHost cachedWorld
    = inr (if String.eqb (method (apiRequest "GET")) "GET"
           then storedCopy (url (apiRequest "GET")) cachedWorld else None)
  ∧ storedCopy (url (apiRequest "GET"))
      (run (onFetch (apiRequest "GET")) sampleHost cachedWorld)
    = storedCopy (url (apiRequest "GET")) cachedWorld.
Proof.
  apply (C7_network_first sampleHost cachedWorld (apiRequest "GET")); reflexivity.
Defined.

(** In the sample world the copy a failed [GET] gets is the stored response. *)
Example offline_get_served_from_cache :
  result (onFetch (apiRequest "GET")) sampleHost cachedWorld = inr (Some okResponse).
Proof. by vm_compute. Qed.

(** ** Ingestion *)

(** [saveToStore] on an object without an [id]. *)
Lemma saveToStore_new h w d st storeName props :
  open (database w) = inr d →
  IDB.objectStores d !! storeName = Some st →
  fresh st →
  assoc "id" props = None →
  saveToStore storeName (VObj props) h w
  = (inr (VNum (IDB.keyGenerator st), VObj (stamped (Date_now (clock h)) props)),
     set_database
       {| IDB.version := IDB.version d;
          IDB.objectStores :=
            <[storeName := appended st (stamped (Date_now (clock h)) props)]>
              (IDB.objectStores d) |} w).
Proof.
  intros Hopen Hst (Hkp & Hauto & Hroom & Hfree) Hid.
  apply Z.ltb_ge in Hroom.
  assert (Hid' : assoc "id" (stamped (Date_now (clock h)) props) = None).
  { unfold stamped. destruct (truthy _); [done |]. by rewrite assoc_set_ne. }
  unfold saveToStore, objectStore, commit, Date_dot_now. munfold.
  rewrite initDB_spec, Hopen. cbn [database set_database fst snd]. rewrite Hst.
  unfold get, JS.set. fold (stamped (Date_now (clock h)) props).
  destruct (truthy (default VUndefined (assoc "timestamp" props))) eqn:Hts;
    cbn [negb];
    unfold stamped in *; rewrite Hts in *;
    unfold IDB.store_record, IDB.extract_key, IDB.inject_key, appended;
    rewrite Hkp, Hid', Hauto, Hroom, Hfree; reflexivity.
Qed.

(** C3, as stated, fails twice.  An element with a [value] field but neither
    a [steps] field nor the type [steps] yields no Steps record; it is stored
    as a HealthData record.  And the date an element without one gets is not
    the local calendar date: at 23:30 UTC on 2024-01-01 ([eveningClock], whose
    [toISOString] is the one of its [Date.now()]), on a host one hour east of
    Greenwich ([getTimezoneOffset()] is -60) the local date is 2024-01-02,
    and the record is dated 2024-01-01. *)
Lemma C3_value_only_and_local_date :
  (let w' := run (processHealthData (VObj [("value", VNum 5)])) sampleHost initial in
   collection STORES.STEPS w' = []
   ∧ collection STORES.HEALTH_DATA w'
     = [VObj [("value", VNum 5); ("timestamp", VNum 1704103200000); ("id", VNum 1)]])
  ∧ (let w' := run (processHealthData (VObj [("steps", VNum 5)])) eveningHost initial in
     today eveningClock = calendarDate (Date_now eveningClock)
     ∧ localDate (-60) eveningClock = "2024-01-02"
     ∧ collection STORES.STEPS w'
       = [VObj [("date", VStr "2024-01-01"); ("steps", VNum 5);
                ("source", VStr "shared"); ("metadata", VObj []);
                ("timestamp", VNum 1704151800000); ("id", VNum 1)]]).
Proof. by vm_compute. Qed.

(** A [steps] field that is present but falsy gives way to [value]. *)
Example zero_steps_gives_way_to_value :
  collection STORES.STEPS
    (run (processHealthData (VObj [("steps", VNum 0); ("value", VNum 5);
                                   ("date", VStr "2023-12-31")]))
         sampleHost initial)
  = [VObj [("date", VStr "2023-12-31"); ("steps", VNum 5); ("source", VStr "shared");
           ("metadata", VObj []); ("timestamp", VNum 1704103200000); ("id", VNum 1)]].
Proof. by vm_compute. Qed.

Lemma open_version d d' : open d = inr d' → IDB.version d' = DB_VERSION.
Proof.
  unfold open. destruct (IDB.version d <? DB_VERSION) eqn:Hlt.
  - by intros [= <-].
  - destruct (DB_VERSION <? IDB.version d) eqn:Hgt; [done |]. intros [= <-].
    apply Z.ltb_ge in Hlt, Hgt. lia.
Qed.

Lemma open_at_version d :
  IDB.version d = DB_VERSION → open d = inr d.
Proof. intros Hv. unfold open. by rewrite Hv. Qed.

(** [processHealthData] on a payload of one element. *)
Lemma processHealthData_single props h w r w1 :
  processItem (VObj props) h w = (inr r, w1) →
  processHealthData (VObj props) h w = (inr [r], opened w1).
Proof.
  intros Hitem. unfold processHealthData. cbn [for_of]. munfold. rewrite Hitem.
  cbn [fst snd]. by rewrite updateQuestProgress_noop.
Qed.

(** C3, amended: a payload that is not an array is treated as the array of
    that one element.  For an element that is an object, with the stores
    ready (each keyed by a generated [id], its key generator not past 2^53):
    if its type is [steps] or its [steps] field is defined, one record is
    added to the Steps collection, whose date is the element's, or the UTC
    date of the clock when that is missing or falsy, whose steps are the
    [steps] field, or else the [value] field, or else 0, whose source is the
    element's or else [shared], and whose metadata is the element's or else
    the empty object (each [or else] on a missing or falsy value), with the
    time of the insert and the generated [id]; the HealthData collection is
    not touched.  Any other element, when it has no [id] of its own, is added
    to the HealthData collection as it is, plus the time of the insert if it
    has no [timestamp], plus the generated [id]; the Steps collection is not
    touched.  This is what the turn of the loop on the element does ([w1]),
    and what [processHealthData] leaves for the payload of that one element
    ([w']). *)
Theorem C3_element_normalised h w d steps health props :
  open (database w) = inr d →
  IDB.objectStores d !! STORES.STEPS = Some steps →
  fresh steps →
  IDB.objectStores d !! STORES.HEALTH_DATA = Some health →
  fresh health →
  let field k := default VUndefined (assoc k props) in
  let now := Date_now (clock h) in
  let w1 := run (processItem (VObj props)) h w in
  let w' := run (processHealthData (VObj props)) h w in
  processHealthData (VObj props) = processHealthData (VArr [VObj props])
  ∧ if strict_eq_str (field "type") "steps" || negb (is_undefined (field "steps"))
    then
      collection STORES.STEPS w1
      = IDB.getAll (appended steps
          [("date", or_else (field "date") (VStr (today (clock h))));
           ("steps", or_else (or_else (field "steps") (field "value")) (VNum 0));
           ("source", or_else (field "source") (VStr "shared"));
           ("metadata", or_else (field "metadata") (VObj []));
           ("timestamp", VNum now)])
      ∧ collection STORES.HEALTH_DATA w1 = IDB.getAll health
      ∧ ∀ name, collection name w' = collection name w1
    else
      assoc "id" props = None →
      collection STORES.HEALTH_DATA w1 = IDB.getAll (appended health (stamped now props))
      ∧ collection STORES.STEPS w1 = IDB.getAll steps
      ∧ ∀ name, collection name w' = collection name w1.
Proof.
  intros Hopen Hsteps Hfs Hhealth Hfh field now w1 w'.
  split; [reflexivity |].
  pose proof (open_version _ _ Hopen) as Hv.
  assert (Hfinal : ∀ r name st',
    processItem (VObj props) h w
    = (inr r, set_database
                {| IDB.version := IDB.version d;
                   IDB.objectStores := <[name := st']> (IDB.objectStores d) |} w) →
    (∀ name', collection name' w1
              = match <[name := st']> (IDB.objectStores d) !! name' with
                | Some st => IDB.getAll st
                | None => []
                end)
    ∧ ∀ name', collection name' w' = collection name' w1).
  { intros r name st' Hitem. subst w1 w'. unfold run.
    rewrite (processHealthData_single _ _ _ _ _ Hitem), Hitem. cbn [snd].
    split; [done |]. intros name'.
    unfold opened. cbn [database set_database]. by rewrite open_at_version. }
  assert (Hsteps_item :
    strict_eq_str (field "type") "steps" || negb (is_undefined (field "steps")) = true →
    processItem (VObj props) h w
    = (inr (VObj props),
       (saveToStore STORES.STEPS
          (VObj [("date", or_else (field "date") (VStr (today (clock h))));
                 ("steps", or_else (or_else (field "steps") (field "value")) (VNum 0));
                 ("source", or_else (field "source") (VStr "shared"));
                 ("metadata", or_else (field "metadata") (VObj []))]) h w).2)).
  { intros Hcond. unfold processItem, isStepsItem, stepsRecord. munfold. unfold get.
    fold (field "type") (field "steps") (field "date") (field "value")
      (field "source") (field "metadata").
    rewrite Hcond. cbn [fst snd]. by erewrite saveToStore_new by done. }
  assert (Hother_item :
    strict_eq_str (field "type") "steps" || negb (is_undefined (field "steps")) = false →
    assoc "id" props = None →
    processItem (VObj props) h w
    = (inr (VObj (stamped now props)),
       (saveToStore STORES.HEALTH_DATA (VObj props) h w).2)).
  { intros Hcond Hid. unfold processItem, isStepsItem. munfold. unfold get.
    fold (field "type") (field "steps"). rewrite Hcond. cbn [fst snd].
    by erewrite saveToStore_new by done. }
  destruct (strict_eq_str (field "type") "steps" || negb (is_undefined (field "steps"))).
  - specialize (Hsteps_item eq_refl). erewrite saveToStore_new in Hsteps_item by done.
    cbn [snd] in Hsteps_item. destruct (Hfinal _ _ _ Hsteps_item) as [Hone Hall].
    rewrite !Hone. rewrite lookup_insert_eq, lookup_insert_ne, Hhealth by done. done.
  - intros Hid. specialize (Hother_item eq_refl Hid).
    erewrite saveToStore_new in Hother_item by done.
    cbn [snd] in Hother_item. destruct (Hfinal _ _ _ Hother_item) as [Hone Hall].
    rewrite !Hone. rewrite lookup_insert_eq, lookup_insert_ne, Hsteps by done. done.
Qed.

Lemma C3_element_normalised_witness :
  let w1 := run (processItem (VObj typedItem)) sampleHost initial in
  let w' := run (processHealthData (VObj typedItem)) sampleHost initial in
  processHealthData (VObj typedItem) = processHealthData (VArr [VObj typedItem])
  ∧ collection STORES.STEPS w1
    = IDB.getAll (appended (emptyStore [("date", "date"); ("timestamp", "timestamp")])
        [("date", VStr "2024-01-01"); ("steps", VNum 4200); ("source", VStr "shared");
         ("metadata", VObj []); ("timestamp", VNum 1704103200000)])
  ∧ collection STORES.HEALTH_DATA w1
    = IDB.getAll (emptyStore [("type", "type"); ("date", "date")])
  ∧ ∀ name, collection name w' = collection name w1.
Proof.
  apply (C3_element_normalised sampleHost initial
           (database (run initDB sampleHost initial))
           (emptyStore [("date", "date"); ("timestamp", "timestamp")])
           (emptyStore [("type", "type"); ("date", "date")]) typedItem).
  - vm_compute. reflexivity.
  - vm_compute. reflexivity.
  - repeat split; (reflexivity || by vm_compute).
  - vm_compute. reflexivity.
  - repeat split; (reflexivity || by vm_compute).
Defined.

(** The sample text through the share target: one Steps record is stored. *)
Example shared_csv_stores_one_record :
  collection STORES.STEPS
    (run (onFetch {| method := "POST"; url := "https://quest.example/share-data";
                     requestBody := Form [("text", Field csvSample)] |})
         sampleHost initial)
  = [VObj [("date", VStr "2024-01-02"); ("steps", VNum 750); ("source", VStr "shared");
           ("metadata", VObj []); ("timestamp", VNum 1704103200000); ("id", VNum 1)]].
Proof. by vm_compute. Qed.

(** ** What every handler preserves *)

Section Moves.

Context (R : World → World → Prop) `{!PreOrder R}.

Lemma moves_ret {A} (a : A) : moves R (mret a).
Proof. intros h w. reflexivity. Qed.

Lemma moves_bind {A B} (m : M A) (f : A → M B) :
  moves R m → (∀ a, moves R (f a)) → moves R (m ≫= f).
Proof.
  intros Hm Hf h w. unfold mbind, M_bind.
  specialize (Hm h w). destruct (m h w) as [[e | a] w1]; [done |].
  simpl in Hm. etrans; [exact Hm |]. apply Hf.
Qed.

Lemma moves_fmap {A B} (g : A → B) (m : M A) : moves R m → moves R (g <$> m).
Proof.
  intros Hm h w. unfold fmap, M_fmap. specialize (Hm h w).
  by destruct (m h w) as [[e | a] w1].
Qed.

Lemma moves_lift {A} (r : error + A) : moves R (lift r).
Proof. intros h w. reflexivity. Qed.

Lemma moves_throw {A} (e : error) : moves R (throw e : M A).
Proof. intros h w. reflexivity. Qed.

Lemma moves_ask : moves R ask.
Proof. intros h w. reflexivity. Qed.

Lemma moves_gets {A} (f : World → A) : moves R (gets f).
Proof. intros h w. reflexivity. Qed.

Lemma moves_modify (f : World → World) : (∀ w, R w (f w)) → moves R (modify f).
Proof. intros Hf h w. apply Hf. Qed.

Lemma moves_try_catch {A} (body : M A) (handler : error → M A) :
  moves R body → (∀ e, moves R (handler e)) → moves R (try_catch body handler).
Proof.
  intros Hb Hh h w. unfold try_catch. specialize (Hb h w).
  destruct (body h w) as [[e | a] w1]; [| done].
  simpl in Hb. destruct e; try (etrans; [exact Hb |]; apply Hh). done.
Qed.

Lemma moves_detached {A} (m : M A) : moves R m → moves R (detached m).
Proof.
  intros Hm. apply moves_try_catch.
  - apply moves_bind; [done |]. intros _. apply moves_ret.
  - intros _. apply moves_ret.
Qed.

Lemma moves_for_of {A} (xs : list A) (f : A → M A) :
  (∀ x, moves R (f x)) → moves R (for_of xs f).
Proof.
  intros Hf. induction xs as [| x xs IH]; simpl; [apply moves_ret |].
  apply moves_bind; [apply Hf |]. intros x'.
  apply moves_bind; [apply IH |]. intros xs'. apply moves_ret.
Qed.

Lemma moves_Promise_all_map {A} (xs : list A) (f : A → M unit) :
  (∀ x, moves R (f x)) → moves R (Promise_all_map xs f).
Proof.
  intros Hf. induction xs as [| x xs IH]; simpl; [apply moves_ret |].
  apply moves_bind; [apply Hf |]. intros _. apply IH.
Qed.

(** The relation only looks at the database, the database is related to
    itself once opened, and an insert keeps the relation. *)
Hypothesis R_database : ∀ w w', database w' = database w → R w w'.
Hypothesis R_opened : ∀ w, R w (opened w).
Hypothesis R_saveToStore : ∀ storeName data, moves R (saveToStore storeName data).

Lemma moves_initDB : moves R initDB.
Proof.
  intros h w. rewrite initDB_spec. specialize (R_opened w). unfold opened in *.
  by destruct (open (database w)).
Qed.

Lemma moves_objectStore storeName : moves R (objectStore storeName).
Proof. intros h w. unfold objectStore. by case_match. Qed.

Lemma moves_getAllFromStore storeName : moves R (getAllFromStore storeName).
Proof.
  unfold getAllFromStore. apply moves_bind; [apply moves_initDB |]. intros _.
  apply moves_bind; [apply moves_objectStore |]. intros st. apply moves_ret.
Qed.

Lemma moves_getStepsByDateRange startDate endDate :
  moves R (getStepsByDateRange startDate endDate).
Proof.
  intros h w. unfold getStepsByDateRange.
  destruct (getStepsByDateRange_throws h w startDate endDate) as (e & -> & _).
  apply R_opened.
Qed.

Lemma moves_updateQuestProgress : moves R updateQuestProgress.
Proof. intros h w. rewrite updateQuestProgress_noop. apply R_opened. Qed.

Lemma moves_database (f : World → World) :
  (∀ w, database (f w) = database w) → moves R (modify f).
Proof. intros Hf. apply moves_modify. intros w. by apply R_database. Qed.

Ltac same_database :=
  let w := fresh "w" in intros w; repeat case_match; reflexivity.

Lemma moves_Date_now : moves R Date_dot_now.
Proof. intros h w. reflexivity. Qed.

Ltac moves_with known :=
  repeat first
    [ known
    | apply moves_ret | apply moves_lift | apply moves_throw | apply moves_ask
    | apply moves_gets | apply moves_Date_now
    | apply R_saveToStore | apply moves_initDB | apply moves_getAllFromStore
    | apply moves_getStepsByDateRange | apply moves_updateQuestProgress
    | apply moves_database; same_database
    | apply moves_bind | apply moves_fmap | apply moves_try_catch
    | apply moves_detached | apply moves_for_of | apply moves_Promise_all_map
    | lazymatch goal with |- ∀ _, _ => intro end
    | lazymatch goal with |- moves _ (match _ with _ => _ end) => case_match end ].

Ltac moves_auto := moves_with fail.

Lemma moves_processHealthData healthData : moves R (processHealthData healthData).
Proof. unfold processHealthData, processItem. moves_auto. Qed.

Lemma moves_handleSharedData request : moves R (handleSharedData request).
Proof.
  unfold handleSharedData, formData, fromText, parseShared, broadcast.
  moves_with ltac:(apply moves_processHealthData).
Qed.

Lemma moves_handleHealthAPI request : moves R (handleHealthAPI request).
Proof. unfold handleHealthAPI, json. moves_auto. Qed.

Lemma moves_onFetch request : moves R (onFetch request).
Proof.
  unfold onFetch, caches_open, cache_put, cache_match.
  moves_with ltac:(first [apply moves_handleSharedData | apply moves_handleHealthAPI]).
Qed.

Lemma moves_onMessage data : moves R (onMessage data).
Proof. unfold onMessage, scheduleNotification. moves_auto. Qed.

Lemma moves_onSync tag : moves R (onSync tag).
Proof. unfold onSync, syncQuests, syncHabits, syncHealthData, broadcast. moves_auto. Qed.

Lemma moves_onPeriodicSync tag : moves R (onPeriodicSync tag).
Proof.
  unfold onPeriodicSync, checkDailyQuests, syncHealthData, broadcast.
  moves_auto.
Qed.

Lemma moves_onActivate : moves R onActivate.
Proof. unfold onActivate, caches_delete. moves_auto. Qed.

(** Every event keeps the relation. *)
Lemma moves_handle e : moves R (handle e).
Proof.
  destruct e; simpl.
  - apply moves_detached, moves_onFetch.
  - apply moves_onMessage.
  - apply moves_detached, moves_onSync.
  - apply moves_detached, moves_onPeriodicSync.
  - apply moves_detached, moves_onActivate.
Qed.

End Moves.

(** ** Stored records are never changed or removed *)

#[local] Instance keeps_preorder : PreOrder keeps.
Proof.
  split.
  - intros w name st k v Hst Hk. eauto.
  - intros w1 w2 w3 H12 H23 name st k v Hst Hk.
    destruct (H12 _ _ _ _ Hst Hk) as (st2 & Hst2 & Hk2). eauto.
Qed.

Lemma key_compare_eq k k' : IDB.key_compare k k' = Eq → k = k'.
Proof.
  destruct k as [n | s], k' as [n' | s']; simpl; try discriminate.
  - by intros ->%Z.compare_eq.
  - by intros ->%String.compare_eq_iff.
Qed.

Lemma find_put_record_ne k k' v rs :
  k' ≠ k → IDB.find_record k' (IDB.put_record k v rs) = IDB.find_record k' rs.
Proof.
  intros Hne.
  assert (Hcmp : ∀ k0, k0 = k → IDB.key_compare k' k0 ≠ Eq).
  { intros k0 -> E. by apply key_compare_eq in E. }
  induction rs as [| [k1 v1] rs IH]; simpl.
  - by destruct (IDB.key_compare k' k) eqn:E; [destruct (Hcmp k) | |].
  - destruct (IDB.key_compare k k1) eqn:E1; simpl.
    + apply key_compare_eq in E1 as <-.
      by destruct (IDB.key_compare k' k) eqn:E; [destruct (Hcmp k) | |].
    + by destruct (IDB.key_compare k' k) eqn:E; [destruct (Hcmp k) | |].
    + by rewrite IH.
Qed.

(** An insert ([add]) leaves every record of the store where it was. *)
Lemma add_keeps_records v st k st' k0 v0 :
  IDB.store_record false v st = inr (k, st') →
  IDB.find_record k0 (IDB.records st) = Some v0 →
  IDB.find_record k0 (IDB.records st') = Some v0.
Proof.
  unfold IDB.store_record. intros Hadd Hfind.
  assert (Hput : ∀ k1 v1, IDB.find_record k1 (IDB.records st) = None →
            IDB.find_record k0 (IDB.put_record k1 v1 (IDB.records st)) = Some v0).
  { intros k1 v1 Hnone. rewrite find_put_record_ne; [done |]. congruence. }
  destruct (IDB.extract_key _ _) as [e | [k1 |]]; [done | |].
  - simpl in Hadd. case_bool_decide as Hdup; [done |].
    injection Hadd as <- <-. simpl. apply Hput.
    by apply eq_None_not_Some.
  - destruct (IDB.autoIncrement st); [| done].
    destruct (IDB.inject_key _ _ _) as [e | v']; [done |].
    destruct (IDB.MAX_KEY <? IDB.keyGenerator st); [done |].
    simpl in Hadd. case_bool_decide as Hdup; [done |].
    injection Hadd as <- <-. simpl. apply Hput.
    by apply eq_None_not_Some.
Qed.

Lemma upgrade_store_keeps stores storeName name st :
  stores !! name = Some st → upgrade_store stores storeName !! name = Some st.
Proof.
  intros Hst. unfold upgrade_store. case_bool_decide as Hin; [done |].
  rewrite lookup_insert_ne; [done |].
  intros ->. apply Hin. by rewrite Hst.
Qed.

Lemma onupgradeneeded_keeps stores name st :
  stores !! name = Some st → onupgradeneeded stores !! name = Some st.
Proof.
  unfold onupgradeneeded. generalize STORES.values. intros names.
  revert stores. induction names as [| n names IH]; intros stores Hst; [done |].
  simpl. by apply IH, upgrade_store_keeps.
Qed.

Lemma keeps_opened w : keeps w (opened w).
Proof.
  unfold opened, open.
  destruct (IDB.version (database w) <? DB_VERSION).
  - intros name st k v Hst Hk. simpl. eauto using onupgradeneeded_keeps.
  - destruct (DB_VERSION <? IDB.version (database w)); [reflexivity |].
    intros name st k v Hst Hk. simpl. eauto.
Qed.

Lemma keeps_saveToStore storeName data : moves keeps (saveToStore storeName data).
Proof.
  intros h w. unfold saveToStore, objectStore, commit, Date_dot_now. munfold.
  rewrite initDB_spec. pose proof (keeps_opened w) as Hopened. unfold opened in Hopened.
  destruct (open (database w)) as [e | d]; [done |].
  cbn [database set_database fst snd].
  destruct (IDB.objectStores d !! storeName) as [st |] eqn:Hst; [| done].
  destruct (get data "timestamp") as [e | ts]; [done |]. simpl.
  assert (Hfinal : ∀ data',
    keeps w (match IDB.store_record false data' st with
             | inl e => (inl e : error + (value * value), set_database d w)
             | inr (k, st') =>
                 (inr (IDB.key_value k, data'),
                  set_database
                    {| IDB.version := IDB.version d;
                       IDB.objectStores := <[storeName := st']> (IDB.objectStores d) |}
                    (set_database d w))
             end).2).
  { intros data'. destruct (IDB.store_record false data' st) as [e | [k st']] eqn:Hadd;
      [done |].
    etrans; [exact Hopened |]. intros name st0 k0 v0 Hst0 Hk0. simpl in *.
    destruct (decide (name = storeName)) as [-> | Hne].
    - rewrite lookup_insert_eq. eexists; split; [done |].
      rewrite Hst in Hst0. injection Hst0 as <-.
      by eapply add_keeps_records.
    - rewrite lookup_insert_ne by done. eauto. }
  destruct (truthy ts); simpl.
  - specialize (Hfinal data).
    by destruct (IDB.store_record false data st) as [e | [k st']].
  - destruct (JS.set data "timestamp" _) as [e | data']; [done |]. simpl.
    specialize (Hfinal data').
    by destruct (IDB.store_record false data' st) as [e | [k st']].
Qed.

(** X1. No event changes or removes a stored record: whatever a collection holds
    under a key before the event, it holds under that key after it. *)
Theorem records_never_changed e h w name st k v :
  IDB.objectStores (database w) !! name = Some st →
  IDB.find_record k (IDB.records st) = Some v →
  ∃ st', IDB.objectStores (database (run (handle e) h w)) !! name = Some st'
         ∧ IDB.find_record k (IDB.records st') = Some v.
Proof.
  intros Hst Hk.
  assert (Hkeeps : keeps w (run (handle e) h w)).
  { apply (moves_handle keeps); [| apply keeps_opened | apply keeps_saveToStore].
    intros w1 w2 Hdb name' st' k' v'. rewrite Hdb. eauto. }
  exact (Hkeeps _ _ _ _ Hst Hk).
Qed.

(** ** The database stays well formed *)

#[local] Instance stays_ok_preorder : PreOrder stays_ok.
Proof.
  split; [intros w H; exact H | intros w1 w2 w3 H12 H23 H; exact (H23 (H12 H))].
Qed.

Lemma key_compare_antisym k k' :
  IDB.key_compare k k' = CompOpp (IDB.key_compare k' k).
Proof.
  destruct k, k'; simpl; [apply Z.compare_antisym | done | done |].
  apply String.compare_antisym.
Qed.

Lemma key_compare_trans k1 k2 k3 :
  IDB.key_compare k1 k2 = Lt → IDB.key_compare k2 k3 = Lt →
  IDB.key_compare k1 k3 = Lt.
Proof.
  destruct k1, k2, k3; simpl; try done.
  - rewrite !Z.compare_lt_iff. lia.
  - intros H1 H2. apply OrderedTypeEx.String_as_OT.cmp_lt.
    eapply OrderedTypeEx.String_as_OT.lt_trans;
      by apply OrderedTypeEx.String_as_OT.cmp_lt.
Qed.

Lemma before_put_record k0 k v rs :
  before k0 rs → IDB.key_compare k0 k = Lt → before k0 (IDB.put_record k v rs).
Proof.
  destruct rs as [| [k1 v1] rs]; simpl; [done |].
  by destruct (IDB.key_compare k k1).
Qed.

Lemma ascending_put_record k v rs :
  ascending rs → ascending (IDB.put_record k v rs).
Proof.
  induction rs as [| [k1 v1] rs IH]; simpl; [done |].
  intros [Hhd Hrest]. destruct (IDB.key_compare k k1) eqn:E; simpl.
  - apply key_compare_eq in E as ->. done.
  - done.
  - split; [| by apply IH]. apply before_put_record; [done |].
    by rewrite key_compare_antisym, E.
Qed.

Lemma Forall_put_record (P : IDB.key * value → Prop) k v rs :
  Forall P rs → P (k, v) → Forall P (IDB.put_record k v rs).
Proof.
  intros Hrs Hkv. induction Hrs as [| [k1 v1] rs H1 Hrs IH]; simpl.
  - by constructor.
  - destruct (IDB.key_compare k k1); repeat constructor; done.
Qed.

Lemma record_ok_mono gen gen' kv : gen ≤ gen' → record_ok gen kv → record_ok gen' kv.
Proof.
  intros Hle [Hkey Hid]. split; [| done]. destruct kv.1; [lia | done].
Qed.

Lemma key_of_Some x k : IDB.key_of x = Some k → x = IDB.key_value k.
Proof. destruct x; simpl; intros [= <-]; done. Qed.

(** Storing a record, by [add] or by [put], keeps a store well formed and
    its indexes as they are. *)
Lemma store_record_ok overwrite v st k st' :
  store_ok st →
  IDB.store_record overwrite v st = inr (k, st') →
  store_ok st' ∧ IDB.indexes st' = IDB.indexes st.
Proof.
  intros (Hkp & Hauto & Hasc & Hrs). unfold IDB.store_record, IDB.extract_key.
  rewrite Hkp, Hauto.
  assert (Hbuild : ∀ gen k1 v1,
    IDB.keyGenerator st ≤ gen → record_ok gen (k1, v1) →
    store_ok (IDB.with_records st gen (IDB.put_record k1 v1 (IDB.records st)))
    ∧ IDB.indexes (IDB.with_records st gen (IDB.put_record k1 v1 (IDB.records st)))
      = IDB.indexes st).
  { intros gen k1 v1 Hgen Hnew. split; [| done].
    split; [done |]. split; [done |]. split; simpl.
    - by apply ascending_put_record.
    - apply Forall_put_record; [| done].
      eapply Forall_impl; [exact Hrs |]. intros kv. by apply record_ok_mono. }
  assert (Hgenerated : ∀ v',
    match v' with VObj props => assoc "id" props = Some (VNum (IDB.keyGenerator st))
             | _ => True end →
    (if IDB.MAX_KEY <? IDB.keyGenerator st then inl ConstraintError
     else if negb overwrite
             && bool_decide (is_Some (IDB.find_record (IDB.KNum (IDB.keyGenerator st))
                                        (IDB.records st)))
     then inl ConstraintError
     else inr (IDB.KNum (IDB.keyGenerator st),
               IDB.with_records st (IDB.keyGenerator st + 1)
                 (IDB.put_record (IDB.KNum (IDB.keyGenerator st)) v' (IDB.records st))))
    = inr (k, st') → store_ok st' ∧ IDB.indexes st' = IDB.indexes st).
  { intros v' Hv' H. destruct (IDB.MAX_KEY <? IDB.keyGenerator st); [done |].
    case_match; [done |]. injection H as <- <-.
    apply Hbuild; [lia |]. split; simpl; [lia | done]. }
  destruct v as [| | | | | | elems | props]; simpl; try done.
  { by apply Hgenerated. }
  destruct (assoc "id" props) as [x |] eqn:Hid;
    [| apply Hgenerated; by rewrite assoc_set_eq].
  destruct x as [| | | n | | s | |]; simpl; try done.
  - apply Hgenerated. by rewrite assoc_set_eq.
  - intros H; case_match; [done |]; injection H as <- <-.
    unfold IDB.bump. rewrite Hauto. simpl.
    apply Hbuild;
      [destruct (Z.leb_spec (IDB.keyGenerator st) (Z.min n IDB.MAX_KEY)); lia |].
    split; simpl; [| done].
    destruct (Z.leb_spec (IDB.keyGenerator st) (Z.min n IDB.MAX_KEY)); lia.
  - intros H; case_match; [done |]; injection H as <- <-.
    apply Hbuild; [simpl; lia |]. by split.
Qed.

Lemma schema_stores :
  schema
  = list_to_map
      [ ("steps", emptyStore [("date", "date"); ("timestamp", "timestamp")]);
        ("healthData", emptyStore [("type", "type"); ("date", "date")]);
        ("quests", emptyStore [("category", "category"); ("status", "status")]);
        ("habits", emptyStore []);
        ("achievements", emptyStore []) ].
Proof. vm_compute. reflexivity. Qed.

Lemma schema_lookup name st0 :
  schema !! name = Some st0 → name ∈ STORES.values ∧ ∃ ixs, st0 = emptyStore ixs.
Proof.
  rewrite schema_stores. cbn [list_to_map foldr uncurry fst snd]. intros H.
  repeat (apply lookup_insert_Some in H as [[<- <-] | [_ H]];
          [split; [set_solver | eauto] |]).
  by rewrite lookup_empty in H.
Qed.

Lemma schema_has name : name ∈ STORES.values → is_Some (schema !! name).
Proof.
  intros Hin. rewrite schema_stores. cbn [list_to_map foldr uncurry fst snd].
  unfold STORES.values in Hin.
  repeat (apply elem_of_cons in Hin as [-> | Hin]; [vm_compute; eauto |]).
  by apply elem_of_nil in Hin.
Qed.

Lemma emptyStore_ok ixs : store_ok (emptyStore ixs).
Proof. repeat split; constructor. Qed.

Lemma db_ok_stores d name :
  db_ok d → IDB.version d = DB_VERSION →
  match IDB.objectStores d !! name, schema !! name with
  | Some st, Some st0 => IDB.indexes st = IDB.indexes st0 ∧ store_ok st
  | None, None => True
  | _, _ => False
  end.
Proof. intros [-> | [_ H]] Hv; [done | apply H]. Qed.

(** A well-formed database opens, to a well-formed database at the current
    version. *)
Lemma db_ok_open d :
  db_ok d → ∃ d', open d = inr d' ∧ db_ok d' ∧ IDB.version d' = DB_VERSION.
Proof.
  intros [-> | [Hv Hstores]].
  - eexists. split; [reflexivity |]. split; [| done]. right. split; [done |].
    intros name. change (IDB.objectStores _) with schema.
    destruct (schema !! name) as [st0 |] eqn:Hst0; [| done].
    split; [done |]. apply schema_lookup in Hst0 as (_ & ixs & ->).
    apply emptyStore_ok.
  - exists d. unfold open. rewrite Hv. split; [done |]. split; [by right | done].
Qed.

Lemma stays_ok_opened w : stays_ok w (opened w).
Proof.
  intros Hok. unfold opened. destruct (db_ok_open _ Hok) as (d' & -> & Hok' & _).
  done.
Qed.

Lemma db_ok_commit d storeName st st' :
  db_ok d → IDB.version d = DB_VERSION →
  IDB.objectStores d !! storeName = Some st →
  store_ok st' → IDB.indexes st' = IDB.indexes st →
  db_ok {| IDB.version := IDB.version d;
           IDB.objectStores := <[storeName := st']> (IDB.objectStores d) |}.
Proof.
  intros Hok Hv Hst Hst' Hix. right. split; [done |]. intros name.
  cbn [IDB.objectStores].
  pose proof (db_ok_stores d name Hok Hv) as Hname.
  destruct (decide (name = storeName)) as [-> | Hne].
  - rewrite lookup_insert_eq. rewrite Hst in Hname.
    destruct (schema !! storeName); [| done]. destruct Hname as [<- _]. done.
  - by rewrite lookup_insert_ne.
Qed.

Lemma stays_ok_saveToStore storeName data : moves stays_ok (saveToStore storeName data).
Proof.
  intros h w Hok. unfold saveToStore, objectStore, commit, Date_dot_now. munfold.
  rewrite initDB_spec. destruct (db_ok_open _ Hok) as (d & -> & Hd & Hv).
  cbn [database set_database fst snd].
  destruct (IDB.objectStores d !! storeName) as [st |] eqn:Hst; [| done].
  pose proof (db_ok_stores d storeName Hd Hv) as Hname. rewrite Hst in Hname.
  assert (Hst_ok : store_ok st) by (destruct (schema !! storeName); [tauto | done]).
  assert (Hfinal : ∀ data',
    db_ok (database
      (match IDB.store_record false data' st with
       | inl e => (inl e : error + (value * value), set_database d w)
       | inr (k, st') =>
           (inr (IDB.key_value k, data'),
            set_database
              {| IDB.version := IDB.version d;
                 IDB.objectStores := <[storeName := st']> (IDB.objectStores d) |}
              (set_database d w))
       end).2)).
  { intros data'.
    destruct (IDB.store_record false data' st) as [e | [k st']] eqn:Hadd; [done |].
    destruct (store_record_ok _ _ _ _ _ Hst_ok Hadd) as [Hst' Hix].
    by eapply db_ok_commit. }
  destruct (get data "timestamp") as [e | ts]; [done |]. simpl.
  destruct (truthy ts); simpl.
  - specialize (Hfinal data).
    by destruct (IDB.store_record false data st) as [e | [k st']].
  - destruct (JS.set data "timestamp" _) as [e | data']; [done |]. simpl.
    specialize (Hfinal data').
    by destruct (IDB.store_record false data' st) as [e | [k st']].
Qed.

(** The database of every world the worker reaches is well formed. *)
Lemma reachable_db_ok w : reachable w → db_ok (database w).
Proof.
  induction 1 as [| w c _ IH | w h e _ IH]; [by left | done |].
  revert IH. apply (moves_handle stays_ok).
  - intros w1 w2 Hdb. unfold stays_ok. by rewrite Hdb.
  - apply stays_ok_opened.
  - apply stays_ok_saveToStore.
Qed.

Lemma find_record_elem k v rs : IDB.find_record k rs = Some v → (k, v) ∈ rs.
Proof.
  induction rs as [| [k1 v1] rs IH]; simpl; [done |].
  destruct (IDB.key_compare k k1) eqn:E.
  - apply key_compare_eq in E as <-. intros [= <-]. left.
  - intros H. right. by apply IH.
  - intros H. right. by apply IH.
Qed.

Lemma ascending_all_before k1 v1 rest k v :
  ascending ((k1, v1) :: rest) → (k, v) ∈ rest → IDB.key_compare k1 k = Lt.
Proof.
  revert k1 v1. induction rest as [| [k2 v2] rest IH]; intros k1 v1 [Hhd Hrest] Hin.
  - by apply elem_of_nil in Hin.
  - simpl in Hhd. apply elem_of_cons in Hin as [[= -> ->] | Hin]; [done |].
    eapply key_compare_trans; [exact Hhd |]. by eapply IH.
Qed.

(** In ascending records a key leads to the one record filed under it. *)
Lemma elem_find_record k v rs :
  ascending rs → (k, v) ∈ rs → IDB.find_record k rs = Some v.
Proof.
  induction rs as [| [k1 v1] rs IH]; intros Hasc Hin.
  - by apply elem_of_nil in Hin.
  - simpl. apply elem_of_cons in Hin as [[= -> ->] | Hin].
    + by rewrite key_compare_refl.
    + pose proof (ascending_all_before _ _ _ _ _ Hasc Hin) as Hlt.
      rewrite key_compare_antisym, Hlt. simpl. apply IH; [apply Hasc | done].
Qed.

Lemma store_ok_fresh st :
  store_ok st → IDB.keyGenerator st ≤ IDB.MAX_KEY → fresh st.
Proof.
  intros (Hkp & Hauto & _ & Hrs) Hroom. split; [done |]. split; [done |].
  split; [done |].
  apply eq_None_not_Some. intros [v Hv]. apply find_record_elem in Hv.
  rewrite Forall_forall in Hrs. destruct (Hrs _ Hv) as [Hlt _]. simpl in Hlt. lia.
Qed.

(** Once opened, a well-formed database has every store of the schema, its
    key generator where it stood. *)
Lemma db_ok_store w name :
  db_ok (database w) → name ∈ STORES.values →
  ∃ d st, open (database w) = inr d
          ∧ IDB.version d = DB_VERSION
          ∧ IDB.objectStores d !! name = Some st
          ∧ store_ok st
          ∧ IDB.keyGenerator st = nextKey name w.
Proof.
  intros Hw Hname. destruct (db_ok_open _ Hw) as (d & Hopen & Hd & Hv).
  pose proof (db_ok_stores d name Hd Hv) as Hst.
  destruct (schema_has name Hname) as [st0 Hst0]. rewrite Hst0 in Hst.
  destruct (IDB.objectStores d !! name) as [st |] eqn:E; [| done].
  exists d, st. split; [done |]. split; [done |]. split; [done |].
  split; [tauto |]. unfold nextKey. destruct Hw as [Habsent | [Hv' _]].
  - rewrite Habsent in *. cbn [IDB.objectStores IDB.absent]. rewrite lookup_empty.
    injection Hopen as <-. change (IDB.objectStores _ !! name) with (schema !! name) in E.
    rewrite Hst0 in E. injection E as <-.
    by apply schema_lookup in Hst0 as (_ & ixs & ->).
  - rewrite (open_at_version _ Hv') in Hopen. injection Hopen as <-. by rewrite E.
Qed.

Lemma reachable_store w name :
  reachable w → name ∈ STORES.values →
  ∃ d st, open (database w) = inr d
          ∧ IDB.version d = DB_VERSION
          ∧ IDB.objectStores d !! name = Some st
          ∧ store_ok st
          ∧ IDB.keyGenerator st = nextKey name w.
Proof. intros Hw. apply db_ok_store. by apply reachable_db_ok. Qed.

(** X2. The collections never change shape: in every world the worker reaches
    the database is either still unopened, or at version 1 with exactly the
    stores a first open creates, each with the key path, the auto-increment
    flag and the indexes it was created with. *)
Theorem schema_never_changes w h name :
  reachable w →
  database w = IDB.absent
  ∨ (IDB.version (database w) = 1
     ∧ (λ st, (IDB.keyPath st, IDB.autoIncrement st, IDB.indexes st))
         <$> IDB.objectStores (database w) !! name
       = (λ st, (IDB.keyPath st, IDB.autoIncrement st, IDB.indexes st))
         <$> IDB.objectStores (database (run initDB h initial)) !! name).
Proof.
  intros Hw. destruct (reachable_db_ok w Hw) as [Habsent | [Hv Hstores]]; [by left |].
  right. split; [done |]. specialize (Hstores name).
  change (IDB.objectStores (database (run initDB h initial))) with schema.
  destruct (IDB.objectStores (database w) !! name) as [st |],
           (schema !! name) as [st0 |] eqn:Hst0; try done.
  destruct Hstores as (Hix & Hkp & Hauto & _).
  apply schema_lookup in Hst0 as (_ & ixs & ->). simpl in *.
  by rewrite Hix, Hkp, Hauto.
Qed.

Lemma schema_never_changes_witness :
  database walkedWorld = IDB.absent
  ∨ (IDB.version (database walkedWorld) = 1
     ∧ (λ st, (IDB.keyPath st, IDB.autoIncrement st, IDB.indexes st))
         <$> IDB.objectStores (database walkedWorld) !! "quests"
       = (λ st, (IDB.keyPath st, IDB.autoIncrement st, IDB.indexes st))
         <$> IDB.objectStores (database (run initDB sampleHost initial)) !! "quests").
Proof.
  apply (schema_never_changes walkedWorld sampleHost "quests").
  repeat constructor.
Defined.

(** X3. The records of a collection are keyed by their [id]: in every world the
    worker reaches, a key holds one record only, an object record carries
    its key in its [id] field, and a numeric key is below the number the
    store will generate next, unless the key generator is exhausted, that
    is, has passed 2^53 (a key of 2^53 or more exhausts it). *)
Theorem records_keyed_by_id w name st k v :
  reachable w →
  IDB.objectStores (database w) !! name = Some st →
  (k, v) ∈ IDB.records st →
  (∀ v', (k, v') ∈ IDB.records st → v' = v)
  ∧ IDB.find_record k (IDB.records st) = Some v
  ∧ (∀ props, v = VObj props → assoc "id" props = Some (IDB.key_value k))
  ∧ (∀ n, k = IDB.KNum n →
          n < IDB.keyGenerator st ∨ IDB.MAX_KEY < IDB.keyGenerator st).
Proof.
  intros Hw Hst Hin.
  assert (Hok : store_ok st).
  { destruct (reachable_db_ok w Hw) as [Habsent | [Hv Hstores]].
    - by rewrite Habsent in Hst.
    - specialize (Hstores name). rewrite Hst in Hstores.
      destruct (schema !! name); [tauto | done]. }
  destruct Hok as (_ & _ & Hasc & Hrs).
  rewrite Forall_forall in Hrs. destruct (Hrs _ Hin) as [Hkey Hid]. simpl in *.
  split.
  { intros v' Hin'. apply (elem_find_record _ _ _ Hasc) in Hin, Hin'. congruence. }
  split; [by apply elem_find_record |].
  split; [by intros props -> |]. intros n ->. lia.
Qed.

Lemma records_keyed_by_id_witness :
  (∀ v', (IDB.KNum 1, v') ∈ [(IDB.KNum 1, VObj storedWalkQuest)]
         → v' = VObj storedWalkQuest)
  ∧ IDB.find_record (IDB.KNum 1) [(IDB.KNum 1, VObj storedWalkQuest)]
    = Some (VObj storedWalkQuest)
  ∧ (∀ props, VObj storedWalkQuest = VObj props
              → assoc "id" props = Some (IDB.key_value (IDB.KNum 1)))
  ∧ (∀ n, IDB.KNum 1 = IDB.KNum n → n < 2 ∨ IDB.MAX_KEY < 2).
Proof.
  apply (records_keyed_by_id questWorld "quests"
           {| IDB.keyPath := "id"; IDB.autoIncrement := true;
              IDB.indexes := [ {| IDB.index_name := "category";
                                  IDB.index_keyPath := "category";
                                  IDB.index_unique := false |};
                               {| IDB.index_name := "status";
                                  IDB.index_keyPath := "status";
                                  IDB.index_unique := false |} ];
              IDB.keyGenerator := 2;
              IDB.records := [(IDB.KNum 1, VObj storedWalkQuest)] |}
           (IDB.KNum 1) (VObj storedWalkQuest)).
  - repeat constructor.
  - vm_compute. reflexivity.
  - simpl. left.
Defined.

Lemma elem_put_record k v rs : (k, v) ∈ IDB.put_record k v rs.
Proof. apply find_record_elem, find_put_record. Qed.

(** X4. Insert and look up: in every world the worker reaches, while the key
    generator of the collection has not passed 2^53, [saveToStore] of an
    object without an [id] into one of the five collections succeeds; it
    returns the key the store generates next, which no record had, and
    [getFromStore] of that key then returns the object, with the time of the
    insert if it had no [timestamp] and the key as its [id]. *)
Theorem saveToStore_then_getFromStore w h h' name props :
  reachable w →
  name ∈ STORES.values →
  nextKey name w ≤ IDB.MAX_KEY →
  assoc "id" props = None →
  let data := stamped (Date_now (clock h)) props in
  let n := nextKey name w in
  let w' := run (saveToStore name (VObj props)) h w in
  result (saveToStore name (VObj props)) h w = inr (VNum n, VObj data)
  ∧ result (getFromStore name (VNum n)) h (opened w) = inr VUndefined
  ∧ result (getFromStore name (VNum n)) h' w'
    = inr (VObj (assoc_set "id" (VNum n) data)).
Proof.
  intros Hw Hname Hroom Hid data n w'. subst n.
  destruct (reachable_store w name Hw Hname) as (d & st & Hopen & Hv & Hst & Hok & Hgen).
  rewrite <- Hgen in *.
  pose proof (store_ok_fresh st Hok Hroom) as Hfresh.
  pose proof (saveToStore_new h w d st name props Hopen Hst Hfresh Hid) as Hsave.
  subst w'. unfold run, result. rewrite Hsave.
  split; [done |]. destruct Hfresh as (_ & _ & _ & Hfree).
  unfold getFromStore, objectStore. munfold. rewrite !initDB_spec.
  unfold opened. rewrite Hopen. cbn [database set_database fst snd].
  rewrite (open_idempotent _ _ Hopen). cbn [database set_database fst snd].
  rewrite Hst. simpl. rewrite Hfree. split; [done |].
  unfold open. cbn [IDB.version]. rewrite Hv. simpl.
  rewrite lookup_insert_eq. simpl. unfold appended. simpl.
  by rewrite find_put_record.
Qed.

Lemma saveToStore_then_getFromStore_witness :
  let data := stamped (Date_now (clock sampleHost)) [("name", VStr "stretch")] in
  let n := nextKey "habits" walkedWorld in
  let w' := run (saveToStore "habits" (VObj [("name", VStr "stretch")]))
                sampleHost walkedWorld in
  result (saveToStore "habits" (VObj [("name", VStr "stretch")])) sampleHost walkedWorld
  = inr (VNum n, VObj data)
  ∧ result (getFromStore "habits" (VNum n)) sampleHost (opened walkedWorld)
    = inr VUndefined
  ∧ result (getFromStore "habits" (VNum n)) sampleHost w'
    = inr (VObj (assoc_set "id" (VNum n) data)).
Proof.
  apply (saveToStore_then_getFromStore walkedWorld sampleHost sampleHost "habits"
           [("name", VStr "stretch")]).
  - repeat constructor.
  - vm_compute. repeat constructor.
  - by vm_compute.
  - reflexivity.
Defined.

(** ** The health API on a reachable world *)

Lemma set_database_same w : set_database (database w) w = w.
Proof. by destruct w. Qed.

Lemma reachable_opened w :
  reachable w → ∀ name, collection name (opened w) = collection name w.
Proof.
  intros Hw name. unfold opened, collection.
  destruct (reachable_db_ok w Hw) as [Habsent | [Hv _]].
  - rewrite Habsent. change (IDB.objectStores _ !! name) with (schema !! name) at 1.
    cbn [IDB.objectStores IDB.absent]. rewrite lookup_empty.
    destruct (schema !! name) as [st0 |] eqn:Hst0; [| done].
    by apply schema_lookup in Hst0 as (_ & ixs & ->).
  - unfold open. by rewrite Hv.
Qed.

Lemma getAllFromStore_reachable w h name :
  reachable w → name ∈ STORES.values →
  getAllFromStore name h w = (inr (collection name w), opened w).
Proof.
  intros Hw Hname. rewrite <- (reachable_opened w Hw name).
  destruct (reachable_store w name Hw Hname) as (d & st & Hopen & _ & Hst & _).
  unfold getAllFromStore, objectStore, collection, opened. munfold.
  rewrite initDB_spec, Hopen. cbn [database set_database fst snd]. by rewrite Hst.
Qed.

(** X5. [saveToStore] takes objects and arrays only: in a world the worker
    reaches, given anything else it fails, with a [TypeError] on [undefined]
    and [null] and a [DataError] on a boolean, a number or a string, and it
    does no more than open the database. *)
Theorem saveToStore_rejects_primitive w h name data :
  reachable w →
  name ∈ STORES.values →
  isObject data = false →
  saveToStore name data h w
  = (inl (match data with
          | VUndefined | VNull => TypeError "Cannot read properties: timestamp"
          | _ => DataError
          end),
     opened w).
Proof.
  intros Hw Hname Hdata.
  destruct (reachable_store w name Hw Hname) as (d & st & Hopen & _ & Hst & Hok & _).
  destruct Hok as (_ & Hauto & _).
  unfold saveToStore, objectStore, commit, Date_dot_now, opened. munfold.
  rewrite initDB_spec, Hopen. cbn [database set_database fst snd]. rewrite Hst.
  unfold IDB.store_record.
  destruct data; try discriminate Hdata; cbn; by rewrite ?Hauto.
Qed.

Lemma saveToStore_rejects_primitive_witness :
  saveToStore "steps" (VNum 4200) sampleHost walkedWorld
  = (inl DataError, opened walkedWorld).
Proof.
  apply (saveToStore_rejects_primitive walkedWorld sampleHost "steps" (VNum 4200)).
  - repeat constructor.
  - vm_compute. repeat constructor.
  - reflexivity.
Defined.

(** X6. An insert never overwrites: in a world the worker reaches, [saveToStore]
    of an object whose [id] is the key of a stored record fails with a
    [ConstraintError] and leaves the world as it was. *)
Theorem saveToStore_refuses_used_id w h name st k v props :
  reachable w →
  IDB.objectStores (database w) !! name = Some st →
  (k, v) ∈ IDB.records st →
  assoc "id" props = Some (IDB.key_value k) →
  saveToStore name (VObj props) h w = (inl ConstraintError, w).
Proof.
  intros Hw Hst Hin Hid.
  destruct (reachable_db_ok w Hw) as [Habsent | [Hv Hstores]];
    [by rewrite Habsent in Hst |].
  specialize (Hstores name). rewrite Hst in Hstores.
  assert (Hok : store_ok st) by (destruct (schema !! name); [tauto | done]).
  clear Hstores. destruct Hok as (Hkp & _ & Hasc & _).
  pose proof (elem_find_record _ _ _ Hasc Hin) as Hfind.
  assert (Hopen : open (database w) = inr (database w)).
  { unfold open. by rewrite Hv. }
  unfold saveToStore, objectStore, commit, Date_dot_now. munfold.
  rewrite initDB_spec, Hopen, set_database_same.
  cbn [fst snd]. rewrite Hst.
  assert (Hadd : ∀ props', assoc "id" props' = Some (IDB.key_value k) →
            IDB.store_record false (VObj props') st = inl ConstraintError).
  { intros props' Hid'. unfold IDB.store_record, IDB.extract_key.
    rewrite Hkp, Hid'.
    destruct k; cbn [IDB.key_value IDB.key_of]; rewrite Hfind;
      by rewrite bool_decide_eq_true_2 by eauto. }
  unfold get, JS.set.
  destruct (truthy (default VUndefined (assoc "timestamp" props))); simpl.
  - by rewrite Hadd.
  - rewrite Hadd; [done |]. rewrite assoc_set_ne; [done | discriminate].
Qed.

Lemma saveToStore_refuses_used_id_witness :
  saveToStore "quests" (VObj [("id", VNum 1); ("category", VStr "fitness")])
    sampleHost questWorld
  = (inl ConstraintError, questWorld).
Proof.
  apply (saveToStore_refuses_used_id questWorld sampleHost "quests"
           {| IDB.keyPath := "id"; IDB.autoIncrement := true;
              IDB.indexes := [ {| IDB.index_name := "category";
                                  IDB.index_keyPath := "category";
                                  IDB.index_unique := false |};
                               {| IDB.index_name := "status";
                                  IDB.index_keyPath := "status";
                                  IDB.index_unique := false |} ];
              IDB.keyGenerator := 2;
              IDB.records := [(IDB.KNum 1, VObj storedWalkQuest)] |}
           (IDB.KNum 1) (VObj storedWalkQuest)
           [("id", VNum 1); ("category", VStr "fitness")]).
  - repeat constructor.
  - vm_compute. reflexivity.
  - simpl. left.
  - reflexivity.
Defined.

Lemma getStepsByDateRange_reachable w h startDate endDate :
  reachable w →
  getStepsByDateRange startDate endDate h w
  = (inl (ReferenceError "storeName is not defined"), opened w).
Proof.
  intros Hw.
  destruct (reachable_store w STORES.STEPS Hw) as (d & st & Hopen & _ & Hst & _).
  { vm_compute. repeat constructor. }
  unfold getStepsByDateRange, getStepsByDateRange_in, objectStore, opened. munfold.
  rewrite initDB_spec, Hopen. cbn [database set_database fst snd]. by rewrite Hst.
Qed.

(** X7. In a world the worker reaches, a [GET] whose path contains [/steps] or
    [/health], without both a [startDate] and an [endDate], is answered 200
    with exactly the records of the collection, in key order, and stores
    nothing. *)
Theorem GET_lists_the_collection w h request :
  reachable w →
  method request = "GET" →
  Str.includes "/steps" (pathname (new_URL h (url request)))
  || Str.includes "/health" (pathname (new_URL h (url request))) = true →
  nonempty (searchParams_get "startDate" (searchParams (new_URL h (url request))))
  && nonempty (searchParams_get "endDate" (searchParams (new_URL h (url request))))
  = false →
  let name := readCollection (pathname (new_URL h (url request))) in
  handleHealthAPI request h w
  = (inr {| status := 200; headers := [("Content-Type", "application/json")];
            body := Json (VArr (collection name w)) |},
     opened w)
  ∧ ∀ storeName, collection storeName (opened w) = collection storeName w.
Proof.
  intros Hw Hget Hpath Hrange name. split; [| by apply reachable_opened].
  subst name. unfold handleHealthAPI, readCollection. munfold. cbn beta iota zeta.
  rewrite Hget. cbn [String.eqb Ascii.eqb Bool.eqb].
  destruct (Str.includes "/steps" _) eqn:Hsteps.
  - rewrite Hrange.
    rewrite (getAllFromStore_reachable w h STORES.STEPS Hw); [done |].
    vm_compute. repeat constructor.
  - simpl in Hpath. rewrite Hpath.
    rewrite (getAllFromStore_reachable w h STORES.HEALTH_DATA Hw); [done |].
    vm_compute. repeat constructor.
Qed.

(** X8. In a world the worker reaches, a [GET] of steps with both a [startDate]
    and an [endDate] is answered 500 with the error [storeName is not
    defined], whatever the dates, and stores nothing. *)
Theorem GET_steps_by_range_answers_500 w h request :
  reachable w →
  method request = "GET" →
  Str.includes "/steps" (pathname (new_URL h (url request))) = true →
  nonempty (searchParams_get "startDate" (searchParams (new_URL h (url request))))
  && nonempty (searchParams_get "endDate" (searchParams (new_URL h (url request))))
  = true →
  handleHealthAPI request h w
  = (inr {| status := 500; headers := [("Content-Type", "application/json")];
            body := Json (VObj [("error", VStr "storeName is not defined")]) |},
     opened w).
Proof.
  intros Hw Hget Hsteps Hrange. unfold handleHealthAPI. munfold. cbn beta iota zeta.
  rewrite Hget. cbn [String.eqb Ascii.eqb Bool.eqb]. rewrite Hsteps, Hrange.
  by rewrite (getStepsByDateRange_reachable w h _ _ Hw).
Qed.

(** X9. A method other than [GET] and [POST] is answered 404 and changes
    nothing, whatever the path under the health API. *)
Theorem other_method_not_found h w request :
  method request ≠ "GET" →
  method request ≠ "POST" →
  handleHealthAPI request h w
  = (inr {| status := 404; headers := []; body := Text "Not Found" |}, w).
Proof.
  intros Hget Hpost. unfold handleHealthAPI. munfold. cbn beta iota zeta.
  apply String.eqb_neq in Hget, Hpost. by rewrite Hget, Hpost.
Qed.

Lemma put_record_keeps_elem k v k0 v0 rs :
  (k0, v0) ∈ rs → k0 ≠ k → (k0, v0) ∈ IDB.put_record k v rs.
Proof.
  intros Hin Hne. induction rs as [| [k1 v1] rs IH]; simpl.
  - by apply elem_of_nil in Hin.
  - destruct (IDB.key_compare k k1) eqn:E.
    + apply key_compare_eq in E as <-.
      apply elem_of_cons in Hin as [[= -> ->] | Hin]; [done | by right].
    + by right.
    + apply elem_of_cons in Hin as [[= -> ->] | Hin]; [left | right; by apply IH].
Qed.

(** X10. Post, then get: in a world the worker reaches, while the key generator
    of the Steps collection has not passed 2^53, a [POST] of a JSON object
    without an [id] to a steps path is acknowledged with [{success: true}],
    and a following [GET] of all steps lists every record that was there
    before together with the posted object, stamped with the time of the
    insert (if it had no [timestamp]) and the key the store generated as its
    [id]. *)
Theorem POST_then_GET_steps w h h' post get text props :
  reachable w →
  nextKey STORES.STEPS w ≤ IDB.MAX_KEY →
  method post = "POST" →
  Str.includes "/steps" (pathname (new_URL h (url post))) = true →
  requestBody post = Raw text →
  JSON_parse h text = inr (VObj props) →
  assoc "id" props = None →
  method get = "GET" →
  Str.includes "/steps" (pathname (new_URL h' (url get))) = true →
  searchParams (new_URL h' (url get)) = [] →
  let w' := run (handleHealthAPI post) h w in
  let n := nextKey STORES.STEPS w in
  result (handleHealthAPI post) h w
  = inr {| status := 200; headers := [("Content-Type", "application/json")];
           body := Json (VObj [("success", VBool true)]) |}
  ∧ ∃ records,
      result (handleHealthAPI get) h' w'
      = inr {| status := 200; headers := [("Content-Type", "application/json")];
               body := Json (VArr records) |}
      ∧ VObj (assoc_set "id" (VNum n) (stamped (Date_now (clock h)) props)) ∈ records
      ∧ ∀ record, record ∈ collection STORES.STEPS w → record ∈ records.
Proof.
  intros Hw Hroom Hpost Hpath Hbody Hparse Hid Hget Hpath' Hparams w' n. subst n.
  assert (Hsteps : STORES.STEPS ∈ STORES.values) by (vm_compute; repeat constructor).
  destruct (reachable_store w _ Hw Hsteps) as (d & st & Hopen & Hv & Hst & Hok & Hgen).
  rewrite <- Hgen in *.
  pose proof (saveToStore_new h w d st _ props Hopen Hst (store_ok_fresh st Hok Hroom) Hid)
    as Hsave.
  assert (Hrun : handleHealthAPI post h w
    = (inr (json_response (VObj [("success", VBool true)])),
       (saveToStore STORES.STEPS (VObj props) h w).2)).
  { unfold handleHealthAPI, json. munfold. cbn beta iota zeta.
    rewrite Hpost. cbn [String.eqb Ascii.eqb Bool.eqb].
    rewrite Hbody, Hparse, Hpath. by rewrite Hsave. }
  subst w'. unfold run, result. rewrite Hrun, Hsave. cbn [fst snd].
  split; [done |].
  exists (IDB.getAll (appended st (stamped (Date_now (clock h)) props))).
  split; [| split].
  - unfold handleHealthAPI, getAllFromStore, objectStore. munfold. cbn beta iota zeta.
    rewrite Hget. cbn [String.eqb Ascii.eqb Bool.eqb]. rewrite Hpath', Hparams.
    cbn [searchParams_get nonempty andb]. rewrite initDB_spec.
    cbn [database set_database fst snd]. unfold open. cbn [IDB.version]. rewrite Hv.
    rewrite Z.ltb_irrefl.
    cbn [database set_database fst snd IDB.objectStores].
    by rewrite lookup_insert_eq.
  - unfold IDB.getAll, appended. cbn [IDB.records IDB.with_records].
    apply (list_elem_of_fmap_2 snd _ (IDB.KNum (IDB.keyGenerator st), _)).
    apply elem_put_record.
  - intros record. rewrite <- (reachable_opened w Hw). unfold collection, opened.
    rewrite Hopen. cbn [database set_database]. rewrite Hst.
    unfold IDB.getAll, appended. cbn [IDB.records IDB.with_records].
    intros ([k r] & -> & Hin)%list_elem_of_fmap.
    apply (list_elem_of_fmap_2 snd _ (k, r)).
    apply put_record_keeps_elem; [done |].
    destruct Hok as (_ & _ & _ & Hrs). rewrite Forall_forall in Hrs.
    destruct (Hrs _ Hin) as [Hlt _]. simpl in Hlt. intros ->. lia.
Qed.

(** ** The text normalizer *)

Lemma prefix_char c s :
  String.prefix (String c EmptyString) s
  = match s with String c' _ => Ascii.eqb c' c | EmptyString => false end.
Proof.
  destruct s as [| c' s]; simpl; [done |].
  destruct (ascii_dec c c') as [-> | Hne].
  - rewrite Ascii.eqb_refl. by destruct s.
  - symmetry. apply Ascii.eqb_neq. congruence.
Qed.

Lemma split_nonempty sep s : Str.split sep s ≠ [].
Proof.
  destruct s as [| c s]; simpl; [done |].
  destruct (Ascii.eqb c sep); [done |]. by destruct (Str.split sep s).
Qed.

(** A line splits into two fields or more exactly when it has a comma. *)
Lemma split_two_fields sep s :
  (2 <=? length (Str.split sep s))%nat = Str.includes (String sep EmptyString) s.
Proof.
  induction s as [| c s IH]; [done |].
  cbn [Str.split Str.includes]. rewrite prefix_char.
  pose proof (split_nonempty sep s) as Hne.
  destruct (Ascii.eqb c sep) eqn:E; simpl.
  - by destruct (Str.split sep s).
  - rewrite <- IH. by destruct (Str.split sep s) as [| ? [| ? ?]].
Qed.

Lemma csv_line_later line :
  csv_line 1 line = if hasComma line then [csvRecord line] else [].
Proof.
  unfold csv_line, hasComma, csvRecord. by rewrite split_two_fields.
Qed.

Lemma concat_filter_map {A B} (p : A → bool) (f : A → B) (l : list A) :
  concat ((λ x, if p x then [f x] else []) <$> l) = f <$> List.filter p l.
Proof.
  induction l as [| x l IH]; [done |].
  rewrite fmap_cons. cbn [concat List.filter]. rewrite IH. by destruct (p x).
Qed.

(** X11. Delimited text, line by line, for text whose step counts are safe
    integers (a count of 2^53 or more is a rounded double in the code, and
    past the largest double it is [Infinity], which the model's numbers do
    not have): the first line is dropped, a later line without a comma is
    skipped, and every later line with a comma yields one record, in the
    order of the lines, with the trimmed first field as its date and the
    integer the second field starts with (0 if it starts with none) as its
    steps. *)
Theorem delimited_text_line_by_line clk text :
  Str.includes "," text = true →
  forallb safeSteps (parseHealthDataText clk text) = true →
  parseHealthDataText clk text
  = csvRecord <$> List.filter hasComma (tail (Str.split "010" text)).
Proof.
  intros Hcomma _. rewrite parseHealthDataText_delimited by done.
  rewrite <- concat_filter_map. f_equal.
  apply list_fmap_ext. intros _ line _. apply csv_line_later.
Qed.

Lemma delimited_text_line_by_line_witness :
  parseHealthDataText sampleClock csvSample
  = csvRecord <$> List.filter hasComma (tail (Str.split "010" csvSample)).
Proof.
  apply (delimited_text_line_by_line sampleClock csvSample); reflexivity.
Defined.

(** *** Free text *)

Lemma is_space_not_digit c : Str.is_space c = true → Str.is_digit c = false.
Proof.
  unfold Str.is_space, Str.is_digit. generalize (nat_of_ascii c). intros n.
  rewrite !orb_true_iff, !andb_true_iff, andb_false_iff, !Nat.leb_le, !Nat.leb_gt,
    !Nat.eqb_eq.
  lia.
Qed.

Lemma lower_s_not_digit c : Str.lower c = "s"%char → Str.is_digit c = false.
Proof.
  unfold Str.lower, Str.is_digit.
  destruct ((65 <=? nat_of_ascii c)%nat && (nat_of_ascii c <=? 90)%nat) eqn:Hup.
  - intros _. apply andb_true_iff in Hup as [H1%Nat.leb_le _].
    apply andb_false_iff. right. apply Nat.leb_gt. lia.
  - by intros ->.
Qed.

Lemma match_steps_head s m : Str.match_steps s = Some m → Str.digit_run m = "".
Proof.
  unfold Str.match_steps.
  destruct s as [| c1 [| c2 [| c3 [| c4 rest]]]]; try done.
  destruct (String.eqb _ "step") eqn:E; [| done].
  apply String.eqb_eq in E. injection E as E1 _ _ _.
  apply lower_s_not_digit in E1.
  intros Hm. assert (∃ m', m = String c1 m') as [m' ->].
  { destruct rest as [| c5 rest]; [| destruct (Ascii.eqb _ _)];
      injection Hm as <-; eauto. }
  simpl. by rewrite E1.
Qed.

Lemma match_ws_steps_head s m : Str.match_ws_steps s = Some m → Str.digit_run m = "".
Proof.
  destruct s as [| c rest]; cbn [Str.match_ws_steps]; [done |].
  destruct (Str.is_space c) eqn:Hsp; [| apply match_steps_head].
  destruct (Str.match_ws_steps rest) as [m' |]; [| apply match_steps_head].
  intros [= <-]. simpl. by rewrite is_space_not_digit.
Qed.

(** The digits a match starts with: at least one, at most [k]. *)
Lemma match_digits_run k s m :
  Str.match_digits k s = Some m →
  Str.first_digits m = Some (Str.digit_run m)
  ∧ (1 ≤ String.length (Str.digit_run m) ≤ k)%nat.
Proof.
  revert s m. induction k as [| k IH]; intros s m; simpl; [done |].
  destruct s as [| c rest]; [done |].
  destruct (Str.is_digit c) eqn:Hc; [| done].
  destruct (Str.match_digits k rest) as [m' |] eqn:Hrest.
  - intros [= <-]. destruct (IH _ _ Hrest) as [_ Hlen].
    simpl. rewrite Hc. simpl. split; [done | lia].
  - destruct (Str.match_ws_steps rest) as [m' |] eqn:Hws; [| done].
    intros [= <-]. simpl. rewrite Hc. simpl.
    rewrite (match_ws_steps_head _ _ Hws). simpl. split; [done | lia].
Qed.

Lemma match_all_matches skip s m :
  m ∈ Str.match_all skip s → ∃ s', Str.match_digits 5 s' = Some m.
Proof.
  revert skip. induction s as [| c s IH]; intros skip; cbn [Str.match_all].
  - by intros ?%elem_of_nil.
  - destruct skip as [| skip]; [| apply IH].
    destruct (Str.match_digits 5 (String c s)) as [m' |] eqn:Hm; [| apply IH].
    intros [-> | Hin]%elem_of_cons; [eauto | by eapply IH].
Qed.

Lemma digit_value_digit c :
  Str.is_digit c = true → ∃ d, Str.digit_value 10 c = Some d ∧ 0 ≤ d ≤ 9.
Proof.
  unfold Str.is_digit, Str.digit_value, Str.lower. intros Hc.
  apply andb_true_iff in Hc as [H1%Nat.leb_le H2%Nat.leb_le].
  assert ((65 <=? nat_of_ascii c)%nat = false) as -> by (apply Nat.leb_gt; lia).
  simpl.
  assert ((48 <=? Z.of_nat (nat_of_ascii c)) = true) as -> by (apply Z.leb_le; lia).
  assert ((Z.of_nat (nat_of_ascii c) <=? 57) = true) as -> by (apply Z.leb_le; lia).
  simpl.
  assert ((Z.of_nat (nat_of_ascii c) - 48 <? 10) = true) as -> by (apply Z.ltb_lt; lia).
  eexists. split; [done | lia].
Qed.

Lemma digit_run_digits s :
  Forall (λ c, Str.is_digit c = true) (list_ascii_of_string (Str.digit_run s)).
Proof.
  induction s as [| c s IH]; simpl; [constructor |].
  destruct (Str.is_digit c) eqn:Hc; simpl; by constructor.
Qed.

(** Decimal digits read as a number below the power of ten of their count. *)
Lemma digits_prefix_bound ds a :
  Forall (λ c, Str.is_digit c = true) (list_ascii_of_string ds) →
  0 ≤ a →
  ∃ v, Str.digits_prefix 10 (Some a) ds = Some v
       ∧ 0 ≤ v
       ∧ v < (a + 1) * 10 ^ Z.of_nat (String.length ds).
Proof.
  revert a. induction ds as [| c ds IH]; intros a Hds Ha; simpl.
  - exists a. split; [done |]. lia.
  - inversion Hds as [| ? ? Hc Hds']; subst.
    destruct (digit_value_digit c Hc) as (d & -> & Hd).
    destruct (IH (10 * a + d) Hds') as (v & -> & Hv0 & Hv); [lia |].
    exists v. split; [done |]. split; [done |].
    rewrite Nat2Z.inj_succ, Z.pow_succ_r by lia.
    assert (0 < 10 ^ Z.of_nat (String.length ds)) by (apply Z.pow_pos_nonneg; lia).
    nia.
Qed.

Lemma to_double_small n : Z.abs n < 2 ^ 53 → Str.to_double n = n.
Proof.
  intros Hn. unfold Str.to_double.
  assert (Hlog : (Z.log2 (Z.abs n) <? 53) = true); [| by rewrite Hlog].
  apply Z.ltb_lt. destruct (Z.eq_dec (Z.abs n) 0) as [-> | Hne]; [done |].
  apply Z.log2_lt_pow2; lia.
Qed.

Lemma parseInt_digits ds :
  Forall (λ c, Str.is_digit c = true) (list_ascii_of_string ds) →
  ds ≠ "" →
  (String.length ds ≤ 15)%nat →
  ∃ v, Str.parseInt ds = Some v ∧ 0 ≤ v < 10 ^ Z.of_nat (String.length ds).
Proof.
  intros Hds Hne Hlen. destruct ds as [| c ds]; [done |].
  inversion Hds as [| ? ? Hc Hds']; subst.
  assert (Hsp : Str.is_space c = false).
  { destruct (Str.is_space c) eqn:E; [| done].
    apply is_space_not_digit in E. congruence. }
  assert (Hsign : c ≠ "-"%char ∧ c ≠ "+"%char).
  { split; intros ->; discriminate Hc. }
  assert (Hradix : ∀ x rest, ds = String x rest → Ascii.eqb (Str.lower x) "x" = false).
  { intros x rest ->. inversion Hds' as [| ? ? Hx _]; subst.
    apply Ascii.eqb_neq. intros Hlow.
    unfold Str.lower, Str.is_digit in *.
    apply andb_true_iff in Hx as [H1%Nat.leb_le H2%Nat.leb_le].
    assert ((65 <=? nat_of_ascii x)%nat = false) as E by (apply Nat.leb_gt; lia).
    rewrite E in Hlow. simpl in Hlow. subst x.
    change (nat_of_ascii "x") with 120%nat in H2. lia. }
  assert (Hparse : Str.parseInt (String c ds)
                   = (λ n, 1 * Str.to_double n) <$> Str.digits_prefix 10 None (String c ds)).
  { unfold Str.parseInt. cbn [Str.trimStart]. rewrite Hsp.
    destruct Hsign as [Hminus Hplus].
    destruct c as [[] [] [] [] [] [] [] []]; try done;
      destruct ds as [| x rest]; try done;
      by rewrite (Hradix x rest eq_refl). }
  rewrite Hparse. cbn [Str.digits_prefix].
  destruct (digit_value_digit c Hc) as (d & -> & Hd). cbn [default].
  destruct (digits_prefix_bound ds (10 * 0 + d) Hds') as (v & -> & Hv0 & Hv); [lia |].
  cbn [String.length] in *. rewrite Nat2Z.inj_succ, Z.pow_succ_r by lia.
  assert (0 < 10 ^ Z.of_nat (String.length ds)) by (apply Z.pow_pos_nonneg; lia).
  assert (Hv' : v < 10 * 10 ^ Z.of_nat (String.length ds)) by nia.
  assert (10 * 10 ^ Z.of_nat (String.length ds) ≤ 10 ^ 15).
  { rewrite <- Z.pow_succ_r by lia. apply Z.pow_le_mono_r; lia. }
  exists v. split; [| lia]. cbn [fmap option_fmap option_map].
  rewrite to_double_small by (rewrite Z.abs_eq by lia; lia). f_equal. lia.
Qed.

(** X12. Free text: every record read off text without a comma is dated today
    (the clock's UTC date) and counts between 0 and 99999 steps. *)
Theorem free_text_steps_bounded clk text record :
  Str.includes "," text = false →
  record ∈ parseHealthDataText clk text →
  ∃ steps, record = steps_entry (VStr (today clk)) steps ∧ 0 ≤ steps ≤ 99999.
Proof.
  intros Hcomma. unfold parseHealthDataText. rewrite Hcomma.
  intros (m & Hm & Hrec)%list_elem_of_omap.
  apply match_all_matches in Hm as [s' Hm].
  apply match_digits_run in Hm as [Hfirst Hlen].
  rewrite Hfirst in Hrec. cbn [mbind option_bind] in Hrec.
  destruct (parseInt_digits (Str.digit_run m) (digit_run_digits m)) as (v & Hv & Hbound).
  { intros E. rewrite E in Hlen. simpl in Hlen. lia. }
  { lia. }
  rewrite Hv in Hrec. injection Hrec as <-. exists v. split; [done |].
  assert (10 ^ Z.of_nat (String.length (Str.digit_run m)) ≤ 10 ^ 5).
  { apply Z.pow_le_mono_r; lia. }
  lia.
Qed.

Lemma free_text_steps_bounded_witness :
  ∃ steps,
    steps_entry (VStr "2024-01-01") 3000
    = steps_entry (VStr (today sampleClock)) steps
    ∧ 0 ≤ steps ≤ 99999.
Proof.
  apply (free_text_steps_bounded sampleClock
           "I walked 3000 steps today and then 500 steps more").
  - reflexivity.
  - vm_compute. left.
Defined.

Lemma match_digits_needs_digit k s m :
  Str.match_digits k s = Some m → noDigit s = false.
Proof.
  destruct k, s as [| c rest]; simpl; try done.
  by destruct (Str.is_digit c).
Qed.

Lemma match_all_noDigit skip s : noDigit s = true → Str.match_all skip s = [].
Proof.
  revert skip. induction s as [| c s IH]; intros skip Hs; cbn [Str.match_all]; [done |].
  destruct skip as [| skip].
  - destruct (Str.match_digits 5 (String c s)) eqn:Hm.
    + apply match_digits_needs_digit in Hm. congruence.
    + apply IH. simpl in Hs. by apply andb_true_iff in Hs as [_ ?].
  - apply IH. simpl in Hs. by apply andb_true_iff in Hs as [_ ?].
Qed.

(** Text with neither a comma nor a digit yields no record. *)
Lemma parseHealthDataText_nothing clk text :
  Str.includes "," text = false → noDigit text = true →
  parseHealthDataText clk text = [].
Proof.
  intros Hcomma Hdigits. unfold parseHealthDataText.
  by rewrite Hcomma, match_all_noDigit.
Qed.

(** X13. Sharing text that is not JSON and has neither a comma nor a digit: in a
    world the worker reaches, nothing is stored, every client is still sent
    [HEALTH_DATA_RECEIVED], with an empty list, and the answer is the
    redirect to the application root. *)
Theorem unparseable_share_stores_nothing w h request entries text e :
  reachable w →
  requestBody request = Form entries →
  formData_get "healthData" entries = None →
  formData_get "text" entries = Some (Field text) →
  text ≠ "" →
  JSON_parse h text = inl e →
  Str.includes "," text = false →
  noDigit text = true →
  let w' := run (handleSharedData request) h w in
  result (handleSharedData request) h w
  = inr {| status := 302; headers := [("Location", "/")]; body := Text "" |}
  ∧ (∀ name, collection name w' = collection name w)
  ∧ posted w'
    = (posted w ++ ((λ c, (c, HEALTH_DATA_RECEIVED (VArr []))) <$> clients w))%list.
Proof.
  intros Hw Hbody Hfile Htext Hne Hjson Hcomma Hdigits w'.
  assert (Hrun : handleSharedData request h w
    = (inr (redirect "/" 302),
       set_posted (posted (opened w)
                   ++ ((λ c, (c, HEALTH_DATA_RECEIVED (VArr []))) <$> clients (opened w)))
                  (opened w))).
  { unfold handleSharedData, formData, fromText, parseShared, processHealthData,
      broadcast.
    munfold. rewrite Hbody. cbn beta iota zeta. rewrite Hfile, Htext.
    apply String.eqb_neq in Hne as ->. cbn [negb]. rewrite Hjson.
    rewrite parseHealthDataText_nothing by done.
    cbn [truthy for_of mret M_ret]. by rewrite updateQuestProgress_noop. }
  subst w'. unfold run, result. rewrite Hrun. cbn [fst snd].
  split; [done |]. split.
  - intros name. rewrite <- (reachable_opened w Hw name). done.
  - unfold opened. by destruct (open (database w)).
Qed.

(** ** The app shell and the cache generations *)

(** X14. The app shell is served cache first: for a request that is none of the
    share target, the health API and the versioned API, a [GET] with a copy
    in the shell cache gets that copy whatever the network says; any other
    request gets the live response, or fails with the network; and the
    handler stores nothing in any cache. *)
Theorem shell_is_cache_first h w request :
  (String.eqb (pathname (new_URL h (url request))) "/share-data"
   && String.eqb (method request) "POST") = false →
  Str.includes "/api/health" (pathname (new_URL h (url request))) = false →
  Str.includes "/api/steps" (pathname (new_URL h (url request))) = false →
  Str.includes "/api/" (url request) = false →
  let w' := run (onFetch request) h w in
  result (onFetch request) h w
  = match (if String.eqb (method request) "GET"
           then storedIn CACHE_NAME (url request) w else None) with
    | Some response => inr (Some response)
    | None => match fetch h request with
              | inr response => inr (Some response)
              | inl e => inl e
              end
    end
  ∧ ∀ name url, storedIn name url w' = storedIn name url w.
Proof.
  intros Hshare Hhealth Hsteps Hapi w'. subst w'.
  unfold run, result, onFetch, caches_open, cache_match, storedIn. munfold.
  cbn beta iota zeta. rewrite Hshare, Hhealth, Hsteps, Hapi.
  cbn [orb fst snd]. unfold fmap, M_fmap, lift.
  assert (Hkept : ∀ name url0,
    (set_caches (<[CACHE_NAME := ∅]> (caches w)) w).(caches) !! name
      ≫= (λ cache : gmap string Response, cache !! url0)
    = caches w !! name ≫= (λ cache : gmap string Response, cache !! url0)
    ∨ is_Some (caches w !! CACHE_NAME)).
  { intros name url0. destruct (caches w !! CACHE_NAME) eqn:Hc; [right; eauto | left].
    cbn [caches set_caches]. destruct (decide (name = CACHE_NAME)) as [-> | Hne].
    - rewrite lookup_insert_eq, Hc. cbn [mbind option_bind]. by rewrite lookup_empty.
    - by rewrite lookup_insert_ne. }
  destruct (caches w !! CACHE_NAME) as [cache |] eqn:Hcache.
  - cbn [fst snd]. rewrite Hcache. cbn [default from_option id mbind option_bind].
    split.
    + destruct (String.eqb (method request) "GET"); [destruct (cache !! url request) |];
        by destruct (fetch h request).
    + intros name url0.
      destruct (String.eqb (method request) "GET"); [destruct (cache !! url request) |];
        by destruct (fetch h request).
  - cbn [fst snd caches set_caches]. rewrite lookup_insert_eq.
    cbn [default from_option id mbind option_bind]. rewrite lookup_empty.
    split.
    + by destruct (String.eqb (method request) "GET"), (fetch h request).
    + intros name url0. destruct (Hkept name url0) as [Hk | [? ?]]; [| done].
      destruct (String.eqb (method request) "GET"), (fetch h request); exact Hk.
Qed.

Lemma activate_lookup h w name :
  caches (run onActivate h w) !! name
  = if isCurrentCache name then caches w !! name else None.
Proof.
  unfold onActivate, run. munfold. rewrite Promise_all_map_evict. simpl.
  rewrite evict_lookup. destruct (isCurrentCache name); simpl.
  - by rewrite andb_false_r.
  - rewrite andb_true_r. case_bool_decide as Hin; [done |].
    rewrite elem_of_elements, elem_of_dom in Hin. by apply eq_None_not_Some.
Qed.

(** X15. Activating again evicts nothing more, and an activation touches nothing
    but the caches: the database and the messages posted are as before. *)
Theorem activate_is_idempotent h1 h2 w :
  let w1 := run onActivate h1 w in
  run onActivate h2 w1 = w1
  ∧ database w1 = database w
  ∧ posted w1 = posted w.
Proof.
  intros w1.
  assert (Hshape : ∀ h w0, run onActivate h w0
            = set_caches (caches (run onActivate h w0)) w0).
  { intros h w0. unfold onActivate, run. munfold. by rewrite Promise_all_map_evict. }
  assert (Hsame : caches (run onActivate h2 w1) = caches w1).
  { apply map_eq. intros name. subst w1. rewrite !activate_lookup.
    by destruct (isCurrentCache name). }
  split; [| by subst w1; rewrite Hshape].
  rewrite Hshape, Hsame. subst w1. by rewrite (Hshape h1 w).
Qed.

(** ** Deferred work and control messages *)

(** X16. A background sync of quests, habits or health always reports success:
    in a world the worker reaches, every client is sent one
    [BACKGROUND_SYNC_COMPLETE] with [success: true], and no record of any
    collection is touched. *)
Theorem background_sync_reports_success w h tag type :
  reachable w →
  syncType tag = Some type →
  let w' := run (onSync tag) h w in
  posted w'
  = (posted w ++ ((λ c, (c, BACKGROUND_SYNC_COMPLETE type)) <$> clients w))%list
  ∧ ∀ name, collection name w' = collection name w.
Proof.
  intros Hw Htype w'. subst w'. unfold syncType in Htype. unfold run, onSync.
  assert (Hopened : posted (opened w) = posted w ∧ clients (opened w) = clients w).
  { unfold opened. by destruct (open (database w)). }
  destruct Hopened as [Hp Hc].
  destruct (String.eqb tag "background-sync-quests"); [injection Htype as <- |].
  { unfold syncQuests, broadcast. munfold. rewrite updateQuestProgress_noop.
    cbn [fst snd posted set_posted]. rewrite Hp, Hc. split; [done |].
    intros name. by rewrite <- (reachable_opened w Hw name). }
  destruct (String.eqb tag "background-sync-habits"); [injection Htype as <- |].
  { unfold syncHabits, broadcast. munfold. by cbn [fst snd posted set_posted]. }
  destruct (String.eqb tag "background-sync-health"); [injection Htype as <- | done].
  unfold syncHealthData, broadcast. munfold. rewrite updateQuestProgress_noop.
  cbn [fst snd posted set_posted]. rewrite Hp, Hc. split; [done |].
  intros name. by rewrite <- (reachable_opened w Hw name).
Qed.

(** X17. A message without a type the worker knows is ignored: the world stays
    as it is. *)
Theorem unknown_message_ignored h w data :
  (∀ type, type ∈ messageTypes → strict_eq_str (messageType data) type = false) →
  onMessage data h w = (inr (), w).
Proof.
  intros Hunknown.
  assert (Hno : ∀ type, type ∈ messageTypes →
            strict_eq_str (messageType data) type = false) by done.
  unfold messageTypes in Hno.
  unfold onMessage. munfold.
  destruct data as [| | b | n | | s | elems | props]; try reflexivity.
  { destruct b; reflexivity. }
  { cbn [truthy]. destruct (Z.eqb_spec n 0) as [-> | Hn]; reflexivity. }
  { cbn [truthy]. destruct (String.eqb_spec s "") as [-> | Hs]; reflexivity. }
  cbn [truthy get]. cbn [messageType] in Hno.
  destruct (truthy (default VUndefined (assoc "type" props))); [| done].
  cbn [fst snd].
  repeat (rewrite Hno by (repeat first [left | right])).
  done.
Qed.

(** X18. [GET_STEPS_DATA] and [GET_QUEST_DATA] answer on the reply port with
    exactly the records of the collection, in key order, and store nothing. *)
Theorem get_message_replies_with_collection w h props type :
  reachable w →
  assoc "type" props = Some (VStr type) →
  type = "GET_STEPS_DATA" ∨ type = "GET_QUEST_DATA" →
  let name := if String.eqb type "GET_STEPS_DATA" then STORES.STEPS else STORES.QUESTS in
  let w' := run (onMessage (VObj props)) h w in
  replies w' = (replies w ++ [VObj [("data", VArr (collection name w))]])%list
  ∧ ∀ storeName, collection storeName w' = collection storeName w.
Proof.
  intros Hw Htype Hget name w'. subst name w'.
  assert (Hopened : replies (opened w) = replies w).
  { unfold opened. by destruct (open (database w)). }
  unfold run, onMessage. munfold. cbn [truthy get]. rewrite Htype. cbn [default from_option id].
  destruct Hget as [-> | ->]; cbn [truthy String.eqb Ascii.eqb Bool.eqb negb fst snd
                                    strict_eq_str].
  - rewrite (getAllFromStore_reachable w h STORES.STEPS Hw)
      by (vm_compute; repeat constructor).
    cbn [fst snd replies set_replies]. rewrite Hopened. split; [done |].
    intros storeName. by rewrite <- (reachable_opened w Hw storeName).
  - rewrite (getAllFromStore_reachable w h STORES.QUESTS Hw)
      by (vm_compute; repeat constructor).
    cbn [fst snd replies set_replies]. rewrite Hopened. split; [done |].
    intros storeName. by rewrite <- (reachable_opened w Hw storeName).
Qed.

(** ** The reconciliation loop on a quest it passes over *)

(** X19. A quest that is neither of category [fitness] nor of type [steps], or
    whose [target.steps] is missing, zero or otherwise falsy, goes through a
    turn of the loop unchanged, and nothing is written. *)
Theorem reconcileQuest_passes_over h w total props :
  isStepQuest (VObj props) = inr false ∨ hasStepTarget props = false →
  reconcileQuest total (VObj props) h w = (inr (VObj props), w).
Proof.
  intros Hskip. unfold reconcileQuest. munfold.
  destruct (isStepQuest (VObj props)) as [e | selected] eqn:Hsel; [done |].
  cbn [fst snd]. destruct selected; [| done].
  destruct Hskip as [Hno | Hgate]; [done |].
  unfold applyStepTarget, hasStepTarget in *. cbn [get].
  destruct (default VUndefined (assoc "target" props)) as [| | b | n | | s | elems | target];
    cbn [truthy get]; try done.
  - by destruct b.
  - by destruct (Z.eqb_spec n 0) as [-> | Hn].
  - by destruct (String.eqb_spec s "") as [-> | Hs].
  - by rewrite Hgate.
Qed.

(** ** The theorems above at sample inputs *)

Lemma records_never_changed_witness :
  ∃ st', IDB.objectStores
           (database (run (handle (SAVE_QUEST_DATA (walkQuest 50 0))) sampleHost questWorld))
         !! "quests" = Some st'
         ∧ IDB.find_record (IDB.KNum 1) (IDB.records st') = Some (VObj storedWalkQuest).
Proof.
  apply (records_never_changed (SAVE_QUEST_DATA (walkQuest 50 0)) sampleHost questWorld
           "quests" questsStore (IDB.KNum 1) (VObj storedWalkQuest)).
  - vm_compute. reflexivity.
  - reflexivity.
Defined.

Lemma GET_lists_the_collection_witness :
  handleHealthAPI (stepsRequest "GET") sampleHost walkedWorld
  = (inr {| status := 200; headers := [("Content-Type", "application/json")];
            body := Json (VArr (collection
                     (readCollection
                        (pathname (new_URL sampleHost (url (stepsRequest "GET")))))
                     walkedWorld)) |},
     opened walkedWorld)
  ∧ ∀ storeName, collection storeName (opened walkedWorld)
                 = collection storeName walkedWorld.
Proof.
  apply (GET_lists_the_collection walkedWorld sampleHost (stepsRequest "GET")).
  - repeat constructor.
  - reflexivity.
  - reflexivity.
  - reflexivity.
Defined.

Lemma GET_steps_by_range_answers_500_witness :
  handleHealthAPI (stepsRequest "GET") rangeHost walkedWorld
  = (inr {| status := 500; headers := [("Content-Type", "application/json")];
            body := Json (VObj [("error", VStr "storeName is not defined")]) |},
     opened walkedWorld).
Proof.
  apply (GET_steps_by_range_answers_500 walkedWorld rangeHost (stepsRequest "GET")).
  - repeat constructor.
  - reflexivity.
  - reflexivity.
  - reflexivity.
Defined.

Lemma other_method_not_found_witness :
  handleHealthAPI (stepsRequest "DELETE") sampleHost walkedWorld
  = (inr {| status := 404; headers := []; body := Text "Not Found" |}, walkedWorld).
Proof.
  apply (other_method_not_found sampleHost walkedWorld (stepsRequest "DELETE"));
    discriminate.
Defined.

Lemma POST_then_GET_steps_witness :
  let w' := run (handleHealthAPI (stepsRequest "POST")) jsonHost walkedWorld in
  let n := nextKey STORES.STEPS walkedWorld in
  result (handleHealthAPI (stepsRequest "POST")) jsonHost walkedWorld
  = inr {| status := 200; headers := [("Content-Type", "application/json")];
           body := Json (VObj [("success", VBool true)]) |}
  ∧ ∃ records,
      result (handleHealthAPI (stepsRequest "GET")) sampleHost w'
      = inr {| status := 200; headers := [("Content-Type", "application/json")];
               body := Json (VArr records) |}
      ∧ VObj (assoc_set "id" (VNum n)
                (stamped (Date_now (clock jsonHost))
                   [("date", VStr "2024-01-01"); ("steps", VNum 800)])) ∈ records
      ∧ ∀ record, record ∈ collection STORES.STEPS walkedWorld → record ∈ records.
Proof.
  apply (POST_then_GET_steps walkedWorld jsonHost sampleHost (stepsRequest "POST")
           (stepsRequest "GET") "{}"
           [("date", VStr "2024-01-01"); ("steps", VNum 800)]).
  - repeat constructor.
  - by vm_compute.
  - reflexivity.
  - reflexivity.
  - reflexivity.
  - reflexivity.
  - reflexivity.
  - reflexivity.
  - reflexivity.
  - reflexivity.
Defined.

Lemma unparseable_share_stores_nothing_witness :
  result (handleSharedData chatShare) sampleHost walkedWorld
  = inr {| status := 302; headers := [("Location", "/")]; body := Text "" |}
  ∧ (∀ name, collection name (run (handleSharedData chatShare) sampleHost walkedWorld)
             = collection name walkedWorld)
  ∧ posted (run (handleSharedData chatShare) sampleHost walkedWorld)
    = (posted walkedWorld
       ++ ((λ c, (c, HEALTH_DATA_RECEIVED (VArr []))) <$> clients walkedWorld))%list.
Proof.
  apply (unparseable_share_stores_nothing walkedWorld sampleHost chatShare
           [("text", Field "went for a walk")] "went for a walk"
           (SyntaxError "Unexpected token")).
  - repeat constructor.
  - reflexivity.
  - reflexivity.
  - reflexivity.
  - discriminate.
  - reflexivity.
  - reflexivity.
  - reflexivity.
Defined.

Lemma shell_is_cache_first_witness :
  result (onFetch shellRequest) sampleHost cachedWorld
  = match (if String.eqb (method shellRequest) "GET"
           then storedIn CACHE_NAME (url shellRequest) cachedWorld else None) with
    | Some response => inr (Some response)
    | None => match fetch sampleHost shellRequest with
              | inr response => inr (Some response)
              | inl e => inl e
              end
    end
  ∧ ∀ name url, storedIn name url (run (onFetch shellRequest) sampleHost cachedWorld)
                = storedIn name url cachedWorld.
Proof.
  apply (shell_is_cache_first sampleHost cachedWorld shellRequest); reflexivity.
Defined.

Lemma background_sync_reports_success_witness :
  posted (run (onSync "background-sync-quests") sampleHost walkedWorld)
  = (posted walkedWorld
     ++ ((λ c, (c, BACKGROUND_SYNC_COMPLETE "quests")) <$> clients walkedWorld))%list
  ∧ ∀ name, collection name (run (onSync "background-sync-quests") sampleHost walkedWorld)
            = collection name walkedWorld.
Proof.
  apply (background_sync_reports_success walkedWorld sampleHost
           "background-sync-quests" "quests").
  - repeat constructor.
  - reflexivity.
Defined.

Lemma unknown_message_ignored_witness :
  onMessage (VObj [("type", VStr "PING")]) sampleHost walkedWorld = (inr (), walkedWorld).
Proof.
  apply (unknown_message_ignored sampleHost walkedWorld (VObj [("type", VStr "PING")])).
  intros type Hin. unfold messageTypes in Hin.
  repeat (apply elem_of_cons in Hin as [-> | Hin]; [reflexivity |]).
  by apply elem_of_nil in Hin.
Defined.

Lemma get_message_replies_with_collection_witness :
  replies (run (onMessage (VObj [("type", VStr "GET_QUEST_DATA")])) sampleHost questWorld)
  = (replies questWorld
     ++ [VObj [("data", VArr (collection
                 (if String.eqb "GET_QUEST_DATA" "GET_STEPS_DATA"
                  then STORES.STEPS else STORES.QUESTS) questWorld))]])%list
  ∧ ∀ storeName,
      collection storeName
        (run (onMessage (VObj [("type", VStr "GET_QUEST_DATA")])) sampleHost questWorld)
      = collection storeName questWorld.
Proof.
  apply (get_message_replies_with_collection questWorld sampleHost
           [("type", VStr "GET_QUEST_DATA")] "GET_QUEST_DATA").
  - repeat constructor.
  - reflexivity.
  - right. reflexivity.
Defined.

Lemma reconcileQuest_passes_over_witness :
  reconcileQuest (VNum 150)
    (VObj [("category", VStr "fitness"); ("target", VObj [("minutes", VNum 30)])])
    sampleHost questWorld
  = (inr (VObj [("category", VStr "fitness"); ("target", VObj [("minutes", VNum 30)])]),
     questWorld).
Proof.
  apply (reconcileQuest_passes_over sampleHost questWorld (VNum 150)
           [("category", VStr "fitness"); ("target", VObj [("minutes", VNum 30)])]).
  right. reflexivity.
Defined.

Lemma applyStepTarget_idempotent_witness :
  applyStepTarget (VNum 150)
    (VObj (assoc_set "completed" (VBool true)
             (assoc_set "progress" (VNum 100) storedWalkQuest)))
  = inr (true, VObj (assoc_set "completed" (VBool true)
                       (assoc_set "progress" (VNum 100) storedWalkQuest))).
Proof.
  apply (applyStepTarget_idempotent 150 storedWalkQuest [("steps", VNum 100)] 100).
  - reflexivity.
  - reflexivity.
  - lia.
  - reflexivity.
Defined.

(** ** Ingesting a list *)

Lemma length_put_record_new k v rs :
  IDB.find_record k rs = None → length (IDB.put_record k v rs) = S (length rs).
Proof.
  induction rs as [| [k1 v1] rs IH]; simpl; [done |].
  destruct (IDB.key_compare k k1); [done | done |]. intros H. simpl. by rewrite IH.
Qed.

Lemma length_put_record_old k v v0 rs :
  ascending rs → IDB.find_record k rs = Some v0 →
  length (IDB.put_record k v rs) = length rs.
Proof.
  induction rs as [| [k1 v1] rs IH]; simpl; [done |].
  intros Hasc. destruct (IDB.key_compare k k1) eqn:E; [done | |].
  - intros H. apply find_record_elem in H.
    pose proof (ascending_all_before k1 v1 rs k v0 Hasc H) as Hlt.
    rewrite key_compare_antisym, E in Hlt. done.
  - intros H. simpl. rewrite IH; [done | apply Hasc | done].
Qed.

Lemma db_ok_opened w :
  db_ok (database w) → ∀ name, collection name (opened w) = collection name w.
Proof.
  intros Hok name. unfold opened, collection.
  destruct Hok as [Habsent | [Hv _]].
  - rewrite Habsent. change (IDB.objectStores _ !! name) with (schema !! name) at 1.
    cbn [IDB.objectStores IDB.absent]. rewrite lookup_empty.
    destruct (schema !! name) as [st0 |] eqn:Hst0; [| done].
    by apply schema_lookup in Hst0 as (_ & ixs & ->).
  - unfold open. by rewrite Hv.
Qed.

(** An insert of an object without an [id], while the key generator has
    not passed 2^53, adds one record to its collection and leaves the others
    alone. *)
Lemma saveToStore_grows h w name props :
  db_ok (database w) → name ∈ STORES.values → assoc "id" props = None →
  nextKey name w ≤ IDB.MAX_KEY →
  ∃ r w', saveToStore name (VObj props) h w = (inr r, w')
          ∧ (∃ d, w' = set_database d w)
          ∧ db_ok (database w')
          ∧ nextKey name w' = nextKey name w + 1
          ∧ length (collection name w') = S (length (collection name w))
          ∧ ∀ name', name' ≠ name →
                     collection name' w' = collection name' w
                     ∧ (name' ∈ STORES.values → nextKey name' w' = nextKey name' w).
Proof.
  intros Hok Hname Hid Hroom.
  destruct (db_ok_store w name Hok Hname)
    as (d & st & Hopen & Hv & Hst & Hst_ok & Hgen).
  rewrite <- Hgen in *.
  pose proof (store_ok_fresh st Hst_ok Hroom) as Hfresh.
  pose proof (saveToStore_new h w d st name props Hopen Hst Hfresh Hid) as Hsave.
  eexists _, _. split; [exact Hsave |].
  split; [eauto |]. split.
  { pose proof (stays_ok_saveToStore name (VObj props) h w Hok) as H.
    by rewrite Hsave in H. }
  split; [| split].
  - unfold nextKey. cbn [database set_database IDB.objectStores].
    by rewrite lookup_insert_eq.
  - rewrite <- (db_ok_opened w Hok name). unfold collection, opened. rewrite Hopen.
    cbn [database set_database IDB.objectStores]. rewrite lookup_insert_eq, Hst.
    unfold IDB.getAll, appended. cbn [IDB.records IDB.with_records].
    rewrite !length_fmap. apply length_put_record_new. apply Hfresh.
  - intros name' Hne. split.
    + rewrite <- (db_ok_opened w Hok name').
      unfold collection, opened. rewrite Hopen.
      cbn [database set_database IDB.objectStores]. by rewrite lookup_insert_ne.
    + intros Hname'.
      destruct (db_ok_store w name' Hok Hname')
        as (d' & st' & Hopen' & _ & Hst' & _ & Hgen').
      rewrite Hopen in Hopen'. injection Hopen' as <-. rewrite <- Hgen'.
      unfold nextKey. cbn [database set_database IDB.objectStores].
      by rewrite lookup_insert_ne, Hst'.
Qed.

Lemma collectionOf_store item : collectionOf item ∈ STORES.values.
Proof.
  unfold collectionOf. destruct (stepsShaped item); vm_compute; repeat constructor.
Qed.

Lemma processItem_grows h w item :
  db_ok (database w) → isNewObject item = true →
  nextKey (collectionOf item) w ≤ IDB.MAX_KEY →
  ∃ r w', processItem item h w = (inr r, w')
          ∧ (stepsShaped item = true → r = item)
          ∧ (∃ d, w' = set_database d w)
          ∧ db_ok (database w')
          ∧ nextKey (collectionOf item) w' = nextKey (collectionOf item) w + 1
          ∧ length (collection (collectionOf item) w')
            = S (length (collection (collectionOf item) w))
          ∧ ∀ name, name ≠ collectionOf item →
                    collection name w' = collection name w
                    ∧ (name ∈ STORES.values → nextKey name w' = nextKey name w).
Proof.
  intros Hok Hnew. destruct item as [| | | | | | | props]; try done.
  simpl in Hnew. destruct (assoc "id" props) eqn:Hid; [done |].
  unfold collectionOf, stepsShaped, processItem. munfold.
  unfold isStepsItem, stepsRecord. cbn [get].
  destruct (strict_eq_str _ "steps" || negb (is_undefined _)); intros Hroom.
  - destruct (saveToStore_grows h w STORES.STEPS
                [("date", or_else (default VUndefined (assoc "date" props))
                            (VStr (today (clock h))));
                 ("steps", or_else (or_else (default VUndefined (assoc "steps" props))
                                      (default VUndefined (assoc "value" props)))
                             (VNum 0));
                 ("source", or_else (default VUndefined (assoc "source" props))
                              (VStr "shared"));
                 ("metadata", or_else (default VUndefined (assoc "metadata" props))
                                (VObj []))] Hok)
      as (r & w' & Hsave & Hrest); [vm_compute; repeat constructor | done | done |].
    rewrite Hsave. eexists _, _. split; [reflexivity |]. split; [done | exact Hrest].
  - destruct (saveToStore_grows h w STORES.HEALTH_DATA props Hok)
      as ([k r] & w' & Hsave & Hrest); [vm_compute; repeat constructor | done | done |].
    rewrite Hsave. eexists _, _. split; [reflexivity |]. split; [done | exact Hrest].
Qed.

Lemma countFor_cons name item items :
  countFor name (item :: items)
  = (if String.eqb (collectionOf item) name then 1 else 0) + countFor name items.
Proof.
  unfold countFor. cbn [List.filter].
  destruct (String.eqb (collectionOf item) name); cbn [length]; lia.
Qed.

Lemma countFor_nonneg name items : 0 ≤ countFor name items.
Proof. unfold countFor. lia. Qed.

Lemma countFor_split items :
  countFor STORES.STEPS items + countFor STORES.HEALTH_DATA items
  = Z.of_nat (length items).
Proof.
  induction items as [| item items IH]; [done |].
  rewrite !countFor_cons. cbn [length]. rewrite Nat2Z.inj_succ. unfold collectionOf.
  assert (E1 : String.eqb STORES.STEPS STORES.HEALTH_DATA = false) by reflexivity.
  assert (E2 : String.eqb STORES.HEALTH_DATA STORES.STEPS = false) by reflexivity.
  destruct (stepsShaped item); rewrite ?String.eqb_refl, ?E1, ?E2; lia.
Qed.

Lemma for_of_processItem_grows h items :
  ∀ w, db_ok (database w) → forallb isNewObject items = true →
  (∀ name, name ∈ STORES.values → 0 < countFor name items →
           nextKey name w + countFor name items ≤ IDB.MAX_KEY + 1) →
  ∃ out w', for_of items processItem h w = (inr out, w')
            ∧ length out = length items
            ∧ (forallb stepsShaped items = true → out = items)
            ∧ (∃ d, w' = set_database d w)
            ∧ db_ok (database w')
            ∧ (∀ name, name ∈ STORES.values →
                       Z.of_nat (length (collection name w'))
                       = Z.of_nat (length (collection name w)) + countFor name items)
            ∧ ∀ name, (∀ item, item ∈ items → collectionOf item ≠ name) →
                      collection name w' = collection name w.
Proof.
  induction items as [| item items IH]; intros w Hok Hnew Hroom.
  - exists [], w. simpl. split; [done |]. split; [done |]. split; [done |].
    split; [exists (database w); by destruct w |]. split; [done |].
    split; [| done]. intros name _. unfold countFor. simpl. lia.
  - simpl in Hnew. apply andb_prop in Hnew as [Hitem Hitems].
    pose proof (collectionOf_store item) as Hstore.
    destruct (processItem_grows h w item Hok Hitem)
      as (r & w1 & Hrun & Hr & [d1 Hd1] & Hok1 & Hnext & Hlen & Hoth).
    { pose proof (countFor_nonneg (collectionOf item) items) as Hpos.
      specialize (Hroom _ Hstore). rewrite countFor_cons, String.eqb_refl in Hroom.
      lia. }
    destruct (IH w1 Hok1 Hitems)
      as (out & w' & Hrest & Hout & Hsame & [d' Hd'] & Hok' & Hgrow & Hothers).
    { intros name Hname Hpos. specialize (Hroom name Hname).
      rewrite countFor_cons in Hroom.
      destruct (String.eqb (collectionOf item) name) eqn:E.
      - apply String.eqb_eq in E. subst name. rewrite Hnext. lia.
      - apply String.eqb_neq in E.
        destruct (Hoth name) as [_ Hsame']; [done |]. rewrite Hsame' by done. lia. }
    exists (r :: out), w'. cbn [for_of]. munfold. rewrite Hrun. cbn [fst snd].
    rewrite Hrest. cbn [fst snd]. split; [done |]. split; [simpl; lia |].
    split.
    { cbn [forallb]. intros [H1 H2]%andb_prop. by rewrite Hr, Hsame. }
    split; [exists d'; rewrite Hd', Hd1; by destruct w |].
    split; [done |]. split.
    + intros name Hname. rewrite (Hgrow name Hname), countFor_cons.
      destruct (String.eqb (collectionOf item) name) eqn:E.
      * apply String.eqb_eq in E. subst name. rewrite Hlen. lia.
      * apply String.eqb_neq in E. destruct (Hoth name) as [-> _]; [done |]. lia.
    + intros name Hname.
      rewrite Hothers by (intros item' Hin; apply Hname; by right).
      apply Hoth. intros ->. apply (Hname item); [left | reflexivity].
Qed.

(** X21. Every element of a list is filed: in a world the worker reaches,
    [processHealthData] on a list of objects without an [id] succeeds and
    returns as many elements as it was given, as long as the key generators
    of the Steps and HealthData collections can number their share of the
    elements without passing 2^53; the Steps collection grows by the number
    of elements with type [steps] or a defined [steps] field, the HealthData
    collection by the number of the others, and no other collection
    changes. *)
Theorem processHealthData_files_every_item w h items :
  reachable w →
  forallb isNewObject items = true →
  nextKey STORES.STEPS w + countFor STORES.STEPS items ≤ IDB.MAX_KEY + 1 →
  nextKey STORES.HEALTH_DATA w + countFor STORES.HEALTH_DATA items ≤ IDB.MAX_KEY + 1 →
  let w' := run (processHealthData (VArr items)) h w in
  (∃ out, result (processHealthData (VArr items)) h w = inr out
          ∧ length out = length items)
  ∧ Z.of_nat (length (collection STORES.STEPS w'))
    = Z.of_nat (length (collection STORES.STEPS w)) + countFor STORES.STEPS items
  ∧ Z.of_nat (length (collection STORES.HEALTH_DATA w'))
    = Z.of_nat (length (collection STORES.HEALTH_DATA w))
      + countFor STORES.HEALTH_DATA items
  ∧ countFor STORES.STEPS items + countFor STORES.HEALTH_DATA items
    = Z.of_nat (length items)
  ∧ ∀ name, name ≠ STORES.STEPS → name ≠ STORES.HEALTH_DATA →
            collection name w' = collection name w.
Proof.
  intros Hw Hnew Hsteps Hhealth w'. subst w'.
  pose proof (reachable_db_ok w Hw) as Hok0.
  destruct (for_of_processItem_grows h items w Hok0 Hnew)
    as (out & w' & Hrun & Hout & _ & _ & Hok & Hgrow & Hothers).
  { intros name Hname Hpos.
    destruct (decide (name = STORES.STEPS)) as [-> | H1]; [done |].
    destruct (decide (name = STORES.HEALTH_DATA)) as [-> | H2]; [done |].
    exfalso. revert Hpos. unfold countFor. clear -H1 H2.
    induction items as [| item items IH]; [done |].
    cbn [List.filter]. destruct (String.eqb_spec (collectionOf item) name) as [E | _];
      [| done].
    unfold collectionOf in E. destruct (stepsShaped item); congruence. }
  unfold run, result, processHealthData. munfold. rewrite Hrun. cbn [fst snd].
  rewrite updateQuestProgress_noop. cbn [fst snd].
  split; [eauto |]. rewrite !(db_ok_opened w' Hok).
  split; [apply Hgrow; vm_compute; repeat constructor |].
  split; [apply Hgrow; vm_compute; repeat constructor |].
  split; [apply countFor_split |].
  intros name H1 H2. rewrite (db_ok_opened w' Hok). apply Hothers.
  intros item _. unfold collectionOf. by destruct (stepsShaped item).
Qed.

Lemma processHealthData_files_every_item_witness :
  let items := [VObj [("type", VStr "steps"); ("steps", VNum 300)];
                VObj [("type", VStr "sleep"); ("value", VNum 7)];
                VObj [("steps", VNum 20)]] in
  let w' := run (processHealthData (VArr items)) sampleHost walkedWorld in
  (∃ out, result (processHealthData (VArr items)) sampleHost walkedWorld = inr out
          ∧ length out = length items)
  ∧ Z.of_nat (length (collection STORES.STEPS w'))
    = Z.of_nat (length (collection STORES.STEPS walkedWorld))
      + countFor STORES.STEPS items
  ∧ Z.of_nat (length (collection STORES.HEALTH_DATA w'))
    = Z.of_nat (length (collection STORES.HEALTH_DATA walkedWorld))
      + countFor STORES.HEALTH_DATA items
  ∧ countFor STORES.STEPS items + countFor STORES.HEALTH_DATA items
    = Z.of_nat (length items)
  ∧ ∀ name, name ≠ STORES.STEPS → name ≠ STORES.HEALTH_DATA →
            collection name w' = collection name walkedWorld.
Proof.
  apply (processHealthData_files_every_item walkedWorld sampleHost
           [VObj [("type", VStr "steps"); ("steps", VNum 300)];
            VObj [("type", VStr "sleep"); ("value", VNum 7)];
            VObj [("steps", VNum 20)]]).
  - repeat constructor.
  - reflexivity.
  - by vm_compute.
  - by vm_compute.
Defined.

(** ** Replacing a record *)

(** A store of a reachable world is well formed, and its
    database opens as it is. *)
Lemma reachable_store_ok w name st :
  reachable w → IDB.objectStores (database w) !! name = Some st →
  store_ok st ∧ IDB.version (database w) = DB_VERSION
  ∧ open (database w) = inr (database w).
Proof.
  intros Hw Hst.
  destruct (reachable_db_ok w Hw) as [Habsent | [Hv Hstores]];
    [by rewrite Habsent in Hst |].
  specialize (Hstores name). rewrite Hst in Hstores.
  split; [destruct (schema !! name); [tauto | done] |].
  split; [done |]. unfold open. by rewrite Hv.
Qed.

Lemma getFromStore_found h w d st name k :
  open (database w) = inr d →
  IDB.objectStores d !! name = Some st →
  getFromStore name (IDB.key_value k) h w
  = (inr (default VUndefined (IDB.find_record k (IDB.records st))), set_database d w).
Proof.
  intros Hopen Hst. unfold getFromStore, objectStore. munfold.
  rewrite initDB_spec, Hopen. cbn [database set_database fst snd]. rewrite Hst.
  cbn [fst snd]. by rewrite key_of_value.
Qed.

(** X22. [updateInStore] replaces in place: in a world the worker reaches, given
    an object whose [id] is the key of a stored record, it succeeds with
    that key; [getFromStore] of the key then returns the object, stamped
    with [updatedAt]; the collection has as many records as before, every
    other key leads to the record it led to, and the other collections are
    untouched. *)
Theorem updateInStore_replaces w h h' name st k v props :
  reachable w →
  IDB.objectStores (database w) !! name = Some st →
  (k, v) ∈ IDB.records st →
  assoc "id" props = Some (IDB.key_value k) →
  let data := VObj (assoc_set "updatedAt" (VNum (Date_now (clock h))) props) in
  let w' := run (updateInStore name (VObj props)) h w in
  result (updateInStore name (VObj props)) h w = inr (IDB.key_value k, data)
  ∧ result (getFromStore name (IDB.key_value k)) h' w' = inr data
  ∧ length (collection name w') = length (collection name w)
  ∧ (∀ k', k' ≠ k →
           result (getFromStore name (IDB.key_value k')) h' w'
           = result (getFromStore name (IDB.key_value k')) h' w)
  ∧ ∀ name', name' ≠ name → collection name' w' = collection name' w.
Proof.
  intros Hw Hst Hin Hid data w'.
  destruct (reachable_store_ok w name st Hw Hst) as ((Hkp & _ & Hasc & _) & Hv & Hopen).
  pose proof (elem_find_record _ _ _ Hasc Hin) as Hfind.
  assert (Hrun : updateInStore name (VObj props) h w
    = (inr (IDB.key_value k, data),
       set_database
         {| IDB.version := IDB.version (database w);
            IDB.objectStores :=
              <[name := IDB.with_records st (IDB.bump st k)
                          (IDB.put_record k data (IDB.records st))]>
                (IDB.objectStores (database w)) |} w)).
  { apply updateInStore_object; [done | done | by rewrite Hkp | by rewrite Hkp]. }
  subst w'. unfold run, result. rewrite Hrun. cbn [fst snd].
  split; [done |].
  assert (Hopen' : ∀ stores,
    open {| IDB.version := IDB.version (database w); IDB.objectStores := stores |}
    = inr {| IDB.version := IDB.version (database w); IDB.objectStores := stores |}).
  { intros stores. unfold open. cbn [IDB.version]. by rewrite Hv. }
  split; [| split; [| split]].
  - erewrite getFromStore_found;
      [| cbn [database set_database]; apply Hopen'
       | cbn [IDB.objectStores]; apply lookup_insert_eq].
    cbn [fst IDB.records IDB.with_records]. by rewrite find_put_record.
  - unfold collection. cbn [database set_database IDB.objectStores].
    rewrite lookup_insert_eq, Hst. unfold IDB.getAll. cbn [IDB.records IDB.with_records].
    rewrite !length_fmap. by eapply length_put_record_old.
  - intros k' Hne.
    erewrite getFromStore_found;
      [| cbn [database set_database]; apply Hopen'
       | cbn [IDB.objectStores]; apply lookup_insert_eq].
    erewrite (getFromStore_found h' w); [| exact Hopen | exact Hst].
    cbn [fst IDB.records IDB.with_records]. by rewrite find_put_record_ne.
  - intros name' Hne. unfold collection. cbn [database set_database IDB.objectStores].
    by rewrite lookup_insert_ne.
Qed.

Lemma updateInStore_replaces_witness :
  let props := [("id", VNum 1); ("category", VStr "fitness"); ("progress", VNum 40)] in
  let data := VObj (assoc_set "updatedAt" (VNum (Date_now (clock sampleHost))) props) in
  let w' := run (updateInStore "quests" (VObj props)) sampleHost questWorld in
  result (updateInStore "quests" (VObj props)) sampleHost questWorld
  = inr (IDB.key_value (IDB.KNum 1), data)
  ∧ result (getFromStore "quests" (IDB.key_value (IDB.KNum 1))) sampleHost w' = inr data
  ∧ length (collection "quests" w') = length (collection "quests" questWorld)
  ∧ (∀ k', k' ≠ IDB.KNum 1 →
           result (getFromStore "quests" (IDB.key_value k')) sampleHost w'
           = result (getFromStore "quests" (IDB.key_value k')) sampleHost questWorld)
  ∧ ∀ name', name' ≠ "quests" → collection name' w' = collection name' questWorld.
Proof.
  apply (updateInStore_replaces questWorld sampleHost sampleHost "quests" questsStore
           (IDB.KNum 1) (VObj storedWalkQuest)
           [("id", VNum 1); ("category", VStr "fitness"); ("progress", VNum 40)]).
  - repeat constructor.
  - vm_compute. reflexivity.
  - simpl. left.
  - reflexivity.
Defined.

(** ** Saving by message *)

Lemma find_record_None_elem k v rs : IDB.find_record k rs = None → (k, v) ∉ rs.
Proof.
  induction rs as [| [k1 v1] rs IH]; simpl; intros Hfind Hin.
  - by apply elem_of_nil in Hin.
  - apply elem_of_cons in Hin as [[= <- <-] | Hin].
    + by rewrite key_compare_refl in Hfind.
    + destruct (IDB.key_compare k k1); [done | by apply IH | by apply IH].
Qed.

Lemma elem_put_record_inv k v k' v' rs :
  (k', v') ∈ IDB.put_record k v rs → (k', v') = (k, v) ∨ (k', v') ∈ rs.
Proof.
  induction rs as [| [k1 v1] rs IH]; simpl.
  - intros Hin. apply elem_of_cons in Hin as [-> | Hin]; [by left | by right].
  - destruct (IDB.key_compare k k1).
    + intros Hin. apply elem_of_cons in Hin as [-> | Hin]; [by left |].
      right. by right.
    + intros Hin. apply elem_of_cons in Hin as [-> | Hin]; [by left | by right].
    + intros Hin. apply elem_of_cons in Hin as [-> | Hin]; [right; left |].
      destruct (IH Hin) as [-> | Hrs]; [by left | right; by right].
Qed.

(** The records after an insert of an object without an [id]: the new one,
    and those that were there. *)
Lemma saveToStore_adds h w name props :
  db_ok (database w) → name ∈ STORES.values → assoc "id" props = None →
  nextKey name w ≤ IDB.MAX_KEY →
  ∀ r, r ∈ collection name (run (saveToStore name (VObj props)) h w)
       ↔ r = VObj (assoc_set "id" (VNum (nextKey name w))
                     (stamped (Date_now (clock h)) props))
         ∨ r ∈ collection name w.
Proof.
  intros Hok Hname Hid Hroom.
  destruct (db_ok_store w name Hok Hname)
    as (d & st & Hopen & Hv & Hst & Hst_ok & Hgen).
  rewrite <- Hgen in *.
  pose proof (store_ok_fresh st Hst_ok Hroom) as Hfresh.
  pose proof (saveToStore_new h w d st name props Hopen Hst Hfresh Hid) as Hsave.
  intros r. unfold run. rewrite Hsave. cbn [snd].
  rewrite <- (db_ok_opened w Hok name). unfold collection, opened. rewrite Hopen.
  cbn [database set_database IDB.objectStores]. rewrite lookup_insert_eq, Hst.
  unfold IDB.getAll, appended. cbn [IDB.records IDB.with_records]. split.
  - intros ([k' r'] & -> & Hin)%list_elem_of_fmap.
    apply elem_put_record_inv in Hin as [[= -> ->] | Hin]; [by left | right].
    by apply (list_elem_of_fmap_2 snd _ (k', r')).
  - intros [-> | ([k' r'] & -> & Hin)%list_elem_of_fmap].
    + apply (list_elem_of_fmap_2 snd _ (IDB.KNum (IDB.keyGenerator st), _)).
      apply elem_put_record.
    + apply (list_elem_of_fmap_2 snd _ (k', r')).
      apply put_record_keeps_elem; [done |]. intros ->.
      destruct Hfresh as (_ & _ & _ & Hfree). by apply find_record_None_elem in Hin.
Qed.

(** X23. A save message adds exactly one record: in a world the worker reaches,
    while the key generator of the collection has not passed 2^53, a
    [SAVE_STEPS_DATA], [SAVE_HEALTH_DATA] or [SAVE_QUEST_DATA] message whose
    [data] is an object without an [id] leaves in its collection the records
    that were there and the object, with the key the store generated as its
    [id] and the time of the insert (if it had no [timestamp]); the other
    collections are untouched, and nothing is posted or replied. *)
Theorem save_message_adds_one_record w h props type name payload :
  reachable w →
  assoc "type" props = Some (VStr type) →
  saveTarget type = Some name →
  assoc "data" props = Some (VObj payload) →
  assoc "id" payload = None →
  nextKey name w ≤ IDB.MAX_KEY →
  let w' := run (onMessage (VObj props)) h w in
  (∀ r, r ∈ collection name w'
        ↔ r = VObj (assoc_set "id" (VNum (nextKey name w))
                      (stamped (Date_now (clock h)) payload))
          ∨ r ∈ collection name w)
  ∧ length (collection name w') = S (length (collection name w))
  ∧ (∀ name', name' ≠ name → collection name' w' = collection name' w)
  ∧ posted w' = posted w
  ∧ replies w' = replies w.
Proof.
  intros Hw Htype Htarget Hdata Hid Hroom w'.
  pose proof (reachable_db_ok w Hw) as Hok.
  assert (Hname : name ∈ STORES.values).
  { unfold saveTarget in Htarget.
    repeat (destruct (String.eqb type _);
            [injection Htarget as <-; vm_compute; repeat constructor |]).
    done. }
  destruct (saveToStore_grows h w name payload Hok Hname Hid Hroom)
    as (r & w1 & Hsave & [d1 Hd1] & Hok1 & _ & Hlen & Hothers).
  pose proof (saveToStore_adds h w name payload Hok Hname Hid Hroom) as Hadds.
  unfold run in Hadds. rewrite Hsave in Hadds. cbn [snd] in Hadds.
  assert (Hsame : posted w1 = posted w ∧ replies w1 = replies w).
  { rewrite Hd1. by destruct w. }
  assert (Hopened : ∀ w0, posted (opened w0) = posted w0
                          ∧ replies (opened w0) = replies w0).
  { intros w0. unfold opened. by destruct (open (database w0)). }
  assert (Hrun : w' = w1 ∨ w' = opened w1).
  { subst w'. unfold run, onMessage. munfold. cbn [truthy get]. rewrite Htype, Hdata.
    cbn [default from_option id]. unfold saveTarget in Htarget.
    assert (Htruthy : truthy (VStr type) = true).
    { cbn [truthy]. destruct (String.eqb_spec type "") as [-> | _]; [done | done]. }
    rewrite Htruthy. cbn [fst snd strict_eq_str].
    destruct (String.eqb_spec type "SKIP_WAITING") as [-> | _]; [done |].
    destruct (String.eqb type "SAVE_STEPS_DATA").
    { injection Htarget as <-. rewrite Hsave. cbn [fst snd].
      rewrite updateQuestProgress_noop. by right. }
    destruct (String.eqb type "SAVE_HEALTH_DATA").
    { injection Htarget as <-. rewrite Hsave. by left. }
    destruct (String.eqb type "SAVE_QUEST_DATA"); [| done].
    injection Htarget as <-. rewrite Hsave. by left. }
  assert (Hrest : ∀ name', name' ≠ name → collection name' w1 = collection name' w).
  { intros name' Hne. by apply Hothers. }
  destruct Hrun as [-> | ->].
  - tauto.
  - destruct (Hopened w1) as [-> ->]. rewrite (db_ok_opened w1 Hok1 name).
    split; [done |]. split; [done |]. split; [| tauto].
    intros name' Hne. rewrite (db_ok_opened w1 Hok1 name'). by apply Hrest.
Qed.

Lemma save_message_adds_one_record_witness :
  let payload := [("date", VStr "2024-01-02"); ("steps", VNum 40)] in
  let w' := run (onMessage (VObj [("type", VStr "SAVE_STEPS_DATA");
                                  ("data", VObj payload)])) sampleHost walkedWorld in
  (∀ r, r ∈ collection "steps" w'
        ↔ r = VObj (assoc_set "id" (VNum (nextKey "steps" walkedWorld))
                      (stamped (Date_now (clock sampleHost)) payload))
          ∨ r ∈ collection "steps" walkedWorld)
  ∧ length (collection "steps" w') = S (length (collection "steps" walkedWorld))
  ∧ (∀ name', name' ≠ "steps" → collection name' w' = collection name' walkedWorld)
  ∧ posted w' = posted walkedWorld
  ∧ replies w' = replies walkedWorld.
Proof.
  apply (save_message_adds_one_record walkedWorld sampleHost
           [("type", VStr "SAVE_STEPS_DATA");
            ("data", VObj [("date", VStr "2024-01-02"); ("steps", VNum 40)])]
           "SAVE_STEPS_DATA" "steps" [("date", VStr "2024-01-02"); ("steps", VNum 40)]).
  - repeat constructor.
  - reflexivity.
  - reflexivity.
  - reflexivity.
  - reflexivity.
  - by vm_compute.
Defined.

(** ** Periodic sync *)

(** X24. A periodic sync only notifies: in a world the worker reaches, the tag
    [daily-quest-check] sends every client one [DAILY_QUEST_CHECK] with the
    time of the check, the tag [health-data-sync] one
    [BACKGROUND_SYNC_COMPLETE] for health, any other tag nothing; and no
    record of any collection is touched. *)
Theorem periodic_sync_only_notifies w h tag :
  reachable w →
  let w' := run (onPeriodicSync tag) h w in
  posted w'
  = (posted w ++ match periodicMessage h tag with
                 | Some msg => (λ c, (c, msg)) <$> clients w
                 | None => []
                 end)%list
  ∧ ∀ name, collection name w' = collection name w.
Proof.
  intros Hw w'. subst w'. unfold run, onPeriodicSync, periodicMessage.
  assert (Hopened : posted (opened w) = posted w ∧ clients (opened w) = clients w).
  { unfold opened. by destruct (open (database w)). }
  destruct Hopened as [Hp Hc].
  destruct (String.eqb tag "daily-quest-check").
  { unfold checkDailyQuests, broadcast, Date_dot_now. munfold.
    rewrite updateQuestProgress_noop.
    cbn [fst snd posted set_posted]. rewrite Hp, Hc. split; [done |].
    intros name. by rewrite <- (reachable_opened w Hw name). }
  destruct (String.eqb tag "health-data-sync").
  { unfold syncHealthData, broadcast. munfold. rewrite updateQuestProgress_noop.
    cbn [fst snd posted set_posted]. rewrite Hp, Hc. split; [done |].
    intros name. by rewrite <- (reachable_opened w Hw name). }
  munfold. cbn [fst snd]. by rewrite app_nil_r.
Qed.

Lemma periodic_sync_only_notifies_witness :
  let w' := run (onPeriodicSync "daily-quest-check") sampleHost walkedWorld in
  posted w'
  = (posted walkedWorld
     ++ match periodicMessage sampleHost "daily-quest-check" with
        | Some msg => (λ c, (c, msg)) <$> clients walkedWorld
        | None => []
        end)%list
  ∧ ∀ name, collection name w' = collection name walkedWorld.
Proof.
  apply (periodic_sync_only_notifies walkedWorld sampleHost "daily-quest-check").
  repeat constructor.
Defined.

(** ** Sharing text *)

Lemma parseHealthDataText_entries clk text record :
  record ∈ parseHealthDataText clk text →
  ∃ date steps, record = steps_entry date steps.
Proof.
  unfold parseHealthDataText. destruct (Str.includes "," text).
  - intros Hin. apply list_elem_of_In, in_concat in Hin as (l & Hl & Hin).
    apply list_elem_of_In, elem_of_lookup_imap in Hl as (i & line & -> & _).
    destruct i as [| i]; [done |]. unfold csv_line in Hin.
    destruct (2 <=? _)%nat; [| done]. destruct Hin as [<- | []]. eauto.
  - intros (m & _ & Hm)%list_elem_of_omap.
    destruct (Str.first_digits m); [| done]. simpl in Hm.
    destruct (Str.parseInt s); [| done]. injection Hm as <-. eauto.
Qed.

Lemma parseHealthDataText_new clk text :
  forallb isNewObject (parseHealthDataText clk text) = true
  ∧ forallb stepsShaped (parseHealthDataText clk text) = true.
Proof.
  split; apply forallb_forall; intros record Hin;
    apply list_elem_of_In, parseHealthDataText_entries in Hin as (date & steps & ->);
    reflexivity.
Qed.

Lemma filter_all {A} (f : A → bool) xs :
  forallb f xs = true → List.filter f xs = xs.
Proof.
  induction xs as [| x xs IH]; simpl; [done |].
  intros [-> H]%andb_prop. by rewrite IH.
Qed.

(** X25. Shared text that is not JSON is filed record by record: in a world the
    worker reaches, a share of a non-empty [text] field (without a
    [healthData] entry) that fails to parse as JSON, whose step counts are
    safe integers and whose records the key generator of the Steps
    collection can number without passing 2^53, adds to the Steps collection
    as many records as the text normalizer reads off the text, touches no
    other collection, sends every client [HEALTH_DATA_RECEIVED] with those
    records, and answers with the redirect to the application root. *)
Theorem shared_text_files_every_record w h request entries text e :
  reachable w →
  requestBody request = Form entries →
  formData_get "healthData" entries = None →
  formData_get "text" entries = Some (Field text) →
  text ≠ "" →
  JSON_parse h text = inl e →
  let records := parseHealthDataText (clock h) text in
  forallb safeSteps records = true →
  nextKey STORES.STEPS w + Z.of_nat (length records) ≤ IDB.MAX_KEY + 1 →
  let w' := run (handleSharedData request) h w in
  result (handleSharedData request) h w
  = inr {| status := 302; headers := [("Location", "/")]; body := Text "" |}
  ∧ length (collection STORES.STEPS w')
    = (length (collection STORES.STEPS w) + length records)%nat
  ∧ (∀ name, name ≠ STORES.STEPS → collection name w' = collection name w)
  ∧ posted w'
    = (posted w ++ ((λ c, (c, HEALTH_DATA_RECEIVED (VArr records))) <$> clients w))%list.
Proof.
  intros Hw Hbody Hfile Htext Hne Hjson records _ Hroom w'.
  destruct (parseHealthDataText_new (clock h) text) as [Hnew Hsteps].
  fold records in Hnew, Hsteps.
  assert (Hall : ∀ name, name ≠ STORES.STEPS →
            ∀ item, item ∈ records → collectionOf item ≠ name).
  { intros name Hname item Hin. unfold collectionOf.
    rewrite forallb_forall in Hsteps. rewrite (Hsteps item); [done |].
    by apply list_elem_of_In. }
  assert (Hcount : countFor STORES.STEPS records = Z.of_nat (length records)).
  { unfold countFor. f_equal. f_equal. apply filter_all. apply forallb_forall.
    intros item Hin. unfold collectionOf. rewrite forallb_forall in Hsteps.
    by rewrite (Hsteps item Hin). }
  destruct (for_of_processItem_grows h records w (reachable_db_ok w Hw) Hnew)
    as (out & w1 & Hrun & _ & Hout & [d1 Hd1] & Hok & Hgrow & Hothers).
  { intros name Hname Hpos.
    destruct (decide (name = STORES.STEPS)) as [-> | Hother]; [by rewrite Hcount |].
    exfalso. revert Hpos. unfold countFor.
    assert (List.filter (λ item, String.eqb (collectionOf item) name) records = [])
      as ->; [| done].
    specialize (Hall name Hother). clear -Hall.
    induction records as [| r rs IH]; [done |]. cbn [List.filter].
    destruct (String.eqb_spec (collectionOf r) name) as [E | _].
    - destruct (Hall r); [left | done].
    - apply IH. intros item Hin. apply Hall. by right. }
  rewrite (Hout Hsteps) in Hrun.
  assert (Hhandle : handleSharedData request h w
    = (inr (redirect "/" 302),
       set_posted (posted (opened w1)
                   ++ ((λ c, (c, HEALTH_DATA_RECEIVED (VArr records)))
                         <$> clients (opened w1)))
                  (opened w1))).
  { unfold handleSharedData, formData, fromText, parseShared, processHealthData,
      broadcast.
    munfold. rewrite Hbody. cbn beta iota zeta. rewrite Hfile, Htext.
    apply String.eqb_neq in Hne as ->. cbn [negb]. rewrite Hjson.
    fold records. cbn [truthy fst snd]. rewrite Hrun. cbn [fst snd].
    by rewrite updateQuestProgress_noop. }
  subst w'. unfold run, result. rewrite Hhandle. cbn [fst snd].
  assert (Hsame : posted (opened w1) = posted w ∧ clients (opened w1) = clients w).
  { unfold opened. rewrite Hd1. destruct (open _); by destruct w. }
  destruct Hsame as [-> ->].
  split; [done |]. split; [| split; [| done]].
  - change (collection STORES.STEPS (set_posted _ (opened w1)))
      with (collection STORES.STEPS (opened w1)).
    rewrite (db_ok_opened w1 Hok).
    specialize (Hgrow STORES.STEPS). rewrite Hcount in Hgrow.
    assert (STORES.STEPS ∈ STORES.values) as Hin by (vm_compute; repeat constructor).
    specialize (Hgrow Hin). lia.
  - intros name Hname.
    change (collection name (set_posted _ (opened w1)))
      with (collection name (opened w1)).
    rewrite (db_ok_opened w1 Hok). apply Hothers. by apply Hall.
Qed.

Lemma shared_text_files_every_record_witness :
  let records := parseHealthDataText (clock sampleHost) csvSample in
  let w' := run (handleSharedData csvShare) sampleHost walkedWorld in
  result (handleSharedData csvShare) sampleHost walkedWorld
  = inr {| status := 302; headers := [("Location", "/")]; body := Text "" |}
  ∧ length (collection STORES.STEPS w')
    = (length (collection STORES.STEPS walkedWorld) + length records)%nat
  ∧ (∀ name, name ≠ STORES.STEPS → collection name w' = collection name walkedWorld)
  ∧ posted w'
    = (posted walkedWorld
       ++ ((λ c, (c, HEALTH_DATA_RECEIVED (VArr records))) <$> clients walkedWorld))%list.
Proof.
  apply (shared_text_files_every_record walkedWorld sampleHost csvShare
           [("text", Field csvSample)] csvSample (SyntaxError "Unexpected token")).
  - repeat constructor.
  - reflexivity.
  - reflexivity.
  - reflexivity.
  - discriminate.
  - reflexivity.
  - reflexivity.
  - by vm_compute.
Defined.

(** ** An exhausted key generator *)

(** X26. An exhausted key generator takes no insert: in a world the worker
    reaches, once the key generator of a collection has passed 2^53 (as it
    has after a record with an [id] of 2^53 or more was stored),
    [saveToStore] of an object without an [id] fails with a
    [ConstraintError] and leaves the world as it was. *)
Theorem saveToStore_exhausted w h name props :
  reachable w →
  name ∈ STORES.values →
  assoc "id" props = None →
  IDB.MAX_KEY < nextKey name w →
  saveToStore name (VObj props) h w = (inl ConstraintError, w).
Proof.
  intros Hw Hname Hid Hfull.
  destruct (reachable_store w name Hw Hname) as (d & st & Hopen & Hv & Hst & Hok & Hgen).
  assert (Hsame : d = database w).
  { destruct (reachable_db_ok w Hw) as [Habsent | [Hv' _]].
    - unfold nextKey in Hfull. rewrite Habsent in Hfull.
      cbn [IDB.objectStores IDB.absent] in Hfull. rewrite lookup_empty in Hfull.
      by vm_compute in Hfull.
    - rewrite (open_at_version _ Hv') in Hopen. by injection Hopen as <-. }
  subst d. rewrite <- Hgen in Hfull. apply Z.ltb_lt in Hfull.
  destruct Hok as (Hkp & Hauto & _).
  unfold saveToStore, objectStore, commit, Date_dot_now. munfold.
  rewrite initDB_spec, Hopen, set_database_same. cbn [fst snd]. rewrite Hst.
  assert (Hadd : ∀ props', assoc "id" props' = None →
            IDB.store_record false (VObj props') st = inl ConstraintError).
  { intros props' Hid'. unfold IDB.store_record, IDB.extract_key, IDB.inject_key.
    by rewrite Hkp, Hid', Hauto, Hfull. }
  unfold get, JS.set.
  destruct (truthy (default VUndefined (assoc "timestamp" props))); simpl.
  - by rewrite Hadd.
  - rewrite Hadd; [done |]. rewrite assoc_set_ne; [done | discriminate].
Qed.

Lemma saveToStore_exhausted_witness :
  saveToStore "steps" (VObj [("steps", VNum 2)]) sampleHost exhaustedWorld
  = (inl ConstraintError, exhaustedWorld).
Proof.
  apply (saveToStore_exhausted exhaustedWorld sampleHost "steps" [("steps", VNum 2)]).
  - repeat constructor.
  - vm_compute. repeat constructor.
  - reflexivity.
  - by vm_compute.
Defined.
